(** * Service configuration engine of the Local AI package

    A shallow embedding of the configuration logic of
    [start_services_enhanced.py] (class [ServiceManager]) and
    [configure_services.py] (class [ServiceConfigurator]), and the
    properties of that logic stated by the specification.

    Conventions of the embedding.
    - A Python [dict] is an association list in insertion order; the keys of
      a dictionary read by [json.load] are pairwise different.
    - A key read with [d.get(k, default)] is an optional field; a key read
      with [d[k]] is a field the code requires.
    - A call that raises ([KeyError], [IndexError]) returns [None].
    - [self.config] is threaded through the operations that mutate it.
    - The builtin [str.upper], which follows the Unicode tables, is an
      argument [upper] of the functions that call it; on text of ASCII
      characters it is [Py.ascii_upper]. *)

From Stdlib Require Import ZArith String Ascii List Lia.
From stdpp Require Import base option list strings pretty sorting.

Local Open Scope Z_scope.
Local Open Scope string_scope.
Local Open Scope list_scope.

(** ** Ordered dictionaries *)

Module Dict.
Section Dict.
Context {V : Type}.

(** [d.get(k)] *)
Fixpoint get (d : list (string * V)) (k : string) : option V :=
  match d with
  | [] => None
  | (k', v) :: d' => if decide (k' = k) then Some v else get d' k
  end.

(** [d[k] = v]: an existing key keeps its position, a new key goes last. *)
Fixpoint set (d : list (string * V)) (k : string) (v : V) : list (string * V) :=
  match d with
  | [] => [(k, v)]
  | (k', v') :: d' =>
      if decide (k' = k) then (k, v) :: d' else (k', v') :: set d' k v
  end.

End Dict.
End Dict.

(** ** The registry, as the two programs read it *)

Record PortMapping := {
  host_ip : string;
  host_port : Z;
  container_port : Z;
  protocol : option string
}.

Record Service := {
  enabled : option bool;
  category : option string;
  description : option string;
  ports : option (list PortMapping);
  profiles : option (list string);
  reverse_proxy : option bool
}.

Record Profile := {
  profile_description : option string;
  included_services : option (list string)
}.

Record Global := {
  project_name : option string;
  global_default_host_ip : option string
}.

Record Config := {
  cfg_global : option Global;
  cfg_services : option (list (string * Service));
  cfg_profiles : option (list (string * Profile))
}.

(** [service_config.get('enabled', False)] *)
Definition is_enabled (sc : Service) : bool := default false (enabled sc).

(** [service_config.get('ports', [])] *)
Definition ports_of (sc : Service) : list PortMapping := default [] (ports sc).

(** [port_config.get('protocol', 'tcp')] *)
Definition protocol_of (pc : PortMapping) : string := default "tcp" (protocol pc).

(** ** [ServiceManager.validate_config] *)

(** What [validate_config] reports: it returns [True] after printing the
    success line, and [False] after printing one of two error lines. *)
Inductive validation :=
  | ValidationPassed
  | MissingSection (section : string)
  | PortConflict (key first_owner second_owner : string).

Definition validation_result (v : validation) : bool :=
  match v with ValidationPassed => true | _ => false end.

Definition validation_message (v : validation) : string :=
  match v with
  | ValidationPassed => "Configuration validation passed"
  | MissingSection s =>
      "Error: Missing required section '" +:+ s +:+ "' in configuration"
  | PortConflict key a b =>
      "Error: Port conflict! " +:+ key +:+ " is used by both " +:+ a
        +:+ " and " +:+ b
  end.

(** [key = f"{host_ip}:{host_port}"] *)
Definition port_key (pc : PortMapping) : string :=
  host_ip pc +:+ ":" +:+ pretty (host_port pc).

(** The inner loop, over the ports of one enabled service: the conflict
    found, or [used_ports] after the loop. *)
Fixpoint scan_ports (service_name : string) (ps : list PortMapping)
    (used_ports : list (string * string))
  : (string * string * string) + list (string * string) :=
  match ps with
  | [] => inr used_ports
  | port_config :: ps' =>
      let key := port_key port_config in
      match Dict.get used_ports key with
      | Some owner => inl (key, owner, service_name)
      | None => scan_ports service_name ps' (Dict.set used_ports key service_name)
      end
  end.

(** The outer loop, over [self.config['services'].items()]. *)
Fixpoint scan_services (items : list (string * Service))
    (used_ports : list (string * string))
  : (string * string * string) + list (string * string) :=
  match items with
  | [] => inr used_ports
  | (service_name, service_config) :: rest =>
      if negb (is_enabled service_config) then scan_services rest used_ports
      else
        match scan_ports service_name (ports_of service_config) used_ports with
        | inl conflict => inl conflict
        | inr used_ports' => scan_services rest used_ports'
        end
  end.

Definition validate_config (config : Config) : validation :=
  match cfg_global config, cfg_services config, cfg_profiles config with
  | None, _, _ => MissingSection "global"
  | Some _, None, _ => MissingSection "services"
  | Some _, Some _, None => MissingSection "profiles"
  | Some _, Some items, Some _ =>
      match scan_services items [] with
      | inl (key, a, b) => PortConflict key a b
      | inr _ => ValidationPassed
      end
  end.

(** The bindings the scan visits, in the order it visits them, each with the
    service that declares it. *)
Definition enabled_bindings (items : list (string * Service))
  : list (string * PortMapping) :=
  flat_map (fun item => if is_enabled item.2
                        then map (pair item.1) (ports_of item.2) else []) items.

(** ** [ServiceManager.get_enabled_services] *)

(** Truth value of [profile and profile != 'all'] for [profile: Optional[str]]. *)
Definition profile_filters (profile : option string) : bool :=
  match profile with
  | None => false
  | Some p => bool_decide (p <> "") && bool_decide (p <> "all")
  end.

(** [self.config.get('profiles', {}).get(profile, {}).get('included_services', [])] *)
Definition profile_services (config : Config) (profile : string) : list string :=
  match Dict.get (default [] (cfg_profiles config)) profile with
  | Some pr => default [] (included_services pr)
  | None => []
  end.

(** The loop of [get_enabled_services]; [enabled_services] is the list built
    so far, [append] adds at its end. *)
Fixpoint enabled_loop (config : Config) (profile : option string)
    (items : list (string * Service)) (enabled_services : list string)
  : list string :=
  match items with
  | [] => enabled_services
  | (service_name, service_config) :: rest =>
      if negb (is_enabled service_config)
      then enabled_loop config profile rest enabled_services
      else if profile_filters profile then
        let service_profiles := default [] (profiles service_config) in
        let profile_services := profile_services config (default "" profile) in
        if bool_decide (default "" profile ∈ service_profiles)
           || bool_decide (service_name ∈ profile_services)
        then enabled_loop config profile rest (enabled_services ++ [service_name])
        else enabled_loop config profile rest enabled_services
      else enabled_loop config profile rest (enabled_services ++ [service_name])
  end.

(** [None] is the [KeyError] of [self.config['services']]. *)
Definition get_enabled_services (config : Config) (profile : option string)
  : option (list string) :=
  items ← cfg_services config;
  Some (enabled_loop config profile items []).

(** ** Python string operations the generators use *)

Module Py.

(** The line feed of ["\n".join(...)]. *)
Definition nl : string := String (ascii_of_nat 10) "".

(** [sep.join(parts)] *)
Definition join (sep : string) (parts : list string) : string :=
  String.concat sep parts.

(** [s.startswith(old)] *)
Fixpoint starts_with (old s : string) : bool :=
  match old, s with
  | "", _ => true
  | String a old', String c s' =>
      if decide (a = c) then starts_with old' s' else false
  | String _ _, "" => false
  end.

(** [old in s] *)
Fixpoint occurs_in (old s : string) : bool :=
  starts_with old s ||
  match s with
  | "" => false
  | String _ s' => occurs_in old s'
  end.

(** [c in s] for a single character [c]. *)
Fixpoint has_char (c : ascii) (s : string) : bool :=
  match s with
  | "" => false
  | String a s' => bool_decide (a = c) || has_char c s'
  end.

(** The left-to-right scan of [s.replace(old, new)] for a non-empty [old]:
    [skip] counts the characters of a match still to be passed over. *)
Fixpoint replace_from (skip : nat) (old new s : string) : string :=
  match s with
  | "" => ""
  | String c s' =>
      match skip with
      | S k => replace_from k old new s'
      | O =>
          if starts_with old s
          then new +:+ replace_from (String.length old - 1) old new s'
          else String c (replace_from 0 old new s')
      end
  end.

(** [s.replace("", new)] puts [new] before every character and at the end. *)
Fixpoint interleave (new s : string) : string :=
  match s with
  | "" => new
  | String c s' => new +:+ String c (interleave new s')
  end.

(** [s.replace(old, new)] *)
Definition replace (old new s : string) : string :=
  match old with
  | "" => interleave new s
  | _ => replace_from 0 old new s
  end.

(** Upper-casing of ASCII text: the letters [a]..[z] go to [A]..[Z], every
    other byte stays. This is what [s.upper()] returns for a text of ASCII
    characters only. For other text [s.upper()] follows the Unicode tables
    (it may change a letter outside ASCII, and the length of the text), so
    the functions below that call [upper()] take the builtin as an
    argument. *)
Definition ascii_upper_char (c : ascii) : ascii :=
  let n := nat_of_ascii c in
  if (97 <=? n)%nat && (n <=? 122)%nat then ascii_of_nat (n - 32) else c.

Fixpoint ascii_upper (s : string) : string :=
  match s with
  | "" => ""
  | String c s' => String (ascii_upper_char c) (ascii_upper s')
  end.

(** [int(s)] on ASCII text, [None] for [ValueError]: an optional sign, then
    decimal digits, single underscores allowed between two digits.
    [after_digit] tells whether the character before was a digit. *)
Fixpoint digits (acc : Z) (after_digit : bool) (s : string) : option Z :=
  match s with
  | "" => if after_digit then Some acc else None
  | String c s' =>
      match Ascii.is_nat c with
      | Some d => digits (10 * acc + Z.of_nat d) true s'
      | None =>
          if bool_decide (c = "_"%char) && after_digit
          then digits acc false s'
          else None
      end
  end.

Definition int (s : string) : option Z :=
  match s with
  | String "-" s' => Z.opp <$> digits 0 false s'
  | String "+" s' => digits 0 false s'
  | _ => digits 0 false s
  end.

End Py.

(** ** [ServiceManager.generate_override_file] *)

(** The loop over the ports of one service; [port_mappings] is the list built
    so far. In an environment other than ['private'] a binding is kept only
    for the service named ['caddy'] and only on host address ['0.0.0.0']. *)
Fixpoint port_mappings_loop (service_name environment : string)
    (ps : list PortMapping) (port_mappings : list string) : list string :=
  match ps with
  | [] => port_mappings
  | port_config :: ps' =>
      let host_ip := host_ip port_config in
      let host_port := pretty (host_port port_config) in
      let container_port := pretty (container_port port_config) in
      let protocol := protocol_of port_config in
      if bool_decide (environment = "private") then
        port_mappings_loop service_name environment ps'
          (port_mappings ++
             [host_ip +:+ ":" +:+ host_port +:+ ":" +:+ container_port
                +:+ "/" +:+ protocol])
      else if bool_decide (service_name ∈ ["caddy"]) then
        if bool_decide (host_ip = "0.0.0.0") then
          port_mappings_loop service_name environment ps'
            (port_mappings ++
               [host_port +:+ ":" +:+ container_port +:+ "/" +:+ protocol])
        else port_mappings_loop service_name environment ps' port_mappings
      else port_mappings_loop service_name environment ps' port_mappings
  end.

(** The loop over the resolved names; [override] is
    [override_config['services']], from service name to the list under its
    ['ports'] key. A name absent from the registry reads as [{}]. *)
Fixpoint override_loop (items : list (string * Service)) (environment : string)
    (services : list string) (override : list (string * list string))
  : list (string * list string) :=
  match services with
  | [] => override
  | service_name :: rest =>
      let ports :=
        match Dict.get items service_name with
        | Some service_config => ports_of service_config
        | None => []
        end in
      match ports with
      | [] => override_loop items environment rest override
      | _ =>
          match port_mappings_loop service_name environment ports [] with
          | [] => override_loop items environment rest override
          | port_mappings =>
              override_loop items environment rest
                (Dict.set override service_name port_mappings)
          end
      end
  end.

(** [override_config['services']] at the end of [generate_override_file]. *)
Definition override_services (config : Config) (services : list string)
    (environment : string) : option (list (string * list string)) :=
  items ← cfg_services config;
  Some (override_loop items environment services []).

(** The values [_dict_to_yaml] meets in [override_config]. *)
#[warnings="-register-all"] Inductive yaml :=
  | YScalar (text : string)
  | YList (entries : list string)
  | YDict (fields : list (string * yaml)).

(** [" " * n] *)
Fixpoint spaces (n : nat) : string :=
  match n with
  | O => ""
  | S n' => " " +:+ spaces n'
  end.

(** The lines that one [key, value] pair of [data.items()] appends to
    [yaml_lines] in [_dict_to_yaml(data, indent)]; a nested dictionary is
    appended as one element, already joined. *)
Fixpoint yaml_item (indent : nat) (key : string) (value : yaml) : list string :=
  let indent_str := spaces (2 * indent) in
  match value with
  | YDict fields =>
      [indent_str +:+ key +:+ ":";
       Py.join Py.nl
         (flat_map (fun kv => yaml_item (S indent) kv.1 kv.2) fields)]
  | YList entries =>
      (indent_str +:+ key +:+ ":")
        :: map (fun item => indent_str +:+ "  - " +:+ item) entries
  | YScalar text => [indent_str +:+ key +:+ ": " +:+ text]
  end.

Definition _dict_to_yaml (data : list (string * yaml)) (indent : nat) : string :=
  Py.join Py.nl (flat_map (fun kv => yaml_item indent kv.1 kv.2) data).

(** [override_config] as a value for [_dict_to_yaml]. *)
Definition override_config (override : list (string * list string))
  : list (string * yaml) :=
  [("services",
    YDict (map (fun e => (e.1, YDict [("ports", YList e.2)])) override))].

(** The file name and the text [generate_override_file] writes. *)
Definition generate_override_file (config : Config) (services : list string)
    (environment : string) : option (string * string) :=
  override ← override_services config services environment;
  Some ("docker-compose.override." +:+ environment +:+ ".generated.yml",
        _dict_to_yaml (override_config override) 0).

(** ** [ServiceManager.generate_caddyfile] *)

Definition hostname_map : list (string * string) :=
  [("n8n", "$N8N_HOSTNAME");
   ("open-webui", "$WEBUI_HOSTNAME");
   ("flowise", "$FLOWISE_HOSTNAME");
   ("langfuse-web", "$LANGFUSE_HOSTNAME");
   ("neo4j", "$NEO4J_HOSTNAME");
   ("searxng", "$SEARXNG_HOSTNAME");
   ("portainer", "$PORTAINER_HOSTNAME")].

(** [upper] is the builtin [str.upper]. *)
Definition _get_hostname_variable (upper : string -> string)
    (service_name : string) : string :=
  default ("$" +:+ Py.replace "-" "_" (upper service_name) +:+ "_HOSTNAME")
          (Dict.get hostname_map service_name).

(** The five lines appended for one proxied service. *)
Definition caddy_block (upper : string -> string) (service_name : string)
    (service_config : Service) (first_port : PortMapping) : list string :=
  ["# " +:+ default service_name (description service_config);
   "{" +:+ _get_hostname_variable upper service_name +:+ "} {";
   "    reverse_proxy " +:+ service_name +:+ ":"
     +:+ pretty (container_port first_port);
   "}";
   ""].

(** The loop over the resolved names; [caddy_config] is the list of lines
    built so far. A name absent from the registry reads as [{}]. *)
Fixpoint caddy_loop (upper : string -> string)
    (items : list (string * Service)) (services : list string)
    (caddy_config : list string) : list string :=
  match services with
  | [] => caddy_config
  | service_name :: rest =>
      match Dict.get items service_name with
      | None => caddy_loop upper items rest caddy_config
      | Some service_config =>
          if negb (default false (reverse_proxy service_config))
          then caddy_loop upper items rest caddy_config
          else
            match ports_of service_config with
            | [] => caddy_loop upper items rest caddy_config
            | first_port :: _ =>
                caddy_loop upper items rest
                  (caddy_config
                     ++ caddy_block upper service_name service_config
                          first_port)
            end
      end
  end.

Definition caddy_header : list string :=
  ["{" +:+ Py.nl +:+ "    email {$LETSENCRYPT_EMAIL}" +:+ Py.nl +:+ "}"; ""].

Definition caddy_footer : list string :=
  ["import /etc/caddy/addons/*.conf"; ""].

(** The text written to [Caddyfile.generated]. *)
Definition generate_caddyfile (upper : string -> string) (config : Config)
    (services : list string) : option string :=
  items ← cfg_services config;
  Some (Py.join Py.nl
          (caddy_loop upper items services caddy_header ++ caddy_footer)).

(** ** [ServiceConfigurator]: the interactive editor *)

(** [service_config['enabled'] = value] *)
Definition set_enabled (value : bool) (sc : Service) : Service :=
  {| enabled := Some value; category := category sc;
     description := description sc; ports := ports sc;
     profiles := profiles sc; reverse_proxy := reverse_proxy sc |}.

(** [service_config['ports'] = ps], for a service that has the key. *)
Definition set_ports (ps : list PortMapping) (sc : Service) : Service :=
  {| enabled := enabled sc; category := category sc;
     description := description sc; ports := Some ps;
     profiles := profiles sc; reverse_proxy := reverse_proxy sc |}.

(** [port_config['host_ip'] = ip] *)
Definition set_host_ip (ip : string) (pc : PortMapping) : PortMapping :=
  {| host_ip := ip; host_port := host_port pc;
     container_port := container_port pc; protocol := protocol pc |}.

(** [port_config['host_port'] = port] *)
Definition set_host_port (port : Z) (pc : PortMapping) : PortMapping :=
  {| host_ip := host_ip pc; host_port := port;
     container_port := container_port pc; protocol := protocol pc |}.

(** [self.config['services'] = items], for a registry that has the key. *)
Definition set_services (items : list (string * Service)) (config : Config)
  : Config :=
  {| cfg_global := cfg_global config; cfg_services := Some items;
     cfg_profiles := cfg_profiles config |}.

(** [toggle_service]; [None] is the [KeyError] of [self.config['services']].
    The service dictionary is changed in place, so the service keeps its
    position in the service map. *)
Definition toggle_service (config : Config) (service_name : string)
  : option Config :=
  items ← cfg_services config;
  match Dict.get items service_name with
  | Some service_config =>
      let current_status := is_enabled service_config in
      Some (set_services
              (Dict.set items service_name
                 (set_enabled (negb current_status) service_config))
              config)
  | None => Some config
  end.

(** The loop of [check_port_conflict] over [self.config['services'].items()]. *)
Fixpoint conflict_loop (items : list (string * Service))
    (current_service host_ip' : string) (host_port' : Z) : bool :=
  match items with
  | [] => false
  | (service_name, service_config) :: rest =>
      if bool_decide (service_name = current_service)
         || negb (is_enabled service_config)
      then conflict_loop rest current_service host_ip' host_port'
      else if existsb (fun port_config =>
                         bool_decide (host_ip port_config = host_ip')
                         && bool_decide (host_port port_config = host_port'))
                      (ports_of service_config)
      then true
      else conflict_loop rest current_service host_ip' host_port'
  end.

Definition check_port_conflict (config : Config) (current_service host_ip' : string)
    (host_port' : Z) : option bool :=
  items ← cfg_services config;
  Some (conflict_loop items current_service host_ip' host_port').

(** How the host-port prompt of [edit_single_port] ends. *)
Inductive port_answer :=
  | PortKept            (* empty answer, or the port the binding already has *)
  | PortUpdated
  | PortConflictFound   (* "Port conflict detected!", then [return] *)
  | PortOutOfRange      (* "Must be between 1-65535." *)
  | PortNotNumeric.     (* [ValueError] of [int] *)

(** [self.config['services'][service_name]['ports'][port_index] = pc]: the
    port dictionary is changed in place, everything keeps its position. *)
Definition store_port (config : Config) (service_name : string)
    (port_index : nat) (pc : PortMapping) : Config :=
  match cfg_services config with
  | Some items =>
      match Dict.get items service_name with
      | Some service_config =>
          match ports service_config with
          | Some ps =>
              set_services
                (Dict.set items service_name
                   (set_ports (<[port_index := pc]> ps) service_config))
                config
          | None => config
          end
      | None => config
      end
  | None => config
  end.

(** [edit_single_port], for a port index counted from 0. [new_ip] and
    [new_port_str] are the two answers read by [input(...).strip()].
    [None] is the [KeyError] or [IndexError] of the first statement, raised
    before anything is changed. The result is the registry after the call,
    with how the host-port prompt ended. *)
Definition edit_single_port (config : Config) (service_name : string)
    (port_index : nat) (new_ip new_port_str : string)
  : option (Config * port_answer) :=
  items ← cfg_services config;
  service_config ← Dict.get items service_name;
  ps ← ports service_config;
  port_config ← ps !! port_index;
  (* Edit host IP *)
  let current_ip := host_ip port_config in
  let ip_changes :=
    bool_decide (new_ip <> "") && bool_decide (new_ip <> current_ip) in
  let port_config1 :=
    if ip_changes then set_host_ip new_ip port_config else port_config in
  let config1 :=
    if ip_changes then store_port config service_name port_index port_config1
    else config in
  (* Edit host port *)
  let current_port := host_port port_config1 in
  if bool_decide (new_port_str = "") then Some (config1, PortKept)
  else
    match Py.int new_port_str with
    | None => Some (config1, PortNotNumeric)
    | Some new_port =>
        if ((1 <=? new_port) && (new_port <=? 65535))%Z then
          if bool_decide (new_port <> current_port) then
            conflict ← check_port_conflict config1 service_name
                          (host_ip port_config1) new_port;
            if conflict : bool then Some (config1, PortConflictFound)
            else
              Some (store_port config1 service_name port_index
                      (set_host_port new_port port_config1),
                    PortUpdated)
          else Some (config1, PortKept)
        else Some (config1, PortOutOfRange)
    end.

(** [ports[port_index]] for an integer index into a list of [len] elements:
    the position that is read, a negative index counting from the end;
    [None] is the [IndexError]. *)
Definition list_position (len : nat) (port_index : Z) : option nat :=
  if (0 <=? port_index)%Z then
    if (port_index <? Z.of_nat len)%Z then Some (Z.to_nat port_index)
    else None
  else if (- Z.of_nat len <=? port_index)%Z
  then Some (Z.to_nat (Z.of_nat len + port_index))
  else None.

(** [edit_single_port(service_name, port_index)] for any integer
    [port_index]. Only the first statement reads [port_index]; what follows
    edits the mapping that statement has found. *)
Definition edit_single_port_at (config : Config) (service_name : string)
    (port_index : Z) (new_ip new_port_str : string)
  : option (Config * port_answer) :=
  items ← cfg_services config;
  service_config ← Dict.get items service_name;
  ps ← ports service_config;
  position ← list_position (length ps) port_index;
  edit_single_port config service_name position new_ip new_port_str.

(** ** [ServiceManager._substitute_variables] *)

(** What [json.load] returns. *)
#[warnings="-register-all"] Inductive json :=
  | JNull
  | JBool (b : bool)
  | JInt (n : Z)
  | JFloat (literal : string)
  | JString (s : string)
  | JArray (elements : list json)
  | JObject (members : list (string * json)).

Definition placeholder : string := "${default_host_ip}".

(** [substitute_recursive(obj)] with the captured [default_host_ip]. The
    loaded value is a tree without sharing, so assigning the result to each
    slot in place builds the tree returned here. [None] is the [TypeError]
    of [str.replace] when [default_host_ip] is not a string. *)
Fixpoint substitute_recursive (default_host_ip : json) (obj : json)
  : option json :=
  match obj with
  | JObject members =>
      JObject <$>
        mapM (fun kv => value ← substitute_recursive default_host_ip kv.2;
                        Some (kv.1, value)) members
  | JArray elements =>
      JArray <$> mapM (substitute_recursive default_host_ip) elements
  | JString s =>
      match default_host_ip with
      | JString value => Some (JString (Py.replace placeholder value s))
      | _ => None
      end
  | _ => Some obj
  end.

(** [config.get('global', {}).get('default_host_ip', '127.0.0.1')]; [None] is
    the [AttributeError] of [.get] on a value that is not a dictionary. *)
Definition resolved_default_host_ip (config : json) : option json :=
  match config with
  | JObject members =>
      match default (JObject []) (Dict.get members "global") with
      | JObject settings =>
          Some (default (JString "127.0.0.1")
                        (Dict.get settings "default_host_ip"))
      | _ => None
      end
  | _ => None
  end.

(** The registry after [_substitute_variables(config)]. *)
Definition _substitute_variables (config : json) : option json :=
  default_host_ip ← resolved_default_host_ip config;
  substitute_recursive default_host_ip config.

(** ** [ServiceConfigurator]: the menus *)

(** The loop of [print_service_list] that groups the services by category;
    [categories] maps a category to the list of its items so far. *)
Fixpoint group_loop (items : list (string * Service))
    (categories : list (string * list (string * Service)))
  : list (string * list (string * Service)) :=
  match items with
  | [] => categories
  | (service_name, service_config) :: rest =>
      let category := default "other" (category service_config) in
      let categories1 :=
        match Dict.get categories category with
        | None => Dict.set categories category []
        | Some _ => categories
        end in
      group_loop rest
        (Dict.set categories1 category
           (default [] (Dict.get categories1 category)
              ++ [(service_name, service_config)]))
  end.

(** [sorted(categories.items())]: the keys of a dictionary are pairwise
    different, so the pairs are ordered by their keys; texts compare
    character by character. *)
Fixpoint insert_sorted {V} (e : string * V) (l : list (string * V))
  : list (string * V) :=
  match l with
  | [] => [e]
  | e' :: l' =>
      if String.leb e.1 e'.1 then e :: l else e' :: insert_sorted e l'
  end.

Fixpoint sorted_items {V} (l : list (string * V)) : list (string * V) :=
  match l with
  | [] => []
  | e :: l' => insert_sorted e (sorted_items l')
  end.

(** The inner loop that numbers the services of one category:
    [service_index_map[service_index] = service_name], then
    [service_index += 1]. The numbers grow, so each is a new key. *)
Fixpoint number_services (service_list : list (string * Service))
    (service_index : Z) (service_index_map : list (Z * string))
  : Z * list (Z * string) :=
  match service_list with
  | [] => (service_index, service_index_map)
  | (service_name, _) :: rest =>
      number_services rest (service_index + 1)
        (service_index_map ++ [(service_index, service_name)])
  end.

(** The outer loop, over the categories in sorted order. *)
Fixpoint number_categories
    (categories : list (string * list (string * Service)))
    (service_index : Z) (service_index_map : list (Z * string))
  : list (Z * string) :=
  match categories with
  | [] => service_index_map
  | (_, service_list) :: rest =>
      let '(service_index', service_index_map') :=
        number_services service_list service_index service_index_map in
      number_categories rest service_index' service_index_map'
  end.

(** [self.service_index_map] after [print_service_list]. *)
Definition service_index_map (items : list (string * Service))
  : list (Z * string) :=
  number_categories (sorted_items (group_loop items [])) 1 [].

(** [self.service_index_map[choice_num]], [None] when the number is not a
    key. *)
Fixpoint index_get (m : list (Z * string)) (choice_num : Z) : option string :=
  match m with
  | [] => None
  | (k, name) :: m' =>
      if bool_decide (k = choice_num) then Some name
      else index_get m' choice_num
  end.

(** How a menu that asks for a service number ends. *)
Inductive menu_answer :=
  | MenuNotANumber      (* [ValueError] of [int] *)
  | MenuCancelled       (* the number 0 *)
  | MenuInvalidNumber   (* a number that is not in the list *)
  | MenuChosen (service_name : string).

(** The choice read by [handle_toggle_service] and [handle_edit_ports];
    [choice] is the answer after [strip()]. *)
Definition read_choice (items : list (string * Service)) (choice : string)
  : menu_answer :=
  match Py.int choice with
  | None => MenuNotANumber
  | Some choice_num =>
      if bool_decide (choice_num = 0) then MenuCancelled
      else match index_get (service_index_map items) choice_num with
           | Some service_name => MenuChosen service_name
           | None => MenuInvalidNumber
           end
  end.

(** [handle_toggle_service]; [None] is the [KeyError] of
    [self.config['services']]. *)
Definition handle_toggle_service (config : Config) (choice : string)
  : option (Config * menu_answer) :=
  items ← cfg_services config;
  match read_choice items choice with
  | MenuChosen service_name =>
      config' ← toggle_service config service_name;
      Some (config', MenuChosen service_name)
  | answer => Some (config, answer)
  end.

(** How [edit_service_ports] ends. *)
Inductive ports_menu_answer :=
  | PortsServiceNotFound
  | PortsNothingToEdit     (* the service has no port mapping *)
  | PortsNotANumber
  | PortsBack              (* the number 0 *)
  | PortsInvalidChoice
  | PortsEdited (answer : port_answer).

(** [edit_service_ports]; [choice] is the answer to the menu of the port
    mappings, [new_ip] and [new_port_str] the answers [edit_single_port]
    reads when it is called. *)
Definition edit_service_ports (config : Config) (service_name : string)
    (choice new_ip new_port_str : string)
  : option (Config * ports_menu_answer) :=
  items ← cfg_services config;
  match Dict.get items service_name with
  | None => Some (config, PortsServiceNotFound)
  | Some service_config =>
      let ports := ports_of service_config in
      match ports with
      | [] => Some (config, PortsNothingToEdit)
      | _ =>
          match Py.int choice with
          | None => Some (config, PortsNotANumber)
          | Some choice_num =>
              if bool_decide (choice_num = 0) then Some (config, PortsBack)
              else if ((1 <=? choice_num)
                       && (choice_num <=? Z.of_nat (length ports)))%Z then
                edited ← edit_single_port config service_name
                            (Z.to_nat (choice_num - 1)) new_ip new_port_str;
                Some (edited.1, PortsEdited edited.2)
              else Some (config, PortsInvalidChoice)
          end
      end
  end.

(** [handle_edit_ports]; [choice] is the answer to the list of the services,
    the other answers are those [edit_service_ports] reads when it is
    called. [None] is the [KeyError] of [self.config['services']]. *)
Definition handle_edit_ports (config : Config)
    (choice port_choice new_ip new_port_str : string)
  : option (Config * menu_answer * option ports_menu_answer) :=
  items ← cfg_services config;
  match read_choice items choice with
  | MenuChosen service_name =>
      edited ← edit_service_ports config service_name port_choice
                  new_ip new_port_str;
      Some (edited.1, MenuChosen service_name, Some edited.2)
  | answer => Some (config, answer, None)
  end.

(** ** Starting the containers: [main] of [start_services_enhanced.py] *)

(** What the program does to its environment, printing apart. *)
Inductive action :=
  | WriteFile (path content : string)  (* [open(path, 'w')], [write] *)
  | CopyFile (source target : string)  (* [shutil.copyfile] *)
  | Chdir (path : string)              (* [os.chdir] *)
  | Run (cmd : list string)            (* [subprocess.run(cmd, check=True)] *)
  | CheckOutput (cmd : list string)    (* [subprocess.check_output(cmd)] *)
  | Sleep (seconds : Z).               (* [time.sleep] *)

(** What a run reads from its environment. One run attempts no action twice
    and asks for no path twice, so one answer for each describes the run.
    [supabase s] is the truth value of
    [self.config['services'].get(s, {}).get('supabase')], a key that the
    record [Service] does not carry. [str_upper] is the builtin [str.upper]
    of the interpreter that runs the program. *)
Record World := {
  succeeds : action -> bool;     (* [false]: the action raises *)
  path_exists : string -> bool;  (* [os.path.exists] *)
  os_sep : string;               (* the separator [os.path.join] puts *)
  platform_system : string;      (* [platform.system()] *)
  openssl_output : string;       (* what [openssl] prints, decoded, stripped *)
  supabase : string -> bool;
  str_upper : string -> string
}.

(** How a piece of the program ends. *)
Inductive outcome (A : Type) :=
  | Returns (result : A)
  | Exits (code : Z)   (* [sys.exit(code)] *)
  | Raises.            (* an exception that nothing has caught yet *)

Arguments Returns {A} result.
Arguments Exits {A} code.
Arguments Raises {A}.

(** A piece of the program: the actions it attempts, in order, and how it
    ends. An action that raises is the last one attempted. *)
Definition script (A : Type) : Type := list action * outcome A.

#[global] Instance script_ret : MRet script := fun A a => ([], Returns a).

#[global] Instance script_bind : MBind script := fun A B f m =>
  match m.2 with
  | Returns a => (m.1 ++ (f a).1, (f a).2)
  | Exits code => (m.1, Exits code)
  | Raises => (m.1, Raises)
  end.

Definition perform (w : World) (a : action) : script unit :=
  ([a], if succeeds w a then Returns tt else Raises).

Definition sys_exit {A} (code : Z) : script A := ([], Exits code).

Definition raise {A} : script A := ([], Raises).

(** [try: body] with [except Exception], which does not catch [sys.exit]:
    whether the body ended without raising. *)
Definition try_except (body : script unit) : script bool :=
  (body.1,
   match body.2 with
   | Returns _ => Returns true
   | Exits code => Exits code
   | Raises => Returns false
   end).

(** [os.path.join] of relative path components. *)
Definition path_join (w : World) (parts : list string) : string :=
  Py.join (os_sep w) parts.

Definition run_command (w : World) (cmd : list string) : script unit :=
  perform w (Run cmd).

Definition clone_supabase_repo (w : World) : script unit :=
  if negb (path_exists w "supabase") then
    _ ← run_command w
          ["git"; "clone"; "--filter=blob:none"; "--no-checkout";
           "https://github.com/supabase/supabase.git"];
    _ ← perform w (Chdir "supabase");
    _ ← run_command w ["git"; "sparse-checkout"; "init"; "--cone"];
    _ ← run_command w ["git"; "sparse-checkout"; "set"; "docker"];
    _ ← run_command w ["git"; "checkout"; "master"];
    perform w (Chdir "..")
  else
    _ ← perform w (Chdir "supabase");
    _ ← run_command w ["git"; "pull"];
    perform w (Chdir "..").

Definition prepare_supabase_env (w : World) : script unit :=
  let env_path := path_join w ["supabase"; "docker"; ".env"] in
  let env_example_path := path_join w [".env"] in
  perform w (CopyFile env_example_path env_path).

(** Truth value of [profile and profile != "none"]. *)
Definition compose_profile (profile : option string) : bool :=
  match profile with
  | None => false
  | Some p => bool_decide (p <> "") && bool_decide (p <> "none")
  end.

(** The command of [stop_existing_containers]. *)
Definition stop_command (project_name : string) (profile : option string)
  : list string :=
  let cmd := ["docker"; "compose"; "-p"; project_name] in
  let cmd :=
    if compose_profile profile then cmd ++ ["--profile"; default "" profile]
    else cmd in
  cmd ++ ["-f"; "docker-compose.yml"; "down"].

Definition stop_existing_containers (w : World) (project_name : string)
    (profile : option string) : script unit :=
  run_command w (stop_command project_name profile).

(** The command of [start_supabase]. *)
Definition supabase_command (project_name : string)
    (environment : option string) : list string :=
  let cmd :=
    ["docker"; "compose"; "-p"; project_name; "-f";
     "supabase/docker/docker-compose.yml"] in
  let cmd :=
    if bool_decide (environment = Some "public")
    then cmd ++ ["-f"; "docker-compose.override.public.supabase.yml"]
    else cmd in
  cmd ++ ["up"; "-d"].

Definition start_supabase (w : World) (project_name : string)
    (environment : option string) : script unit :=
  run_command w (supabase_command project_name environment).

(** The command of [start_local_ai]. *)
Definition local_ai_command (w : World) (project_name : string)
    (profile environment override_file : option string) : list string :=
  let cmd := ["docker"; "compose"; "-p"; project_name] in
  let cmd :=
    if compose_profile profile then cmd ++ ["--profile"; default "" profile]
    else cmd in
  let cmd := cmd ++ ["-f"; "docker-compose.yml"] in
  let cmd :=
    if match override_file with
       | Some file => bool_decide (file <> "") && path_exists w file
       | None => false
       end
    then cmd ++ ["-f"; default "" override_file]
    else if bool_decide (environment = Some "private")
            && path_exists w "docker-compose.override.private.yml"
    then cmd ++ ["-f"; "docker-compose.override.private.yml"]
    else if bool_decide (environment = Some "public")
            && path_exists w "docker-compose.override.public.yml"
    then cmd ++ ["-f"; "docker-compose.override.public.yml"]
    else cmd in
  cmd ++ ["up"; "-d"].

Definition start_local_ai (w : World) (project_name : string)
    (profile environment override_file : option string) : script unit :=
  run_command w (local_ai_command w project_name profile environment
                   override_file).

(** The quotation mark. *)
Definition quote : string := String (ascii_of_nat 34) "".

Definition ps_command : list string :=
  ["powershell"; "-Command";
   "$randomBytes = New-Object byte[] 32; "
   +:+ "(New-Object Security.Cryptography.RNGCryptoServiceProvider).GetBytes($randomBytes); "
   +:+ "$secretKey = -join ($randomBytes | ForEach-Object { " +:+ quote
   +:+ "{0:x2}" +:+ quote +:+ " -f $_ }); "
   +:+ "(Get-Content searxng/settings.yml) -replace 'ultrasecretkey', $secretKey | Set-Content searxng/settings.yml"].

Definition openssl_cmd : list string := ["openssl"; "rand"; "-hex"; "32"].

Definition sed_cmd (system random_key settings_path : string)
  : list string :=
  if bool_decide (system = "Darwin") then
    ["sed"; "-i"; ""; "s|ultrasecretkey|" +:+ random_key +:+ "|g";
     settings_path]
  else
    ["sed"; "-i"; "s|ultrasecretkey|" +:+ random_key +:+ "|g"; settings_path].

Definition generate_searxng_secret_key (w : World) : script unit :=
  let settings_path := path_join w ["searxng"; "settings.yml"] in
  let settings_base_path := path_join w ["searxng"; "settings-base.yml"] in
  if negb (path_exists w settings_base_path) then mret tt
  else
    created ←
      (if negb (path_exists w settings_path)
       then try_except
              (perform w (CopyFile settings_base_path settings_path))
       else mret true);
    if negb created then mret tt
    else
      let system := platform_system w in
      _ ← try_except
            (if bool_decide (system = "Windows") then
               perform w (Run ps_command)
             else
               _ ← perform w (CheckOutput openssl_cmd);
               let random_key := openssl_output w in
               perform w (Run (sed_cmd system random_key settings_path)));
      mret tt.

(** [args], as [parser.parse_args()] returns it; the parser lets only
    ['cpu'], ['gpu-nvidia'], ['gpu-amd'] and ['none'] through as profile and
    ['private'] and ['public'] as environment. *)
Record Args := {
  args_profile : string;
  args_environment : string;
  args_no_supabase : bool;
  args_dry_run : bool;
  args_list_services : bool
}.

(** [self.config.get('global', {}).get('project_name', 'localai')] *)
Definition project_name_of (config : Config) : string :=
  default "localai" (cfg_global config ≫= project_name).

(** [generate_override_file] with the file it writes; it returns the name of
    the file. *)
Definition write_override_file (w : World) (config : Config)
    (services : list string) (environment : string) : script string :=
  match generate_override_file config services environment with
  | None => raise
  | Some (override_filename, yaml_content) =>
      _ ← perform w (WriteFile override_filename yaml_content);
      mret override_filename
  end.

(** [generate_caddyfile] with the file it writes. *)
Definition write_caddyfile (w : World) (config : Config)
    (services : list string) : script unit :=
  match generate_caddyfile (str_upper w) config services with
  | None => raise
  | Some caddyfile_content =>
      perform w (WriteFile "Caddyfile.generated" caddyfile_content)
  end.

(** [main], from the point where [service_manager] has been built from the
    registry [config]. *)
Definition main (w : World) (args : Args) (config : Config) : script unit :=
  if args_list_services args then
    match cfg_services config with
    | None => raise
    | Some _ => mret tt
    end
  else if negb (validation_result (validate_config config)) then sys_exit 1
  else
    match get_enabled_services config (Some (args_profile args)) with
    | None => raise
    | Some enabled_services =>
        match enabled_services with
        | [] => sys_exit 1
        | _ =>
            if args_dry_run args then mret tt
            else
              let needs_supabase :=
                negb (args_no_supabase args)
                && existsb (supabase w) enabled_services in
              override_file ←
                write_override_file w config enabled_services
                  (args_environment args);
              _ ← write_caddyfile w config enabled_services;
              _ ← (if needs_supabase
                   then _ ← clone_supabase_repo w; prepare_supabase_env w
                   else mret tt);
              _ ← (if bool_decide ("searxng" ∈ enabled_services)
                   then generate_searxng_secret_key w
                   else mret tt);
              _ ← stop_existing_containers w (project_name_of config)
                    (Some (args_profile args));
              _ ← (if needs_supabase
                   then _ ← start_supabase w (project_name_of config)
                              (Some (args_environment args));
                        ([Sleep 10], Returns tt)
                   else mret tt);
              start_local_ai w (project_name_of config)
                (Some (args_profile args)) (Some (args_environment args))
                (Some override_file)
        end
    end.

(** ** Definitions used to state the properties *)

(** Sample registries. *)

Definition mk_port (ip : string) (hp cp : Z) : PortMapping :=
  {| host_ip := ip; host_port := hp; container_port := cp; protocol := None |}.

Definition mk_service (on : bool) (ps : list PortMapping) : Service :=
  {| enabled := Some on; category := None; description := None;
     ports := Some ps; profiles := None; reverse_proxy := None |}.

Definition mk_config (items : list (string * Service)) : Config :=
  {| cfg_global := Some {| project_name := None; global_default_host_ip := None |};
     cfg_services := Some items;
     cfg_profiles := Some [] |}.

Definition registry_a_b : Config :=
  mk_config [("a", mk_service true [mk_port "127.0.0.1" 8000 80]);
             ("b", mk_service true [mk_port "127.0.0.1" 8000 81])].

Definition registry_one_service : Config :=
  mk_config [("a", mk_service true [mk_port "127.0.0.1" 8000 80;
                                    mk_port "127.0.0.1" 8000 81])].

Definition three_on_two_off : Config :=
  mk_config [("n8n", mk_service true []);
             ("ollama", mk_service false []);
             ("flowise", mk_service true []);
             ("neo4j", mk_service false []);
             ("caddy", mk_service true [])].

(** The test the loop of [get_enabled_services] applies to one item. *)
Definition selects (config : Config) (profile : option string)
    (item : string * Service) : bool :=
  is_enabled item.2 &&
  (negb (profile_filters profile)
   || bool_decide (default "" profile ∈ default [] (profiles item.2))
   || bool_decide (item.1 ∈ profile_services config (default "" profile))).

Definition gpu_registry : Config :=
  {| cfg_global := Some {| project_name := None; global_default_host_ip := None |};
     cfg_services :=
       Some [("ollama-gpu",
              {| enabled := Some true; category := None; description := None;
                 ports := None; profiles := Some ["gpu"];
                 reverse_proxy := None |});
             ("open-webui", mk_service true [])];
     cfg_profiles :=
       Some [("gpu", {| profile_description := None;
                        included_services := Some ["open-webui"] |})] |}.

(** The scan of [validate_config] as one loop over the bindings it visits. *)
Fixpoint scan_bindings (bindings : list (string * PortMapping))
    (used_ports : list (string * string))
  : (string * string * string) + list (string * string) :=
  match bindings with
  | [] => inr used_ports
  | (service_name, port_config) :: rest =>
      let key := port_key port_config in
      match Dict.get used_ports key with
      | Some owner => inl (key, owner, service_name)
      | None => scan_bindings rest (Dict.set used_ports key service_name)
      end
  end.

(** Two bindings have the same [(host_ip, host_port)] pair. *)
Definition same_host_pair (p q : PortMapping) : Prop :=
  host_ip p = host_ip q /\ host_port p = host_port q.

(** Two entries of a list of bindings, at different places, with the same
    pair; [a] owns the earlier one and [b] the later one. *)
Definition collide_at (bindings : list (string * PortMapping))
    (a : string) (p : PortMapping) (b : string) (q : PortMapping) : Prop :=
  exists i j : nat,
    (i < j)%nat /\ bindings !! i = Some (a, p) /\ bindings !! j = Some (b, q)
    /\ same_host_pair p q.

(** Two different enabled services declare the same pair. *)
Definition two_enabled_services_share (items : list (string * Service)) : Prop :=
  exists a sa b sb p q,
    a <> b /\ (a, sa) ∈ items /\ (b, sb) ∈ items
    /\ is_enabled sa = true /\ is_enabled sb = true
    /\ p ∈ ports_of sa /\ q ∈ ports_of sb /\ same_host_pair p q.

(** All three required sections are there. *)
Definition has_sections (config : Config) : Prop :=
  is_Some (cfg_global config) /\ is_Some (cfg_services config)
  /\ is_Some (cfg_profiles config).

(** The reading of the port-conflict rule that counts only collisions
    between two different services. *)
Definition conflict_iff_two_services_share (config : Config) : Prop :=
  (exists k a b, validate_config config = PortConflict k a b)
  <-> two_enabled_services_share (default [] (cfg_services config)).



(** The host address of the binding after the host-IP prompt: an empty
    answer keeps the address. *)
Definition edited_ip (new_ip : string) (pc : PortMapping) : string :=
  if bool_decide (new_ip = "") then host_ip pc else new_ip.

(** A service other than [current], enabled, declares [(ip, port)]. *)
Definition other_enabled_declares (items : list (string * Service))
    (current ip : string) (port : Z) : Prop :=
  exists name sc pc,
    (name, sc) ∈ items /\ name <> current /\ is_enabled sc = true
    /\ pc ∈ ports_of sc /\ host_ip pc = ip /\ host_port pc = port.

(** The host-port answers the editor has to refuse: not a number, out of
    range, or taken by another enabled service on the address [ip]. *)
Definition invalid_port_answer (items : list (string * Service))
    (current ip new_port_str : string) : Prop :=
  new_port_str <> ""
  /\ (Py.int new_port_str = None
      \/ exists n, Py.int new_port_str = Some n
           /\ (n < 1 \/ 65535 < n \/ other_enabled_declares items current ip n)).

(** A refused host-port answer leaves the registry as it was before the
    edit began. *)
Definition refused_edit_restores (config : Config) (service_name : string)
    (port_index : nat) (new_ip new_port_str : string) : Prop :=
  forall config' answer,
    edit_single_port config service_name port_index new_ip new_port_str
    = Some (config', answer) ->
    answer ∈ [PortConflictFound; PortOutOfRange; PortNotNumeric] ->
    config' = config.

Definition editor_registry : Config :=
  mk_config [("a", mk_service true [mk_port "127.0.0.1" 8000 80;
                                    mk_port "127.0.0.1" 9000 90]);
             ("b", mk_service false [mk_port "127.0.0.1" 9000 81]);
             ("c", mk_service true [mk_port "127.0.0.1" 7000 70])].

(** The host port of a binding of the registry. *)
Definition host_port_at (config : Config) (service_name : string)
    (port_index : nat) : option Z :=
  items ← cfg_services config;
  sc ← Dict.get items service_name;
  ps ← ports sc;
  pc ← ps !! port_index;
  Some (host_port pc).

(** [toggle_service] called twice in a row on the same name. *)
Definition toggle_twice (config : Config) (service_name : string)
  : option Config :=
  config1 ← toggle_service config service_name;
  toggle_service config1 service_name.

Definition toggle_twice_restores (config : Config) (service_name : string)
  : Prop :=
  toggle_twice config service_name = Some config.

(** A service stored without an ['enabled'] key. *)
Definition unflagged_registry : Config :=
  mk_config [("a", {| enabled := None; category := None; description := None;
                      ports := None; profiles := None;
                      reverse_proxy := None |})].

(** A binding as the public overlay prints it: no host address. *)
Definition public_binding (pc : PortMapping) : string :=
  pretty (host_port pc) +:+ ":" +:+ pretty (container_port pc)
    +:+ "/" +:+ protocol_of pc.

(** The host address is the wildcard [0.0.0.0]. *)
Definition is_wildcard (pc : PortMapping) : bool :=
  bool_decide (host_ip pc = "0.0.0.0").

(** What the service named [caddy] contributes outside ['private']. *)
Definition caddy_bindings (items : list (string * Service)) : list string :=
  match Dict.get items "caddy" with
  | Some sc => map public_binding (List.filter is_wildcard (ports_of sc))
  | None => []
  end.

(** The public overlay lists [entry] under the service [name]. *)
Definition public_overlay_entry (config : Config) (services : list string)
    (name entry : string) : Prop :=
  exists override mappings,
    override_services config services "public" = Some override
    /\ Dict.get override name = Some mappings
    /\ entry ∈ mappings.

Definition mk_proxied (ps : list PortMapping) : Service :=
  {| enabled := Some true; category := None; description := None;
     ports := Some ps; profiles := None; reverse_proxy := Some true |}.

Definition web_admin_registry : Config :=
  mk_config [("web", mk_proxied [mk_port "0.0.0.0" 443 8443]);
             ("admin", mk_service true [mk_port "127.0.0.1" 9000 9000])].

Definition caddy_admin_registry : Config :=
  mk_config [("caddy", mk_proxied [mk_port "0.0.0.0" 443 8443;
                                   mk_port "127.0.0.1" 2019 2019]);
             ("admin", mk_service true [mk_port "127.0.0.1" 9000 9000])].

(** The lines one resolved name adds to the routing document. *)
Definition caddy_lines (upper : string -> string)
    (items : list (string * Service)) (service_name : string)
  : list string :=
  match Dict.get items service_name with
  | Some service_config =>
      if default false (reverse_proxy service_config) then
        match ports_of service_config with
        | first_port :: _ =>
            caddy_block upper service_name service_config first_port
        | [] => []
        end
      else []
  | None => []
  end.

Fixpoint string_map (f : ascii -> ascii) (s : string) : string :=
  match s with
  | "" => ""
  | String c s' => String (f c) (string_map f s')
  end.

(** A character of a service name of ASCII characters, as it appears in the
    derived token: a dash becomes an underscore, a lower-case letter its
    capital. *)
Definition token_char (c : ascii) : ascii :=
  if bool_decide (c = "-"%char) then "_"%char else Py.ascii_upper_char c.

Definition proxied_registry : Config :=
  mk_config
    [("n8n",
      {| enabled := Some true; category := None;
         description := Some "Workflow automation";
         ports := Some [mk_port "127.0.0.1" 5678 5678]; profiles := None;
         reverse_proxy := Some true |});
     ("my-app", mk_proxied [mk_port "127.0.0.1" 3000 8080;
                            mk_port "127.0.0.1" 3001 8081]);
     ("redis", mk_service true [mk_port "127.0.0.1" 6379 6379])].

(** Induction on a JSON value, with the property at hand for every element
    of an array and every member of an object. *)
Section json_induction.
Variable P : json -> Prop.
Hypothesis Hnull : P JNull.
Hypothesis Hbool : forall b, P (JBool b).
Hypothesis Hint : forall n, P (JInt n).
Hypothesis Hfloat : forall literal, P (JFloat literal).
Hypothesis Hstring : forall s, P (JString s).
Hypothesis Harray : forall elements, Forall P elements -> P (JArray elements).
Hypothesis Hobject :
  forall members, Forall (fun kv => P kv.2) members -> P (JObject members).

Fixpoint json_nested_ind (j : json) : P j :=
  match j with
  | JNull => Hnull
  | JBool b => Hbool b
  | JInt n => Hint n
  | JFloat literal => Hfloat literal
  | JString s => Hstring s
  | JArray elements =>
      Harray elements
        ((fix go (l : list json) : Forall P l :=
            match l with
            | [] => @List.Forall_nil _ P
            | x :: l' =>
                @List.Forall_cons _ P x l' (json_nested_ind x) (go l')
            end) elements)
  | JObject members =>
      Hobject members
        ((fix go (l : list (string * json)) : Forall (fun kv => P kv.2) l :=
            match l with
            | [] => @List.Forall_nil _ (fun kv => P kv.2)
            | kv :: l' =>
                @List.Forall_cons _ (fun kv => P kv.2) kv l'
                  (json_nested_ind kv.2) (go l')
            end) members)
  end.
End json_induction.

(** A default host address after which a second pass finds nothing to do:
    it is not empty, has no [$], and its first character is not one of the
    placeholder. Every dotted IPv4 address is such. *)
Definition settled_default (value : string) : bool :=
  match value with
  | "" => false
  | String c _ =>
      negb (Py.has_char "$" value) && negb (Py.has_char c placeholder)
  end.

(** The reading of idempotence that asks only that the default host address
    does not contain the placeholder. *)
Definition substitution_idempotent_on (config : json) : Prop :=
  forall value once,
    resolved_default_host_ip config = Some (JString value) ->
    Py.occurs_in placeholder value = false ->
    _substitute_variables config = Some once ->
    _substitute_variables once = Some once.

(** What [substitute_recursive] does to one member of an object. *)
Definition substitute_member (default_host_ip : json) (kv : string * json)
  : option (string * json) :=
  value ← substitute_recursive default_host_ip kv.2;
  Some (kv.1, value).

Definition nested_placeholder_registry : json :=
  JObject
    [("global", JObject [("default_host_ip", JString "host")]);
     ("services",
      JObject [("web", JObject [("description",
                                 JString "${default_${default_host_ip}_ip}")])]);
     ("profiles", JObject [])].

Definition lan_registry : json :=
  JObject
    [("global", JObject [("project_name", JString "localai");
                         ("default_host_ip", JString "192.168.1.10")]);
     ("services",
      JObject
        [("n8n",
          JObject
            [("enabled", JBool true);
             ("description", JString "n8n on ${default_host_ip}:5678");
             ("ports",
              JArray [JObject [("host_ip", JString "${default_host_ip}");
                               ("host_port", JInt 5678);
                               ("container_port", JInt 5678)]])])]);
     ("profiles", JObject [])].

(** ** Definitions used to state further properties of the code *)

(** The [(host_ip, host_port)] pair of a binding. *)
Definition host_pair (pc : PortMapping) : string * Z :=
  (host_ip pc, host_port pc).

(** The service map without the services that are not enabled. *)
Definition drop_disabled (items : list (string * Service))
  : list (string * Service) :=
  List.filter (fun item => is_enabled item.2) items.

(** A binding as the private overlay prints it. *)
Definition private_binding (pc : PortMapping) : string :=
  host_ip pc +:+ ":" +:+ pretty (host_port pc) +:+ ":"
    +:+ pretty (container_port pc) +:+ "/" +:+ protocol_of pc.

(** [self.config['services'].get(service_name, {}).get('ports', [])] *)
Definition declared_ports (items : list (string * Service))
    (service_name : string) : list PortMapping :=
  match Dict.get items service_name with
  | Some service_config => ports_of service_config
  | None => []
  end.

(** The entry of a service in the private overlay, if it has one. *)
Definition private_entry (items : list (string * Service))
    (service_name : string) : option (list string) :=
  match declared_ports items service_name with
  | [] => None
  | ps => Some (map private_binding ps)
  end.

(** The port mappings of the resolved services, in the order of the list. *)
Definition overlay_bindings (items : list (string * Service))
    (services : list string) : list PortMapping :=
  flat_map (declared_ports items) services.

(** The lines of the overlay document. *)
Definition overlay_lines (override : list (string * list string))
  : list string :=
  "services:"
    :: flat_map (fun e => ("  " +:+ e.1 +:+ ":") :: "    ports:"
                            :: map (fun m => "      - " +:+ m) e.2) override.

(** The entries of the private overlay for a list of names. *)
Definition private_entries (items : list (string * Service))
    (services : list string) : list (string * list string) :=
  flat_map (fun name => match private_entry items name with
                        | Some mappings => [(name, mappings)]
                        | None => []
                        end) services.

(** Every character of a text passes a test. *)
Fixpoint string_forall (f : ascii -> bool) (s : string) : bool :=
  match s with
  | "" => true
  | String c s' => f c && string_forall f s'
  end.

(** [self.config['services'][service_name]['ports']]; [None] when one of
    the three keys is missing. *)
Definition ports_at (config : Config) (service_name : string)
  : option (list PortMapping) :=
  items ← cfg_services config;
  service_config ← Dict.get items service_name;
  ports service_config.

(** A character of ASCII. *)
Definition is_ascii_char (c : ascii) : bool := (nat_of_ascii c <? 128)%nat.

(** Neither a dash nor one of the letters [a]..[z]. *)
Definition token_safe_char (c : ascii) : bool :=
  let n := nat_of_ascii c in
  negb (bool_decide (c = "-"%char)) && negb ((97 <=? n)%nat && (n <=? 122)%nat).

(** A list of names without one name. *)
Definition without (name : string) (names : list string) : list string :=
  List.filter (fun n => bool_decide (n <> name)) names.

(** A JSON value with a function applied to its string values; the keys of
    objects are not values. *)
Fixpoint json_map_strings (f : string -> string) (j : json) : json :=
  match j with
  | JString s => JString (f s)
  | JArray elements => JArray (map (json_map_strings f) elements)
  | JObject members =>
      JObject (map (fun kv => (kv.1, json_map_strings f kv.2)) members)
  | _ => j
  end.

(** The string values of a JSON value, in document order. *)
Fixpoint json_strings (j : json) : list string :=
  match j with
  | JString s => [s]
  | JArray elements => flat_map json_strings elements
  | JObject members => flat_map (fun kv => json_strings kv.2) members
  | _ => []
  end.

(** A registry whose default host address is a number. *)
Definition numeric_default_registry : json :=
  JObject
    [("global", JObject [("default_host_ip", JInt 8080)]);
     ("services", JObject [("n8n", JObject [("enabled", JBool true)])])].

(** A registry without the placeholder, with an empty default host address. *)
Definition plain_registry : json :=
  JObject
    [("global", JObject [("default_host_ip", JString "")]);
     ("services",
      JObject [("n8n", JObject [("image", JString "n8n:$TAG")])])].

(** [service_config.get('category', 'other')] of an item of the service
    map. *)
Definition category_of (item : string * Service) : string :=
  default "other" (category item.2).

Definition in_category (c : string) (item : string * Service) : bool :=
  bool_decide (category_of item = c).

(** What one round of the grouping loop of [print_service_list] does to
    [categories]. *)
Definition group_add (categories : list (string * list (string * Service)))
    (item : string * Service) : list (string * list (string * Service)) :=
  Dict.set categories (category_of item)
    (default [] (Dict.get categories (category_of item)) ++ [item]).

(** The services in the order in which the two nested loops of
    [print_service_list] print and number them. *)
Definition menu_order (items : list (string * Service))
  : list (string * Service) :=
  flat_map snd (sorted_items (group_loop items [])).

(** The order of the categories: texts compared character by character. *)
Definition category_before (a b : string * Service) : Prop :=
  String.leb (category_of a) (category_of b) = true.

(** A run in which every action succeeds and every path exists. *)
Definition quiet_world : World :=
  {| succeeds := fun _ => true;
     path_exists := fun _ => true;
     os_sep := "/";
     platform_system := "Linux";
     openssl_output := "00ff";
     supabase := fun service_name => bool_decide (service_name = "db");
     str_upper := Py.ascii_upper |}.

(** A run in which [openssl] cannot be run. *)
Definition world_without_openssl : World :=
  {| succeeds := fun a => match a with CheckOutput _ => false | _ => true end;
     path_exists := fun _ => true;
     os_sep := "/";
     platform_system := "Linux";
     openssl_output := "";
     supabase := fun service_name => bool_decide (service_name = "db");
     str_upper := Py.ascii_upper |}.

Definition cpu_args : Args :=
  {| args_profile := "cpu"; args_environment := "private";
     args_no_supabase := false; args_dry_run := false;
     args_list_services := false |}.

Definition cpu_service (ps : list PortMapping) : Service :=
  {| enabled := Some true; category := None; description := None;
     ports := Some ps; profiles := Some ["cpu"]; reverse_proxy := None |}.

Definition cpu_registry : Config :=
  mk_config [("n8n", cpu_service [mk_port "127.0.0.1" 5678 5678]);
             ("db", cpu_service [mk_port "127.0.0.1" 5432 5432]);
             ("searxng", cpu_service [mk_port "127.0.0.1" 8080 8080])].

(** A command that brings containers up. *)
Definition starts_containers (a : action) : Prop :=
  exists cmd, a = Run cmd /\ ["up"; "-d"] `suffix_of` cmd.

(** The action [stop] has been attempted, with success, before any action of
    [trace] that brings containers up. *)
Definition stopped_first (w : World) (stop : action) (trace : list action)
  : Prop :=
  forall pre a post,
    trace = pre ++ a :: post -> starts_containers a ->
    stop ∈ pre /\ succeeds w stop = true.

(** The actions of [generate_searxng_secret_key]; each of them is attempted
    inside a [try]. *)
Definition searxng_actions (w : World) : list action :=
  [CopyFile (path_join w ["searxng"; "settings-base.yml"])
            (path_join w ["searxng"; "settings.yml"]);
   Run ps_command;
   CheckOutput openssl_cmd;
   Run (sed_cmd (platform_system w) (openssl_output w)
          (path_join w ["searxng"; "settings.yml"]))].

(** Every action of [trace] succeeded, those in [caught] apart; [time.sleep]
    does not fail. *)
Definition succeeded_but (w : World) (caught : list action)
    (trace : list action) : Prop :=
  forall a, a ∈ trace ->
    succeeds w a = true \/ a ∈ caught \/ exists seconds, a = Sleep seconds.

(** * Properties *)

(** ** Profile resolution *)

Lemma enabled_loop_filter config profile items acc :
  enabled_loop config profile items acc
  = acc ++ (List.filter (selects config profile) items).*1.
Proof.
  revert acc. induction items as [|[name sc] rest IH]; intros acc; simpl.
  - by rewrite app_nil_r.
  - unfold selects at 1; simpl.
    destruct (is_enabled sc); simpl; [|apply IH].
    destruct (profile_filters profile); simpl.
    + destruct (bool_decide _ || bool_decide _); simpl; rewrite IH; [|done].
      by rewrite <- app_assoc.
    + rewrite IH. by rewrite <- app_assoc.
Qed.

Lemma get_enabled_services_filter config profile items :
  cfg_services config = Some items ->
  get_enabled_services config profile
  = Some (List.filter (selects config profile) items).*1.
Proof.
  intros Hitems. unfold get_enabled_services. rewrite Hitems. simpl.
  by rewrite enabled_loop_filter.
Qed.

(** C6. Resolving the sentinel ["all"] returns exactly the names of the
    services whose [enabled] flag is true, whatever their profile membership,
    in the insertion order of the service map; a disabled service, or one
    without the flag, never appears. *)
Theorem all_returns_enabled_in_order (config : Config)
    (items : list (string * Service)) :
  cfg_services config = Some items ->
  get_enabled_services config (Some "all")
  = Some (List.filter (fun item => is_enabled item.2) items).*1.
Proof.
  intros Hitems. rewrite (get_enabled_services_filter _ _ _ Hitems).
  do 2 f_equal. apply filter_ext. intros [name sc]. unfold selects. simpl.
  by rewrite andb_true_r.
Qed.

Lemma all_returns_enabled_in_order_witness :
  get_enabled_services three_on_two_off (Some "all")
  = Some ["n8n"; "flowise"; "caddy"].
Proof.
  exact (all_returns_enabled_in_order three_on_two_off _ eq_refl).
Defined.

(** C3. For a profile name other than ["all"], an enabled service is in the
    resolved list as soon as one of the two signals holds: the service lists
    the profile among its own profiles, or the profile's [included_services]
    names the service. *)
Theorem profile_resolution_is_union (config : Config)
    (items : list (string * Service)) (profile service_name : string)
    (service_config : Service) :
  cfg_services config = Some items ->
  (service_name, service_config) ∈ items ->
  is_enabled service_config = true ->
  profile <> "all" ->
  profile ∈ default [] (profiles service_config)
    \/ service_name ∈ profile_services config profile ->
  exists resolved,
    get_enabled_services config (Some profile) = Some resolved
    /\ service_name ∈ resolved.
Proof.
  intros Hitems Hin Hon _ Hsignal.
  eexists. split; [by apply get_enabled_services_filter|].
  apply (list_elem_of_fmap_2 fst _ (service_name, service_config)).
  apply list_elem_of_In, filter_In. split; [by apply list_elem_of_In|].
  unfold selects. simpl. rewrite Hon. simpl.
  destruct Hsignal as [H|H].
  - rewrite (bool_decide_eq_true_2 _ H). by rewrite orb_true_r.
  - rewrite (bool_decide_eq_true_2 _ H). by rewrite orb_true_r.
Qed.

Lemma profile_resolution_is_union_witness :
  (exists resolved,
     get_enabled_services gpu_registry (Some "gpu") = Some resolved
     /\ "ollama-gpu" ∈ resolved)
  /\ (exists resolved,
        get_enabled_services gpu_registry (Some "gpu") = Some resolved
        /\ "open-webui" ∈ resolved).
Proof.
  split.
  - eapply (profile_resolution_is_union gpu_registry _ "gpu" "ollama-gpu");
      [reflexivity | apply list_elem_of_here | reflexivity | discriminate |].
    left. simpl. apply list_elem_of_here.
  - eapply (profile_resolution_is_union gpu_registry _ "gpu" "open-webui");
      [reflexivity | apply list_elem_of_further, list_elem_of_here
      | reflexivity | discriminate |].
    right. vm_compute. apply list_elem_of_here.
Defined.

(** ** Dictionaries and strings *)

Lemma dict_get_set {V} (d : list (string * V)) k v k' :
  Dict.get (Dict.set d k v) k'
  = if decide (k = k') then Some v else Dict.get d k'.
Proof.
  induction d as [|[k0 v0] d IH]; simpl.
  - done.
  - destruct (decide (k0 = k)) as [->|Hne]; simpl.
    + by destruct (decide (k = k')).
    + rewrite IH. destruct (decide (k0 = k')) as [->|?]; [|done].
      by destruct (decide (k = k')).
Qed.

Lemma dict_get_elem_of {V} (d : list (string * V)) k v :
  Dict.get d k = Some v -> (k, v) ∈ d.
Proof.
  induction d as [|[k0 v0] d IH]; simpl; [done|].
  destruct (decide (k0 = k)) as [->|?].
  - intros [= ->]. apply list_elem_of_here.
  - intros H. apply list_elem_of_further. auto.
Qed.

Lemma has_char_app c s t :
  Py.has_char c (s +:+ t) = Py.has_char c s || Py.has_char c t.
Proof.
  induction s as [|a s IH]; simpl; [done|]. by rewrite IH, orb_assoc.
Qed.

Lemma pretty_N_go_has_colon x s :
  Py.has_char ":" (pretty_N_go x s) = Py.has_char ":" s.
Proof.
  revert s. induction (N.lt_wf_0 x) as [x _ IH]. intros s.
  destruct (decide (0 < x)%N) as [Hpos|Hzero].
  - rewrite pretty_N_go_step by done.
    rewrite IH by (by apply N.div_lt). simpl.
    unfold pretty_N_char. by repeat case_match.
  - assert (x = 0%N) as -> by lia. by rewrite pretty_N_go_0.
Qed.

Lemma pretty_Z_no_colon (z : Z) : Py.has_char ":" (pretty z) = false.
Proof.
  assert (forall p : positive, Py.has_char ":" (pretty p) = false) as Hpos.
  { intros p. unfold pretty, pretty_positive, pretty, pretty_N.
    case_decide; [done|]. by rewrite pretty_N_go_has_colon. }
  destruct z as [|p|p]; unfold pretty, pretty_Z; [done|apply Hpos|].
  rewrite has_char_app, Hpos. done.
Qed.

Lemma string_app_nil_l (s : string) : "" +:+ s = s.
Proof. reflexivity. Qed.

Lemma string_app_cons (c : ascii) (s t : string) :
  String c s +:+ t = String c (s +:+ t).
Proof. reflexivity. Qed.

Lemma string_app_assoc (s t u : string) : (s +:+ t) +:+ u = s +:+ t +:+ u.
Proof.
  induction s as [|c s IH]; [done|]. by rewrite !string_app_cons, IH.
Qed.

Lemma string_app_nil_r (s : string) : s +:+ "" = s.
Proof. induction s as [|c s IH]; [done|]. by rewrite string_app_cons, IH. Qed.

(** A text [a:d] whose part [d] has no colon splits in one way only. *)
Lemma colon_split_unique (a b d e : string) :
  Py.has_char ":" d = false -> Py.has_char ":" e = false ->
  a +:+ String ":" d = b +:+ String ":" e -> a = b /\ d = e.
Proof.
  intros Hd He. revert b.
  induction a as [|x a IH]; intros [|y b];
    rewrite ?string_app_nil_l, ?string_app_cons; intros Heq.
  - by simplify_eq.
  - injection Heq as _ Heq. subst d.
    rewrite has_char_app in Hd. simpl in Hd. by rewrite orb_true_r in Hd.
  - injection Heq as _ Heq. subst e.
    rewrite has_char_app in He. simpl in He. by rewrite orb_true_r in He.
  - injection Heq as -> Heq. destruct (IH b Heq) as [-> ->]; done.
Qed.

Lemma port_key_same_pair (p q : PortMapping) :
  port_key p = port_key q <-> same_host_pair p q.
Proof.
  unfold port_key, same_host_pair. split.
  - intros Heq.
    change (host_ip p +:+ String ":" (pretty (host_port p))
            = host_ip q +:+ String ":" (pretty (host_port q))) in Heq.
    apply colon_split_unique in Heq as [Hip Hport];
      [|apply pretty_Z_no_colon..].
    split; [done|]. by apply (inj pretty).
  - intros [-> ->]. done.
Qed.

(** ** Validation: the conflict scan *)

Lemma scan_ports_bindings name ps used :
  scan_ports name ps used = scan_bindings (map (pair name) ps) used.
Proof.
  revert used. induction ps as [|pc ps IH]; intros used; simpl; [done|].
  destruct (Dict.get used (port_key pc)); [done|]. apply IH.
Qed.

Lemma scan_bindings_app b1 b2 used :
  scan_bindings (b1 ++ b2) used
  = match scan_bindings b1 used with
    | inl conflict => inl conflict
    | inr used' => scan_bindings b2 used'
    end.
Proof.
  revert used. induction b1 as [|[name pc] b1 IH]; intros used; simpl; [done|].
  destruct (Dict.get used (port_key pc)); [done|]. apply IH.
Qed.

Lemma scan_services_bindings items used :
  scan_services items used = scan_bindings (enabled_bindings items) used.
Proof.
  revert used. induction items as [|[name sc] rest IH]; intros used; simpl;
    [done|].
  destruct (is_enabled sc); simpl; [|apply IH].
  rewrite scan_bindings_app, scan_ports_bindings.
  destruct (scan_bindings _ used); [done|]. apply IH.
Qed.

(** A reported conflict: the second owner declares the key at some place,
    and the first owner is who held the key before, or who declared it at an
    earlier place. *)
Lemma scan_bindings_conflict bs used k a b :
  scan_bindings bs used = inl (k, a, b) ->
  exists (j : nat) q,
    bs !! j = Some (b, q) /\ k = port_key q
    /\ (Dict.get used k = Some a
        \/ exists (i : nat) p,
             (i < j)%nat /\ bs !! i = Some (a, p) /\ port_key p = k).
Proof.
  revert used. induction bs as [|[name pc] bs IH]; intros used; simpl; [done|].
  destruct (Dict.get used (port_key pc)) as [owner|] eqn:Hget.
  - intros [= <- <- <-]. exists 0%nat, pc. auto.
  - intros Hscan. destruct (IH _ Hscan) as (j & q & Hj & -> & Hfirst).
    exists (S j), q. split; [done|]. split; [done|].
    destruct Hfirst as [Hused|(i & p & Hlt & Hi & Hkey)].
    + rewrite dict_get_set in Hused.
      destruct (decide (port_key pc = port_key q)) as [Heq|_]; [|by left].
      injection Hused as <-. right. exists 0%nat, pc. split; [lia|done].
    + right. exists (S i), p. split; [lia|done].
Qed.

(** A scan that ends without conflict met every key once, and none of them
    was held before. *)
Lemma scan_bindings_clean bs used used' :
  scan_bindings bs used = inr used' ->
  (forall (j : nat) b q,
     bs !! j = Some (b, q) -> Dict.get used (port_key q) = None)
  /\ (forall (i j : nat) a p b q,
        (i < j)%nat -> bs !! i = Some (a, p) -> bs !! j = Some (b, q) ->
        port_key p <> port_key q).
Proof.
  revert used. induction bs as [|[name pc] bs IH]; intros used; simpl.
  - intros _. split; intros; simplify_list_eq.
  - destruct (Dict.get used (port_key pc)) as [owner|] eqn:Hget; [done|].
    intros Hscan. destruct (IH _ Hscan) as [Hfree Hdistinct].
    assert (forall (j : nat) b q, bs !! j = Some (b, q) ->
              port_key pc <> port_key q /\ Dict.get used (port_key q) = None)
      as Hfree'.
    { intros j b q Hj. specialize (Hfree j b q Hj).
      rewrite dict_get_set in Hfree. by case_decide. }
    split.
    + intros [|j] b q Hj; simpl in Hj.
      * by injection Hj as <- <-.
      * by apply (Hfree' j b q).
    + intros [|i] [|j] a p b q Hlt Hi Hj; simpl in Hi, Hj; try lia.
      * injection Hi as <- <-. by apply (Hfree' j b q).
      * apply (Hdistinct i j a p b q); [lia|done..].
Qed.

(** The scan from an empty dictionary reports a conflict exactly when two
    of the bindings it visits collide, and it names the owner of the earlier
    one, the owner of the later one, and their key. *)
Lemma scan_bindings_reports bs k a b :
  scan_bindings bs [] = inl (k, a, b) ->
  exists p q, collide_at bs a p b q /\ k = port_key q.
Proof.
  intros Hscan.
  destruct (scan_bindings_conflict _ _ _ _ _ Hscan)
    as (j & q & Hj & -> & [Hused|(i & p & Hlt & Hi & Hkey)]); [done|].
  exists p, q. split; [|done]. exists i, j.
  by rewrite <- port_key_same_pair.
Qed.

Lemma scan_bindings_detects bs a p b q :
  collide_at bs a p b q ->
  exists k a' b', scan_bindings bs [] = inl (k, a', b').
Proof.
  intros (i & j & Hlt & Hi & Hj & Hsame).
  destruct (scan_bindings bs []) as [[[k a'] b']|used'] eqn:Hscan; [by eauto|].
  destruct (scan_bindings_clean _ _ _ Hscan) as [_ Hdistinct].
  destruct (Hdistinct i j a p b q Hlt Hi Hj). by apply port_key_same_pair.
Qed.

Lemma validate_config_scan config items :
  has_sections config -> cfg_services config = Some items ->
  validate_config config
  = match scan_bindings (enabled_bindings items) [] with
    | inl (key, a, b) => PortConflict key a b
    | inr _ => ValidationPassed
    end.
Proof.
  intros ([g Hg] & _ & [pr Hpr]) Hitems. unfold validate_config.
  by rewrite Hg, Hitems, Hpr, scan_services_bindings.
Qed.

Lemma elem_of_enabled_bindings items a p :
  (a, p) ∈ enabled_bindings items
  <-> exists sc, (a, sc) ∈ items /\ is_enabled sc = true /\ p ∈ ports_of sc.
Proof.
  unfold enabled_bindings. rewrite list_elem_of_In, in_flat_map. split.
  - intros ([name sc] & Hin & Hbind). simpl in Hbind.
    destruct (is_enabled sc) eqn:Hon; [|done].
    apply list_elem_of_In, list_elem_of_fmap in Hbind as (p' & [= -> ->] & Hp).
    exists sc. by rewrite list_elem_of_In.
  - intros (sc & Hin & Hon & Hp). exists (a, sc).
    split; [by apply list_elem_of_In|]. simpl. rewrite Hon.
    apply list_elem_of_In. by apply list_elem_of_fmap_2.
Qed.


Lemma validate_config_reports_and_detects (config : Config)
    (items : list (string * Service)) :
  has_sections config ->
  cfg_services config = Some items ->
  (forall k a b,
     validate_config config = PortConflict k a b ->
     exists p q,
       collide_at (enabled_bindings items) a p b q
       /\ k = host_ip q +:+ ":" +:+ pretty (host_port q))
  /\ (forall a p b q,
        collide_at (enabled_bindings items) a p b q ->
        exists k a' b', validate_config config = PortConflict k a' b').
Proof.
  intros Hsec Hitems. rewrite (validate_config_scan _ _ Hsec Hitems). split.
  - intros k a b Hv.
    destruct (scan_bindings _ []) as [[[k' a'] b']|] eqn:Hscan; [|done].
    injection Hv as -> -> ->. by apply scan_bindings_reports.
  - intros a p b q Hcol.
    destruct (scan_bindings_detects _ _ _ _ _ Hcol) as (k & a' & b' & ->).
    eauto.
Qed.

(** C1, as the code has it. In a registry with its three sections,
    validation fails with a port conflict exactly when two port mappings
    declared by enabled services, at different places of the scan, have the
    same [(host_ip, host_port)] pair; the two mappings may belong to two
    services or to one. The report names the owner of the earlier mapping,
    the owner of the later one, and the pair as [host_ip:host_port]. Every
    mapping the scan visits belongs to an enabled service, so those of
    disabled services take no part. *)
Theorem port_conflict_iff_bindings_collide (config : Config)
    (items : list (string * Service)) :
  has_sections config ->
  cfg_services config = Some items ->
  (forall k a b,
     validate_config config = PortConflict k a b ->
     exists p q,
       collide_at (enabled_bindings items) a p b q
       /\ k = host_ip q +:+ ":" +:+ pretty (host_port q))
  /\ (forall a p b q,
        collide_at (enabled_bindings items) a p b q ->
        exists k a' b', validate_config config = PortConflict k a' b')
  /\ (forall a p,
        (a, p) ∈ enabled_bindings items ->
        exists sc, (a, sc) ∈ items /\ is_enabled sc = true /\ p ∈ ports_of sc).
Proof.
  intros Hsec Hitems.
  destruct (validate_config_reports_and_detects config items Hsec Hitems)
    as [Hreport Hdetect].
  split; [done|]. split; [done|].
  intros a p. by rewrite elem_of_enabled_bindings.
Qed.

Lemma port_conflict_iff_bindings_collide_witness :
  validate_config registry_a_b = PortConflict "127.0.0.1:8000" "a" "b"
  /\ exists p q,
       collide_at (enabled_bindings
                     [("a", mk_service true [mk_port "127.0.0.1" 8000 80]);
                      ("b", mk_service true [mk_port "127.0.0.1" 8000 81])])
                  "a" p "b" q
       /\ "127.0.0.1:8000" = host_ip q +:+ ":" +:+ pretty (host_port q).
Proof.
  split; [vm_compute; reflexivity|].
  refine (proj1 (port_conflict_iff_bindings_collide registry_a_b _ _ eq_refl)
            "127.0.0.1:8000" "a" "b" _).
  - unfold has_sections. simpl. eauto.
  - vm_compute. reflexivity.
Defined.

(** C1 as stated fails: one enabled service with two mappings on the same
    pair makes validation fail with a port conflict, although no two
    services share a pair. *)
Lemma one_service_conflict_without_two_services :
  ~ conflict_iff_two_services_share registry_one_service.
Proof.
  intros [Hfails _].
  destruct Hfails as (a & sa & b & sb & p & q & Hne & Ha & Hb & _).
  - exists "127.0.0.1:8000", "a", "a". vm_compute. reflexivity.
  - simpl in Ha, Hb.
    apply list_elem_of_singleton in Ha. apply list_elem_of_singleton in Hb.
    congruence.
Qed.




Example validate_a_b_report :
  validation_result (validate_config registry_a_b) = false
  /\ validation_message (validate_config registry_a_b)
     = "Error: Port conflict! 127.0.0.1:8000 is used by both a and b".
Proof. split; vm_compute; reflexivity. Qed.

Example validate_one_service_report :
  validation_message (validate_config registry_one_service)
  = "Error: Port conflict! 127.0.0.1:8000 is used by both a and a".
Proof. vm_compute. reflexivity. Qed.

(** ** The editor's conflict check *)

Lemma conflict_loop_true items current ip port :
  conflict_loop items current ip port = true
  <-> exists name sc pc,
        (name, sc) ∈ items /\ name <> current /\ is_enabled sc = true
        /\ pc ∈ ports_of sc /\ host_ip pc = ip /\ host_port pc = port.
Proof.
  induction items as [|[name sc] rest IH]; simpl.
  - split; [done|]. intros (? & ? & ? & Hin & _). by apply elem_of_nil in Hin.
  - destruct (bool_decide (name = current) || negb (is_enabled sc)) eqn:Hskip.
    + rewrite IH. split.
      * intros (n & s & pc & Hin & H). exists n, s, pc.
        split; [by apply list_elem_of_further|done].
      * intros (n & s & pc & Hin & Hne & Hon & H).
        apply elem_of_cons in Hin as [[= -> ->]|Hin]; [|by eauto 10].
        apply orb_true_iff in Hskip as [Hskip|Hskip].
        -- by apply bool_decide_eq_true in Hskip.
        -- by rewrite Hon in Hskip.
    + apply orb_false_iff in Hskip as [Hname Hon].
      apply bool_decide_eq_false in Hname. apply negb_false_iff in Hon.
      destruct (existsb _ (ports_of sc)) eqn:Hex.
      * split; [intros _|done].
        apply existsb_exists in Hex as (pc & Hpc & Hmatch).
        apply andb_true_iff in Hmatch as [Hip Hport].
        apply bool_decide_eq_true in Hip, Hport.
        exists name, sc, pc. split; [apply list_elem_of_here|].
        by rewrite list_elem_of_In.
      * rewrite IH. split.
        -- intros (n & s & pc & Hin & H). exists n, s, pc.
           split; [by apply list_elem_of_further|done].
        -- intros (n & s & pc & Hin & Hne & Hon' & Hpc & Hip & Hport).
           apply elem_of_cons in Hin as [[= -> ->]|Hin]; [|by eauto 10].
           assert (existsb
                     (fun port_config =>
                        bool_decide (host_ip port_config = ip)
                        && bool_decide (host_port port_config = port))
                     (ports_of sc) = true) as Htrue; [|congruence].
           apply existsb_exists. exists pc. rewrite <- list_elem_of_In.
           split; [done|]. by rewrite !bool_decide_eq_true_2.
Qed.

(** The check reads only the services other than [current]. *)
Lemma conflict_loop_set items current sc ip port :
  conflict_loop (Dict.set items current sc) current ip port
  = conflict_loop items current ip port.
Proof.
  induction items as [|[name sc0] rest IH]; simpl.
  - by rewrite bool_decide_eq_true_2.
  - destruct (decide (name = current)) as [->|Hne]; simpl.
    + by rewrite !bool_decide_eq_true_2.
    + by rewrite IH.
Qed.

(** ** The editor: storing into the registry *)

Lemma dict_set_get_id {V} (d : list (string * V)) k v :
  Dict.get d k = Some v -> Dict.set d k v = d.
Proof.
  induction d as [|[k0 v0] d IH]; simpl; [done|].
  destruct (decide (k0 = k)) as [->|?].
  - by intros [= ->].
  - intros H. by rewrite IH.
Qed.

Lemma dict_set_set {V} (d : list (string * V)) k v v' :
  Dict.set (Dict.set d k v) k v' = Dict.set d k v'.
Proof.
  induction d as [|[k0 v0] d IH]; simpl.
  - by rewrite decide_True.
  - destruct (decide (k0 = k)) as [->|?]; simpl.
    + by rewrite decide_True.
    + by rewrite decide_False, IH.
Qed.

Lemma dict_set_keys {V} (d : list (string * V)) k v :
  is_Some (Dict.get d k) -> (Dict.set d k v).*1 = d.*1.
Proof.
  induction d as [|[k0 v0] d IH]; [by intros [? ?]|].
  simpl Dict.get. simpl Dict.set.
  destruct (decide (k0 = k)) as [->|?]; [done|].
  intros H. rewrite !fmap_cons. f_equal. by apply IH.
Qed.

Lemma set_services_id config items :
  cfg_services config = Some items -> set_services items config = config.
Proof. destruct config. simpl. by intros ->. Qed.

Lemma set_ports_id sc ps : ports sc = Some ps -> set_ports ps sc = sc.
Proof. destruct sc. simpl. by intros ->. Qed.

Lemma set_host_ip_id pc : set_host_ip (host_ip pc) pc = pc.
Proof. by destruct pc. Qed.

Section store.
Variables (config : Config) (items : list (string * Service)).
Variables (service_name : string) (sc : Service).
Variables (ps : list PortMapping) (port_index : nat) (pc : PortMapping).
Hypothesis Hitems : cfg_services config = Some items.
Hypothesis Hsc : Dict.get items service_name = Some sc.
Hypothesis Hps : ports sc = Some ps.
Hypothesis Hpc : ps !! port_index = Some pc.

Lemma store_port_eq pc' :
  store_port config service_name port_index pc'
  = set_services
      (Dict.set items service_name (set_ports (<[port_index := pc']> ps) sc))
      config.
Proof. unfold store_port. by rewrite Hitems, Hsc, Hps. Qed.

Lemma store_port_id : store_port config service_name port_index pc = config.
Proof.
  rewrite store_port_eq, list_insert_id by done.
  rewrite set_ports_id, dict_set_get_id by done.
  by apply set_services_id.
Qed.

Lemma store_port_twice pc1 pc2 :
  store_port (store_port config service_name port_index pc1)
    service_name port_index pc2
  = store_port config service_name port_index pc2.
Proof.
  rewrite (store_port_eq pc1), (store_port_eq pc2).
  unfold store_port. simpl. rewrite dict_get_set, decide_True by done.
  simpl. by rewrite list_insert_insert_eq, dict_set_set.
Qed.

Lemma store_port_conflict_loop pc' ip port :
  check_port_conflict (store_port config service_name port_index pc')
    service_name ip port
  = Some (conflict_loop items service_name ip port).
Proof.
  rewrite store_port_eq. unfold check_port_conflict. simpl.
  by rewrite conflict_loop_set.
Qed.

(** [edit_single_port], prompt by prompt. *)
Lemma edit_single_port_eq new_ip new_port_str :
  let pc1 := set_host_ip (edited_ip new_ip pc) pc in
  let config1 := store_port config service_name port_index pc1 in
  edit_single_port config service_name port_index new_ip new_port_str
  = if bool_decide (new_port_str = "") then Some (config1, PortKept)
    else
      match Py.int new_port_str with
      | None => Some (config1, PortNotNumeric)
      | Some n =>
          if ((1 <=? n) && (n <=? 65535))%Z then
            if bool_decide (n <> host_port pc) then
              if conflict_loop items service_name (edited_ip new_ip pc) n
              then Some (config1, PortConflictFound)
              else Some (store_port config service_name port_index
                           (set_host_port n pc1), PortUpdated)
            else Some (config1, PortKept)
          else Some (config1, PortOutOfRange)
      end.
Proof.
  intros pc1 config1. unfold edit_single_port.
  rewrite Hitems. simpl. rewrite Hsc. simpl. rewrite Hps. simpl.
  rewrite Hpc. simpl.
  assert ((if bool_decide (new_ip <> "")
              && bool_decide (new_ip <> host_ip pc)
           then set_host_ip new_ip pc else pc) = pc1) as Hpc1.
  { unfold pc1, edited_ip.
    destruct (decide (new_ip = "")) as [->|Hne].
    - rewrite bool_decide_eq_false_2 by naive_solver. simpl.
      by rewrite set_host_ip_id.
    - rewrite (bool_decide_eq_true_2 (new_ip <> "")) by done.
      rewrite (bool_decide_eq_false_2 (new_ip = "")) by done. simpl.
      case_bool_decide as Hsame; [done|].
      assert (new_ip = host_ip pc) as -> by (by destruct (decide (new_ip = host_ip pc))).
      by rewrite set_host_ip_id. }
  assert ((if bool_decide (new_ip <> "")
              && bool_decide (new_ip <> host_ip pc)
           then store_port config service_name port_index
                  (if bool_decide (new_ip <> "")
                      && bool_decide (new_ip <> host_ip pc)
                   then set_host_ip new_ip pc else pc)
           else config) = config1) as Hconfig1.
  { rewrite Hpc1. destruct (_ && _) eqn:Hchg; [done|].
    unfold config1. rewrite <- Hpc1. by rewrite store_port_id. }
  rewrite Hconfig1, Hpc1. clear Hconfig1 Hpc1.
  destruct (bool_decide (new_port_str = "")); [done|].
  destruct (Py.int new_port_str) as [n|]; [|done].
  destruct ((1 <=? n) && (n <=? 65535))%Z; [|done].
  replace (host_port pc1) with (host_port pc) by done.
  destruct (bool_decide (n <> host_port pc)); [|done].
  unfold config1. rewrite store_port_conflict_loop. simpl.
  destruct (conflict_loop _ _ _ _); [done|].
  by rewrite store_port_twice.
Qed.
End store.

Lemma py_int_nonempty s n : Py.int s = Some n -> s <> "".
Proof. intros H ->. discriminate H. Qed.

Lemma in_range_true n : 1 <= n <= 65535 -> ((1 <=? n) && (n <=? 65535))%Z = true.
Proof. intros. apply andb_true_iff. split; apply Z.leb_le; lia. Qed.

Lemma in_range_false n :
  n < 1 \/ 65535 < n -> ((1 <=? n) && (n <=? 65535))%Z = false.
Proof. intros. apply andb_false_iff. rewrite !Z.leb_gt. lia. Qed.

(** C9. [check_port_conflict] answers true exactly when a service other
    than the current one, enabled, declares the pair [(ip, port)]; the
    service being edited and the disabled services are not looked at. So a
    single-port edit accepts every host port from 1 to 65535, other than the
    one the binding has, that no other enabled service declares on the
    binding's address, even one that a disabled service or the edited
    service itself declares there. *)
Theorem check_port_conflict_other_enabled (config : Config)
    (items : list (string * Service)) (current ip : string) (port : Z) :
  cfg_services config = Some items ->
  (check_port_conflict config current ip port = Some true
   <-> other_enabled_declares items current ip port)
  /\ (check_port_conflict config current ip port = Some false
      <-> ~ other_enabled_declares items current ip port)
  /\ (forall sc ps port_index pc new_ip new_port_str,
        Dict.get items current = Some sc ->
        ports sc = Some ps ->
        ps !! port_index = Some pc ->
        Py.int new_port_str = Some port ->
        1 <= port <= 65535 ->
        port <> host_port pc ->
        ~ other_enabled_declares items current (edited_ip new_ip pc) port ->
        edit_single_port config current port_index new_ip new_port_str
        = Some (store_port config current port_index
                  (set_host_port port (set_host_ip (edited_ip new_ip pc) pc)),
                PortUpdated)).
Proof.
  intros Hitems.
  assert (forall ip' port',
            conflict_loop items current ip' port' = true
            <-> other_enabled_declares items current ip' port') as Hloop.
  { intros. apply conflict_loop_true. }
  unfold check_port_conflict. rewrite Hitems. simpl.
  split; [|split].
  - split.
    + intros [= Hc]. by apply Hloop.
    + intros Hd. f_equal. by apply Hloop.
  - destruct (conflict_loop items current ip port) eqn:Hc.
    + split; [done|]. intros Hn. destruct Hn. by apply Hloop.
    + split; [|done]. intros _ Hd. apply Hloop in Hd. congruence.
  - intros sc ps port_index pc new_ip new_port_str Hsc Hps Hpc Hint Hrange Hne Hfree.
    rewrite (edit_single_port_eq config items current sc ps port_index pc)
      by done.
    rewrite bool_decide_eq_false_2 by (by eapply py_int_nonempty).
    rewrite Hint, in_range_true, bool_decide_eq_true_2 by done.
    destruct (conflict_loop items current (edited_ip new_ip pc) port) eqn:Hc;
      [|done].
    by apply Hloop in Hc.
Qed.

Lemma check_port_conflict_other_enabled_witness :
  check_port_conflict editor_registry "a" "127.0.0.1" 9000 = Some false
  /\ edit_single_port editor_registry "a" 0 "" "9000"
     = Some (mk_config
               [("a", mk_service true [mk_port "127.0.0.1" 9000 80;
                                       mk_port "127.0.0.1" 9000 90]);
                ("b", mk_service false [mk_port "127.0.0.1" 9000 81]);
                ("c", mk_service true [mk_port "127.0.0.1" 7000 70])],
             PortUpdated).
Proof.
  pose proof (check_port_conflict_other_enabled editor_registry _
                "a" "127.0.0.1" 9000 eq_refl) as (_ & Hfalse & Hedit).
  assert (~ other_enabled_declares
              [("a", mk_service true [mk_port "127.0.0.1" 8000 80;
                                      mk_port "127.0.0.1" 9000 90]);
               ("b", mk_service false [mk_port "127.0.0.1" 9000 81]);
               ("c", mk_service true [mk_port "127.0.0.1" 7000 70])]
              "a" "127.0.0.1" 9000) as Hfree.
  { apply Hfalse. reflexivity. }
  split; [by apply Hfalse|].
  refine (Hedit _ _ 0%nat (mk_port "127.0.0.1" 8000 80) "" "9000"
            eq_refl eq_refl eq_refl eq_refl _ _ Hfree).
  - lia.
  - discriminate.
Defined.

(** C5, as the code has it. A refused host-port answer (not a number, out
    of range, or taken by another enabled service on the binding's address)
    leaves the host port of the binding, and everything else in the registry
    but the host address of that binding, as before the edit began. The host
    address is whatever the host-IP prompt made it: the answer given there
    if it was not empty, kept by the registry although the port was refused;
    with an empty answer, or the address the binding already had, the
    registry is exactly the one before the edit. *)
Theorem refused_port_keeps_ip_edit (config : Config)
    (items : list (string * Service)) (service_name : string) (sc : Service)
    (ps : list PortMapping) (port_index : nat) (pc : PortMapping)
    (new_ip new_port_str : string) :
  cfg_services config = Some items ->
  Dict.get items service_name = Some sc ->
  ports sc = Some ps ->
  ps !! port_index = Some pc ->
  invalid_port_answer items service_name (edited_ip new_ip pc) new_port_str ->
  exists answer,
    edit_single_port config service_name port_index new_ip new_port_str
    = Some (store_port config service_name port_index
              (set_host_ip (edited_ip new_ip pc) pc), answer)
    /\ answer <> PortUpdated
    /\ host_port_at
         (store_port config service_name port_index
            (set_host_ip (edited_ip new_ip pc) pc)) service_name port_index
       = Some (host_port pc)
    /\ (edited_ip new_ip pc = host_ip pc ->
        store_port config service_name port_index
          (set_host_ip (edited_ip new_ip pc) pc) = config).
Proof.
  intros Hitems Hsc Hps Hpc [Hnonempty Hbad].
  rewrite (edit_single_port_eq config items service_name sc ps port_index pc)
    by done.
  rewrite bool_decide_eq_false_2 by done.
  assert (host_port_at
            (store_port config service_name port_index
               (set_host_ip (edited_ip new_ip pc) pc)) service_name port_index
          = Some (host_port pc)) as Hport.
  { rewrite (store_port_eq config items service_name sc ps) by done.
    unfold host_port_at. simpl. rewrite dict_get_set, decide_True by done.
    simpl. rewrite list_lookup_insert_eq by (by eapply lookup_lt_Some). done. }
  assert (edited_ip new_ip pc = host_ip pc ->
          store_port config service_name port_index
            (set_host_ip (edited_ip new_ip pc) pc) = config) as Hsame.
  { intros ->. rewrite set_host_ip_id. by eapply store_port_id. }
  destruct Hbad as [->|(n & -> & Hn)]; [by eexists|].
  destruct (decide (n < 1 \/ 65535 < n)) as [Hout|Hin].
  { rewrite in_range_false by done. by eexists. }
  rewrite in_range_true by lia.
  destruct (bool_decide (n <> host_port pc)); [|by eexists].
  destruct Hn as [?|[?|Htaken]]; [lia..|].
  apply conflict_loop_true in Htaken. rewrite Htaken. by eexists.
Qed.

Lemma refused_port_keeps_ip_edit_witness :
  exists answer,
    edit_single_port editor_registry "a" 0 "0.0.0.0" "abc"
    = Some (store_port editor_registry "a" 0
              (set_host_ip "0.0.0.0" (mk_port "127.0.0.1" 8000 80)), answer)
    /\ answer <> PortUpdated
    /\ host_port_at
         (store_port editor_registry "a" 0
            (set_host_ip "0.0.0.0" (mk_port "127.0.0.1" 8000 80))) "a" 0
       = Some 8000
    /\ ("0.0.0.0" = "127.0.0.1" ->
        store_port editor_registry "a" 0
          (set_host_ip "0.0.0.0" (mk_port "127.0.0.1" 8000 80))
        = editor_registry).
Proof.
  refine (refused_port_keeps_ip_edit editor_registry _ "a" _ _ 0%nat
            (mk_port "127.0.0.1" 8000 80) "0.0.0.0" "abc"
            eq_refl eq_refl eq_refl eq_refl _).
  split; [discriminate|]. left. reflexivity.
Defined.

(** C5 as stated fails: with the host-IP answer [0.0.0.0] and the host-port
    answer [abc], the port is refused as not numeric, and the registry keeps
    the new host address. *)
Lemma refused_edit_keeps_new_ip :
  ~ refused_edit_restores editor_registry "a" 0 "0.0.0.0" "abc".
Proof.
  intros Hrestores.
  assert (edit_single_port editor_registry "a" 0 "0.0.0.0" "abc"
          = Some (mk_config
                    [("a", mk_service true [mk_port "0.0.0.0" 8000 80;
                                            mk_port "127.0.0.1" 9000 90]);
                     ("b", mk_service false [mk_port "127.0.0.1" 9000 81]);
                     ("c", mk_service true [mk_port "127.0.0.1" 7000 70])],
                  PortNotNumeric)) as Hedit.
  { vm_compute. reflexivity. }
  assert (PortNotNumeric ∈ [PortConflictFound; PortOutOfRange; PortNotNumeric])
    as Hrefused.
  { do 2 apply list_elem_of_further. apply list_elem_of_here. }
  discriminate (Hrestores _ _ Hedit Hrefused).
Qed.

(** ** Toggling a service *)

Lemma set_enabled_twice b b' sc :
  set_enabled b (set_enabled b' sc) = set_enabled b sc.
Proof. done. Qed.

Lemma set_enabled_id b sc : enabled sc = Some b -> set_enabled b sc = sc.
Proof. destruct sc. simpl. by intros ->. Qed.

Lemma toggle_service_eq config items name sc :
  cfg_services config = Some items ->
  Dict.get items name = Some sc ->
  toggle_service config name
  = Some (set_services
            (Dict.set items name (set_enabled (negb (is_enabled sc)) sc))
            config).
Proof. intros Hitems Hsc. unfold toggle_service. by rewrite Hitems; simpl; rewrite Hsc. Qed.

Lemma toggle_twice_eq config items name sc :
  cfg_services config = Some items ->
  Dict.get items name = Some sc ->
  toggle_twice config name
  = Some (set_services
            (Dict.set items name (set_enabled (is_enabled sc) sc)) config).
Proof.
  intros Hitems Hsc. unfold toggle_twice.
  rewrite (toggle_service_eq _ _ _ _ Hitems Hsc). simpl.
  erewrite toggle_service_eq; [|done|by rewrite dict_get_set, decide_True].
  change (is_enabled (set_enabled (negb (is_enabled sc)) sc))
    with (negb (is_enabled sc)).
  by rewrite negb_involutive, dict_set_set, set_enabled_twice.
Qed.

(** C10, as the code has it. Toggling a service of the registry flips its
    [enabled] flag, a missing flag counting as false, and changes no other
    field of that service, no other service, no other section, and not the
    order of the service map. Toggling it twice in a row restores the
    registry when the service carried the flag; when the flag was missing,
    the service ends with the flag present and false, all else as before.
    Toggling a name that is not in the service map changes nothing. *)
Theorem toggle_service_flips_flag (config : Config)
    (items : list (string * Service)) (service_name : string) :
  cfg_services config = Some items ->
  (forall sc,
     Dict.get items service_name = Some sc ->
     exists config' items' sc',
       toggle_service config service_name = Some config'
       /\ cfg_services config' = Some items'
       /\ cfg_global config' = cfg_global config
       /\ cfg_profiles config' = cfg_profiles config
       /\ items'.*1 = items.*1
       /\ (forall other, other <> service_name ->
             Dict.get items' other = Dict.get items other)
       /\ Dict.get items' service_name = Some sc'
       /\ enabled sc' = Some (negb (is_enabled sc))
       /\ category sc' = category sc
       /\ description sc' = description sc
       /\ ports sc' = ports sc
       /\ profiles sc' = profiles sc
       /\ reverse_proxy sc' = reverse_proxy sc)
  /\ (forall sc,
        Dict.get items service_name = Some sc ->
        toggle_twice config service_name
        = Some (set_services
                  (Dict.set items service_name
                     (set_enabled (is_enabled sc) sc)) config)
        /\ (is_Some (enabled sc) -> toggle_twice config service_name = Some config))
  /\ (Dict.get items service_name = None ->
      toggle_service config service_name = Some config).
Proof.
  intros Hitems. split; [|split].
  - intros sc Hsc. eexists _, _, _.
    split; [by apply toggle_service_eq|].
    split; [done|]. split; [done|]. split; [done|].
    split; [by apply dict_set_keys|].
    split.
    { intros other Hother. by rewrite dict_get_set, decide_False. }
    split; [by rewrite dict_get_set, decide_True|]. done.
  - intros sc Hsc. split; [by apply toggle_twice_eq|].
    intros [b Hb]. rewrite (toggle_twice_eq _ _ _ _ Hitems Hsc).
    unfold is_enabled. rewrite Hb. simpl.
    rewrite set_enabled_id, dict_set_get_id by done.
    by rewrite set_services_id.
  - intros Hnone. unfold toggle_service. by rewrite Hitems; simpl; rewrite Hnone.
Qed.

Lemma toggle_service_flips_flag_witness :
  toggle_service editor_registry "b"
  = Some (mk_config
            [("a", mk_service true [mk_port "127.0.0.1" 8000 80;
                                    mk_port "127.0.0.1" 9000 90]);
             ("b", mk_service true [mk_port "127.0.0.1" 9000 81]);
             ("c", mk_service true [mk_port "127.0.0.1" 7000 70])])
  /\ toggle_twice editor_registry "b" = Some editor_registry
  /\ toggle_service editor_registry "zzz" = Some editor_registry.
Proof.
  pose proof (toggle_service_flips_flag editor_registry _ "b" eq_refl)
    as (_ & Htwice & _).
  pose proof (toggle_service_flips_flag editor_registry _ "zzz" eq_refl)
    as (_ & _ & Hmissing).
  split; [vm_compute; reflexivity|]. split.
  - refine (proj2 (Htwice _ eq_refl) _). simpl. eauto.
  - apply Hmissing. reflexivity.
Defined.

(** C10 as stated fails: a service stored without the flag is not restored
    by two toggles, it ends with the flag present and false. *)
Lemma toggle_twice_adds_flag :
  ~ toggle_twice_restores unflagged_registry "a".
Proof. unfold toggle_twice_restores. vm_compute. discriminate. Qed.

(** ** The port overlay *)

Lemma port_mappings_loop_public name env ps acc :
  env <> "private" ->
  port_mappings_loop name env ps acc
  = acc ++ (if bool_decide (name = "caddy")
            then map public_binding (List.filter is_wildcard ps) else []).
Proof.
  intros Henv. revert acc.
  induction ps as [|pc ps IH]; intros acc; simpl.
  - destruct (bool_decide _); by rewrite app_nil_r.
  - rewrite (bool_decide_eq_false_2 (env = "private")) by done.
    destruct (decide (name = "caddy")) as [->|Hname].
    + rewrite (bool_decide_eq_true_2 ("caddy" ∈ ["caddy"]))
        by apply list_elem_of_here.
      rewrite !IH. rewrite (bool_decide_eq_true_2 ("caddy" = "caddy")) by done.
      change (bool_decide (host_ip pc = "0.0.0.0")) with (is_wildcard pc).
      destruct (is_wildcard pc); [|done].
      simpl. by rewrite <- app_assoc.
    + rewrite (bool_decide_eq_false_2 (name ∈ ["caddy"]))
        by (by rewrite list_elem_of_singleton).
      rewrite IH. by rewrite !bool_decide_eq_false_2.
Qed.

(** One round of the loop over the resolved names, outside ['private']. *)
Lemma override_step_public items env name :
  env <> "private" ->
  match Dict.get items name with
  | Some service_config =>
      port_mappings_loop name env (ports_of service_config) []
  | None => []
  end
  = if bool_decide (name = "caddy") then caddy_bindings items else [].
Proof.
  intros Henv. unfold caddy_bindings.
  destruct (decide (name = "caddy")) as [->|Hname].
  - rewrite bool_decide_eq_true_2 by done.
    destruct (Dict.get items "caddy"); [|done].
    by rewrite port_mappings_loop_public, bool_decide_eq_true_2.
  - rewrite bool_decide_eq_false_2 by done.
    destruct (Dict.get items name); [|done].
    by rewrite port_mappings_loop_public, bool_decide_eq_false_2.
Qed.

Lemma override_loop_public items env services override :
  env <> "private" ->
  override_loop items env services override
  = match caddy_bindings items with
    | [] => override
    | bindings =>
        if bool_decide ("caddy" ∈ services)
        then Dict.set override "caddy" bindings else override
    end.
Proof.
  intros Henv. revert override.
  induction services as [|name rest IH]; intros override.
  - simpl. by destruct (caddy_bindings items).
  - assert (override_loop items env (name :: rest) override
            = match
                match Dict.get items name with
                | Some service_config =>
                    port_mappings_loop name env (ports_of service_config) []
                | None => []
                end
              with
              | [] => override_loop items env rest override
              | m :: ms =>
                  override_loop items env rest (Dict.set override name (m :: ms))
              end) as ->.
    { simpl. destruct (Dict.get items name) as [sc|]; [|done].
      destruct (ports_of sc) as [|pc ps] eqn:Hps; [done|].
      by destruct (port_mappings_loop name env (pc :: ps) []). }
    rewrite (override_step_public items env name Henv), !IH.
    destruct (decide (name = "caddy")) as [->|Hname].
    + rewrite bool_decide_eq_true_2 by done.
      rewrite (bool_decide_eq_true_2 ("caddy" ∈ "caddy" :: rest))
        by apply list_elem_of_here.
      destruct (caddy_bindings items) as [|m ms]; [done|].
      destruct (bool_decide ("caddy" ∈ rest)); rewrite ?IH; [|done].
      by rewrite dict_set_set.
    + rewrite bool_decide_eq_false_2 by done.
      destruct (caddy_bindings items) as [|m ms]; [done|].
      destruct (decide ("caddy" ∈ rest)) as [Hin|Hout].
      * rewrite !bool_decide_eq_true_2;
          [done|by apply list_elem_of_further|done].
      * rewrite !bool_decide_eq_false_2; [done| |done].
        rewrite elem_of_cons. intros [?|?]; congruence.
Qed.

(** C2, as the code has it. In every environment other than ['private'],
    so in ['public'], the overlay has an entry only for the service named
    [caddy] (when the resolved list names it), made of its port mappings on
    host address [0.0.0.0], each printed without host address as
    [hostPort:containerPort/protocol]; every other service, reverse-proxied
    or not, and every mapping on another address is left out. *)
Theorem public_overlay_only_caddy_wildcard (config : Config)
    (items : list (string * Service)) (services : list string)
    (environment : string) :
  environment <> "private" ->
  cfg_services config = Some items ->
  exists override,
    override_services config services environment = Some override
    /\ (forall name mappings,
          (name, mappings) ∈ override ->
          name = "caddy" /\ "caddy" ∈ services
          /\ exists sc,
               Dict.get items "caddy" = Some sc
               /\ mappings
                  = map public_binding (List.filter is_wildcard (ports_of sc)))
    /\ (forall sc pc,
          "caddy" ∈ services ->
          Dict.get items "caddy" = Some sc ->
          pc ∈ ports_of sc ->
          host_ip pc = "0.0.0.0" ->
          exists mappings,
            override = [("caddy", mappings)]
            /\ (pretty (host_port pc) +:+ ":" +:+ pretty (container_port pc)
                  +:+ "/" +:+ protocol_of pc) ∈ mappings).
Proof.
  intros Henv Hitems. unfold override_services. rewrite Hitems. simpl.
  eexists. split; [done|]. rewrite override_loop_public by done.
  split.
  - intros name mappings Hin.
    unfold caddy_bindings in Hin.
    destruct (Dict.get items "caddy") as [sc|] eqn:Hsc;
      [|by apply elem_of_nil in Hin].
    destruct (map public_binding _) as [|m ms] eqn:Hmap;
      [by apply elem_of_nil in Hin|].
    case_bool_decide as Hcaddy; [|by apply elem_of_nil in Hin].
    simpl in Hin. apply list_elem_of_singleton in Hin as [= -> ->]. eauto.
  - intros sc pc Hcaddy Hsc Hpc Hip.
    unfold caddy_bindings. rewrite Hsc.
    assert (public_binding pc
            ∈ map public_binding (List.filter is_wildcard (ports_of sc)))
      as Hin.
    { apply list_elem_of_fmap_2, list_elem_of_In, filter_In.
      split; [by apply list_elem_of_In|].
      unfold is_wildcard. by rewrite bool_decide_eq_true_2. }
    destruct (map public_binding _) as [|m ms];
      [by apply elem_of_nil in Hin|].
    rewrite bool_decide_eq_true_2 by done. simpl. eauto.
Qed.

Lemma public_overlay_only_caddy_wildcard_witness :
  generate_override_file caddy_admin_registry ["caddy"; "admin"] "public"
  = Some ("docker-compose.override.public.generated.yml",
          "services:" +:+ Py.nl +:+ "  caddy:" +:+ Py.nl +:+ "    ports:"
            +:+ Py.nl +:+ "      - 443:8443/tcp")
  /\ exists override,
       override_services caddy_admin_registry ["caddy"; "admin"] "public"
       = Some override
       /\ (forall name mappings,
             (name, mappings) ∈ override -> name = "caddy")
       /\ exists mappings,
            override = [("caddy", mappings)] /\ "443:8443/tcp" ∈ mappings.
Proof.
  split; [vm_compute; reflexivity|].
  destruct (public_overlay_only_caddy_wildcard caddy_admin_registry _
              ["caddy"; "admin"] "public" ltac:(discriminate) eq_refl)
    as (override & Heq & Honly & Hemit).
  exists override. split; [done|]. split.
  - intros name mappings Hin. by destruct (Honly name mappings Hin).
  - refine (Hemit _ (mk_port "0.0.0.0" 443 8443) _ eq_refl _ eq_refl).
    + apply list_elem_of_here.
    + apply list_elem_of_here.
Defined.

(** C2 as stated fails on its example: the reverse-proxied service [web]
    with the mapping [0.0.0.0:443->8443] gets no entry in the public
    overlay, because it is not named [caddy]. *)
Lemma web_has_no_public_entry :
  ~ public_overlay_entry web_admin_registry ["web"; "admin"] "web" "443:8443/tcp".
Proof.
  intros (override & mappings & Heq & Hget & _).
  vm_compute in Heq. injection Heq as <-. discriminate Hget.
Qed.

(** ** The routing document *)

Lemma caddy_loop_lines upper items services acc :
  caddy_loop upper items services acc
  = acc ++ flat_map (caddy_lines upper items) services.
Proof.
  revert acc. induction services as [|name rest IH]; intros acc; simpl.
  - by rewrite app_nil_r.
  - unfold caddy_lines at 1.
    destruct (Dict.get items name) as [sc|]; [|apply IH].
    destruct (default false (reverse_proxy sc)); simpl; [|apply IH].
    destruct (ports_of sc) as [|first more]; [apply IH|].
    rewrite IH. by rewrite <- app_assoc.
Qed.

Lemma join_cons sep (x y : string) (l : list string) :
  Py.join sep (x :: y :: l) = x +:+ sep +:+ Py.join sep (y :: l).
Proof. reflexivity. Qed.

Lemma join_app sep (l1 l2 : list string) :
  l1 <> [] -> l2 <> [] ->
  Py.join sep (l1 ++ l2) = Py.join sep l1 +:+ sep +:+ Py.join sep l2.
Proof.
  intros H1 H2. induction l1 as [|x [|y l1] IH]; [done| |].
  - destruct l2 as [|z l2]; [done|]. reflexivity.
  - change ((x :: y :: l1) ++ l2) with (x :: y :: (l1 ++ l2)).
    rewrite !join_cons.
    change (y :: l1 ++ l2) with ((y :: l1) ++ l2).
    rewrite IH by done. by rewrite !string_app_assoc.
Qed.

Lemma upper_char_dash c : Py.ascii_upper_char c = "-"%char <-> c = "-"%char.
Proof.
  split; [|by intros ->].
  destruct c as [[] [] [] [] [] [] [] []]; vm_compute; congruence.
Qed.

(** [name.upper().replace("-", "_")] for a name of ASCII characters,
    character by character. *)
Lemma upper_replace_dash (s : string) :
  Py.replace "-" "_" (Py.ascii_upper s) = string_map token_char s.
Proof.
  unfold Py.replace. induction s as [|c s IH]; [done|].
  simpl. unfold token_char at 1.
  destruct (decide (c = "-"%char)) as [->|Hne].
  - rewrite bool_decide_eq_true_2 by done. simpl. by rewrite IH.
  - rewrite (bool_decide_eq_false_2 (c = "-"%char)) by done.
    rewrite decide_False; [by rewrite IH|].
    intros Heq. apply Hne, upper_char_dash. by symmetry.
Qed.

(** C7. For every resolved service that is flagged [reverse_proxy] and
    declares at least one port mapping, the routing document has a block of
    five lines: the description as a comment (the service name when there is
    no description); the hostname token between braces, the token being the
    entry of the static table for the well-known names, and otherwise [$],
    [name.upper()] with dashes turned to underscores, and [_HOSTNAME]; the
    proxy line to [name:containerPort] with the container port of the first
    declared mapping; the closing brace; an empty line. This holds whatever
    [upper()] makes of the name. *)
Theorem caddyfile_block_per_proxied_service (upper : string -> string)
    (config : Config)
    (items : list (string * Service)) (services : list string)
    (name : string) (sc : Service) (first_port : PortMapping)
    (more : list PortMapping) :
  cfg_services config = Some items ->
  name ∈ services ->
  Dict.get items name = Some sc ->
  reverse_proxy sc = Some true ->
  ports sc = Some (first_port :: more) ->
  exists document before after token,
    generate_caddyfile upper config services = Some document
    /\ (Dict.get hostname_map name = Some token
        \/ (Dict.get hostname_map name = None
            /\ token
               = "$" +:+ Py.replace "-" "_" (upper name) +:+ "_HOSTNAME"))
    /\ document
       = before +:+ Py.nl
         +:+ Py.join Py.nl
               ["# " +:+ default name (description sc);
                "{" +:+ token +:+ "} {";
                "    reverse_proxy " +:+ name +:+ ":"
                  +:+ pretty (container_port first_port);
                "}";
                ""]
         +:+ Py.nl +:+ after.
Proof.
  intros Hitems Hin Hsc Hproxy Hports.
  apply list_elem_of_split in Hin as (s1 & s2 & ->).
  assert (caddy_lines upper items name
          = caddy_block upper name sc first_port) as Hlines.
  { unfold caddy_lines, ports_of. by rewrite Hsc, Hproxy, Hports. }
  exists (Py.join Py.nl
            ((caddy_header ++ flat_map (caddy_lines upper items) s1)
               ++ caddy_block upper name sc first_port
               ++ (flat_map (caddy_lines upper items) s2 ++ caddy_footer))).
  exists (Py.join Py.nl
            (caddy_header ++ flat_map (caddy_lines upper items) s1)).
  exists (Py.join Py.nl
            (flat_map (caddy_lines upper items) s2 ++ caddy_footer)).
  exists (_get_hostname_variable upper name).
  split; [|split].
  - unfold generate_caddyfile. rewrite Hitems. simpl.
    rewrite caddy_loop_lines, flat_map_app. simpl. rewrite Hlines.
    by rewrite <- !app_assoc.
  - unfold _get_hostname_variable.
    destruct (Dict.get hostname_map name) as [known|]; [by left|by right].
  - rewrite join_app; [|done|done].
    rewrite (join_app _ (caddy_block _ _ _ _)); [|done|].
    + reflexivity.
    + unfold caddy_footer. by destruct (flat_map _ s2).
Qed.

Lemma caddyfile_block_per_proxied_service_witness :
  exists document before after token,
    generate_caddyfile Py.ascii_upper proxied_registry
      ["n8n"; "my-app"; "redis"]
    = Some document
    /\ (Dict.get hostname_map "my-app" = Some token
        \/ (Dict.get hostname_map "my-app" = None
            /\ token
               = "$" +:+ Py.replace "-" "_" (Py.ascii_upper "my-app")
                 +:+ "_HOSTNAME"))
    /\ document
       = before +:+ Py.nl
         +:+ Py.join Py.nl
               ["# " +:+ "my-app";
                "{" +:+ token +:+ "} {";
                "    reverse_proxy " +:+ "my-app" +:+ ":" +:+ pretty 8080;
                "}";
                ""]
         +:+ Py.nl +:+ after.
Proof.
  refine (caddyfile_block_per_proxied_service Py.ascii_upper
            proxied_registry _
            ["n8n"; "my-app"; "redis"] "my-app" _
            (mk_port "127.0.0.1" 3000 8080) [mk_port "127.0.0.1" 3001 8081]
            eq_refl _ eq_refl eq_refl eq_refl).
  apply list_elem_of_further, list_elem_of_here.
Defined.

Example caddyfile_of_proxied_registry :
  generate_caddyfile Py.ascii_upper proxied_registry
    ["n8n"; "my-app"; "redis"]
  = Some (Py.join Py.nl
            ["{"; "    email {$LETSENCRYPT_EMAIL}"; "}"; "";
             "# Workflow automation";
             "{$N8N_HOSTNAME} {";
             "    reverse_proxy n8n:5678";
             "}";
             "";
             "# my-app";
             "{$MY_APP_HOSTNAME} {";
             "    reverse_proxy my-app:8080";
             "}";
             "";
             "import /etc/caddy/addons/*.conf";
             ""]).
Proof. vm_compute. reflexivity. Qed.

(** ** Substitution: one pass of [str.replace] *)

(** Without an occurrence of the pattern, a pass changes nothing. *)
Lemma replace_from_without_occurrence (old new s : string) :
  Py.occurs_in old s = false -> Py.replace_from 0 old new s = s.
Proof.
  induction s as [|c s IH]; [done|].
  change (Py.occurs_in old (String c s))
    with (Py.starts_with old (String c s) || Py.occurs_in old s).
  intros Hocc. apply orb_false_iff in Hocc as [Hstart Hocc].
  change (Py.replace_from 0 old new (String c s))
    with (if Py.starts_with old (String c s)
          then new +:+ Py.replace_from (String.length old - 1) old new s
          else String c (Py.replace_from 0 old new s)).
  by rewrite Hstart, IH.
Qed.

Section replace_once.
Variables (o : ascii) (old' : string) (n : ascii) (new' : string).
Let old := String o old'.
Let new := String n new'.
(** The first character of the pattern is not in the replacement, and the
    first character of the replacement is not in the rest of the pattern. *)
Hypothesis Hold : Py.has_char o new = false.
Hypothesis Hnew : Py.has_char n old' = false.

Lemma starts_with_cons (a c : ascii) (u s : string) :
  Py.starts_with (String a u) (String c s) = true
  <-> a = c /\ Py.starts_with u s = true.
Proof.
  simpl. destruct (decide (a = c)) as [->|Hne].
  - split; [done|]. by intros [_ ?].
  - split; [done|]. by intros [? _].
Qed.

Lemma occurs_in_cons (c : ascii) (s : string) :
  Py.occurs_in old (String c s)
  = Py.starts_with old (String c s) || Py.occurs_in old s.
Proof. reflexivity. Qed.

(** A text without the first character of the pattern has no occurrence. *)
Lemma occurs_in_without_first (s : string) :
  Py.has_char o s = false -> Py.occurs_in old s = false.
Proof.
  induction s as [|c s IH]; [done|].
  intros Hc. simpl in Hc. apply orb_false_iff in Hc as [Hc Hs].
  apply bool_decide_eq_false in Hc.
  rewrite occurs_in_cons, IH by done. rewrite orb_false_r.
  apply not_true_is_false. unfold old. rewrite starts_with_cons.
  by intros [? _].
Qed.

(** Putting the replacement in front of a text creates no occurrence. *)
Lemma occurs_in_after_new (t r : string) :
  Py.has_char o t = false -> Py.occurs_in old r = false ->
  Py.occurs_in old (t +:+ r) = false.
Proof.
  intros Ht Hr. induction t as [|a t IH]; [done|].
  simpl in Ht. apply orb_false_iff in Ht as [Ha Ht].
  apply bool_decide_eq_false in Ha.
  rewrite string_app_cons, occurs_in_cons, IH by done. rewrite orb_false_r.
  apply not_true_is_false. unfold old. rewrite starts_with_cons.
  by intros [? _].
Qed.

(** What the output begins with, as long as it is free of the first
    character of the replacement, is what the input begins with. *)
Lemma starts_with_replaced (u s : string) :
  Py.has_char n u = false ->
  Py.starts_with u (Py.replace_from 0 old new s) = true ->
  Py.starts_with u s = true.
Proof.
  revert u. induction s as [|c s IH]; intros u Hu; [done|].
  destruct u as [|x u]; [done|].
  simpl in Hu. apply orb_false_iff in Hu as [Hx Hu].
  apply bool_decide_eq_false in Hx.
  change (Py.replace_from 0 old new (String c s))
    with (if Py.starts_with old (String c s)
          then new +:+ Py.replace_from (String.length old - 1) old new s
          else String c (Py.replace_from 0 old new s)).
  destruct (Py.starts_with old (String c s)).
  - unfold new. rewrite string_app_cons, starts_with_cons.
    by intros [? _].
  - rewrite !starts_with_cons. intros [-> Hrest]. split; [done|].
    by apply IH.
Qed.

(** One pass leaves no occurrence of the pattern. *)
Lemma replace_from_no_occurrence (skip : nat) (s : string) :
  Py.occurs_in old (Py.replace_from skip old new s) = false.
Proof.
  revert skip. induction s as [|c s IH]; intros skip; [done|].
  destruct skip as [|k]; [|apply IH].
  change (Py.replace_from 0 old new (String c s))
    with (if Py.starts_with old (String c s)
          then new +:+ Py.replace_from (String.length old - 1) old new s
          else String c (Py.replace_from 0 old new s)).
  destruct (Py.starts_with old (String c s)) eqn:Hstart.
  - by apply occurs_in_after_new.
  - rewrite occurs_in_cons, IH, orb_false_r.
    apply not_true_is_false. intros Hocc.
    unfold old in Hocc. apply starts_with_cons in Hocc as [<- Hrest].
    apply starts_with_replaced in Hrest; [|done].
    assert (Py.starts_with old (String o s) = true) as Htrue; [|congruence].
    unfold old. by apply starts_with_cons.
Qed.

Lemma replace_twice (s : string) :
  Py.replace old new (Py.replace old new s) = Py.replace old new s.
Proof.
  unfold Py.replace, old.
  apply replace_from_without_occurrence, replace_from_no_occurrence.
Qed.
End replace_once.

(** ** Substitution: the pass over the registry *)

Lemma substitute_recursive_object d members :
  substitute_recursive d (JObject members)
  = JObject <$> mapM (substitute_member d) members.
Proof. reflexivity. Qed.

Lemma substitute_recursive_array d elements :
  substitute_recursive d (JArray elements)
  = JArray <$> mapM (substitute_recursive d) elements.
Proof. reflexivity. Qed.

(** With a string for default host address, the pass raises nothing. *)
Lemma substitute_recursive_total value obj :
  is_Some (substitute_recursive (JString value) obj).
Proof.
  induction obj as [| | | | |elements IH|members IH] using json_nested_ind;
    try (by eexists).
  - rewrite substitute_recursive_array.
    apply fmap_is_Some, mapM_is_Some. by apply IH.
  - rewrite substitute_recursive_object.
    apply fmap_is_Some, mapM_is_Some.
    eapply Forall_impl; [apply IH|]. intros [k v] [v' Hv]. simpl in Hv.
    unfold substitute_member. simpl. rewrite Hv. by eexists.
Qed.

(** When a second replacement changes no string, a second pass changes no
    value. *)
Lemma substitute_recursive_settled value obj once :
  (forall s, Py.replace placeholder value (Py.replace placeholder value s)
             = Py.replace placeholder value s) ->
  substitute_recursive (JString value) obj = Some once ->
  substitute_recursive (JString value) once = Some once.
Proof.
  intros Htwice. revert once.
  induction obj as [| | | |s|elements IH|members IH] using json_nested_ind;
    intros once Hobj; try (by injection Hobj as <-).
  - injection Hobj as <-.
    change (Some (JString (Py.replace placeholder value
                             (Py.replace placeholder value s)))
            = Some (JString (Py.replace placeholder value s))).
    by rewrite Htwice.
  - rewrite substitute_recursive_array in Hobj.
    apply fmap_Some in Hobj as (elements' & Hmap & ->).
    rewrite substitute_recursive_array.
    apply fmap_Some. exists elements'. split; [|done].
    apply mapM_Some_1 in Hmap. apply mapM_Some_2.
    induction Hmap as [|x y l k Hxy Hlk IHl]; [constructor|].
    apply Forall_cons in IH as [IHx IHrest].
    constructor; [by apply IHx|by apply IHl].
  - rewrite substitute_recursive_object in Hobj.
    apply fmap_Some in Hobj as (members' & Hmap & ->).
    rewrite substitute_recursive_object.
    apply fmap_Some. exists members'. split; [|done].
    apply mapM_Some_1 in Hmap. apply mapM_Some_2.
    induction Hmap as [|[k v] [k' v'] l l' Hxy Hlk IHl]; [constructor|].
    apply Forall_cons in IH as [IHx IHrest].
    constructor; [|by apply IHl].
    unfold substitute_member in *. simpl in *.
    destruct (substitute_recursive (JString value) v) as [w|] eqn:Hv;
      [|done].
    simpl in Hxy. injection Hxy as <- <-.
    by rewrite (IHx w eq_refl).
Qed.

(** A key of an object after the pass holds the value it held before, after
    the pass. *)
Lemma dict_get_substituted d members members' key :
  mapM (substitute_member d) members = Some members' ->
  Dict.get members' key
  = Dict.get members key ≫= substitute_recursive d.
Proof.
  intros Hmap. apply mapM_Some_1 in Hmap.
  induction Hmap as [|[k v] [k' v'] l l' Hxy Hlk IH]; [done|].
  unfold substitute_member in Hxy. simpl in Hxy.
  destruct (substitute_recursive d v) as [w|] eqn:Hv; [|done].
  simpl in Hxy. injection Hxy as <- <-. simpl.
  destruct (decide (k = key)); [done|apply IH].
Qed.

(** The pass does not change the default host address it reads, when that
    address is a string without [$]. *)
Lemma resolved_default_host_ip_kept config value once :
  resolved_default_host_ip config = Some (JString value) ->
  Py.has_char "$" value = false ->
  substitute_recursive (JString value) config = Some once ->
  resolved_default_host_ip once = Some (JString value).
Proof.
  intros Hdefault Hdollar Honce.
  assert (Py.replace placeholder value value = value) as Hvalue.
  { apply replace_from_without_occurrence.
    by apply (occurs_in_without_first "$" "{default_host_ip}"). }
  destruct config as [| | | | | |members]; try done.
  rewrite substitute_recursive_object in Honce.
  apply fmap_Some in Honce as (members' & Hmembers & ->).
  simpl in Hdefault |- *.
  rewrite (dict_get_substituted _ _ _ "global" Hmembers).
  destruct (Dict.get members "global") as [g|]; simpl in Hdefault |- *.
  - destruct g as [| | | | | |settings]; try done.
    rewrite substitute_recursive_object.
    destruct (mapM _ settings) as [settings'|] eqn:Hsettings; simpl.
    + rewrite (dict_get_substituted _ _ _ "default_host_ip" Hsettings).
      destruct (Dict.get settings "default_host_ip") as [x|];
        simpl in Hdefault |- *; [|done].
      injection Hdefault as ->.
      change (substitute_recursive (JString value) (JString value))
        with (Some (JString (Py.replace placeholder value value))).
      by rewrite Hvalue.
    + destruct (substitute_recursive_total value (JObject settings))
        as [? Hsome].
      rewrite substitute_recursive_object, Hsettings in Hsome. done.
  - done.
Qed.

(** C4, as the code has it. When the resolved default host address is a
    string that is not empty, has no [$], and does not begin with a
    character of the placeholder (so for every dotted IPv4 address), the
    pass succeeds, and a second pass returns the registry of the first. *)
Theorem substitution_idempotent_when_settled (config : json) (value : string) :
  resolved_default_host_ip config = Some (JString value) ->
  settled_default value = true ->
  exists once,
    _substitute_variables config = Some once
    /\ _substitute_variables once = Some once.
Proof.
  intros Hdefault Hsettled.
  destruct value as [|n new']; [done|].
  apply andb_true_iff in Hsettled as [Hdollar Hfirst].
  apply negb_true_iff in Hdollar, Hfirst.
  assert (Py.has_char n "{default_host_ip}" = false) as Hrest.
  { change (Py.has_char n placeholder)
      with (bool_decide ("$"%char = n) || Py.has_char n "{default_host_ip}")
      in Hfirst.
    by apply orb_false_iff in Hfirst as [_ ?]. }
  destruct (substitute_recursive_total (String n new') config) as [once Honce].
  exists once. unfold _substitute_variables. rewrite Hdefault. simpl.
  split; [done|].
  rewrite (resolved_default_host_ip_kept _ _ _ Hdefault Hdollar Honce). simpl.
  eapply substitute_recursive_settled; [|done].
  intros s. by apply (replace_twice "$" "{default_host_ip}" n new').
Qed.

Lemma substitution_idempotent_when_settled_witness :
  exists once,
    _substitute_variables lan_registry = Some once
    /\ _substitute_variables once = Some once.
Proof.
  exact (substitution_idempotent_when_settled lan_registry "192.168.1.10"
           eq_refl eq_refl).
Defined.

Example substitute_lan_registry :
  _substitute_variables lan_registry
  = Some
      (JObject
         [("global", JObject [("project_name", JString "localai");
                              ("default_host_ip", JString "192.168.1.10")]);
          ("services",
           JObject
             [("n8n",
               JObject
                 [("enabled", JBool true);
                  ("description", JString "n8n on 192.168.1.10:5678");
                  ("ports",
                   JArray [JObject [("host_ip", JString "192.168.1.10");
                                    ("host_port", JInt 5678);
                                    ("container_port", JInt 5678)]])])]);
          ("profiles", JObject [])]).
Proof. vm_compute. reflexivity. Qed.

(** C4 as stated fails: the default host address [host] does not contain
    the placeholder, yet the first pass turns
    [${default_${default_host_ip}_ip}] into the placeholder itself, which
    the second pass replaces again. *)
Lemma nested_placeholder_not_idempotent :
  ~ substitution_idempotent_on nested_placeholder_registry.
Proof.
  intros Hidem.
  specialize (Hidem "host" _ eq_refl eq_refl eq_refl).
  vm_compute in Hidem. discriminate Hidem.
Qed.

(** * Further properties of the code *)

(** ** Validation and resolution *)

Lemma lookup_host_pair (bs : list (string * PortMapping)) (i : nat) x :
  map host_pair bs.*2 !! i = Some x
  <-> exists a p, bs !! i = Some (a, p) /\ host_pair p = x.
Proof.
  rewrite !list_lookup_fmap. destruct (bs !! i) as [[a p]|]; simpl.
  - split; [intros [= <-]; eauto|]. by intros (? & ? & [= <- <-] & <-).
  - split; [done|]. by intros (? & ? & ? & _).
Qed.

Lemma no_collision_NoDup (bs : list (string * PortMapping)) :
  NoDup (map host_pair bs.*2) <-> forall a p b q, ~ collide_at bs a p b q.
Proof.
  rewrite NoDup_alt. split.
  - intros Hnodup a p b q (i & j & Hlt & Hi & Hj & [Hip Hport]).
    assert (i = j); [|lia].
    apply (Hnodup i j (host_pair p)); apply lookup_host_pair.
    + eauto.
    + exists b, q. split; [done|]. unfold host_pair. by rewrite Hip, Hport.
  - intros Hfree i j x Hi Hj.
    apply lookup_host_pair in Hi as (a & p & Hi & Hp).
    apply lookup_host_pair in Hj as (b & q & Hj & Hq).
    destruct (decide (i = j)) as [|Hne]; [done|].
    assert (same_host_pair p q) as Hsame.
    { unfold host_pair in Hp, Hq. split; congruence. }
    destruct (decide (i < j)%nat).
    + destruct (Hfree a p b q). exists i, j. auto.
    + destruct (Hfree b q a p). exists j, i.
      split; [lia|]. destruct Hsame. unfold same_host_pair. auto.
Qed.

Lemma enabled_bindings_drop_disabled items :
  enabled_bindings (drop_disabled items) = enabled_bindings items.
Proof.
  induction items as [|[name sc] rest IH]; [done|].
  unfold drop_disabled, enabled_bindings in *. simpl.
  destruct (is_enabled sc) eqn:Hon; simpl; rewrite ?Hon, IH; done.
Qed.

Lemma validate_config_passed_iff (config : Config) :
  validate_config config = ValidationPassed
  <-> has_sections config
      /\ NoDup (map host_pair
                  (enabled_bindings (default [] (cfg_services config))).*2).
Proof.
  split.
  - intros Hpass.
    assert (has_sections config) as Hsec.
    { unfold validate_config, has_sections in *.
      destruct (cfg_global config), (cfg_services config),
        (cfg_profiles config); try done; eauto. }
    split; [done|]. pose proof Hsec as (_ & [items Hitems] & _).
    rewrite Hitems. simpl. apply no_collision_NoDup. intros a p b q Hcol.
    rewrite (validate_config_scan config items) in Hpass; [|done..].
    destruct (scan_bindings_detects _ _ _ _ _ Hcol) as (k & a' & b' & Hscan).
    by rewrite Hscan in Hpass.
  - intros [Hsec Hnodup]. pose proof Hsec as (_ & [items Hitems] & _).
    rewrite Hitems in Hnodup. simpl in Hnodup.
    rewrite (validate_config_scan config items) by done.
    destruct (scan_bindings _ []) as [[[k a] b]|] eqn:Hscan; [|done].
    apply scan_bindings_reports in Hscan as (p & q & Hcol & _).
    by apply no_collision_NoDup in Hcol.
Qed.

(** X1. Validation passes exactly when the registry has its three sections
    and the port mappings of its enabled services have pairwise different
    [(host_ip, host_port)] pairs. *)
Theorem validation_passes_iff_distinct_pairs (config : Config) :
  validate_config config = ValidationPassed
  <-> has_sections config
      /\ NoDup (map host_pair
                  (enabled_bindings (default [] (cfg_services config))).*2).
Proof. apply validate_config_passed_iff. Qed.

(** X2. The outcome of validation is that of the registry with its disabled
    services taken out: what a disabled service declares, and where it
    stands in the service map, never matters. *)
Theorem validation_ignores_disabled (config : Config)
    (items : list (string * Service)) :
  cfg_services config = Some items ->
  validate_config (set_services (drop_disabled items) config)
  = validate_config config.
Proof.
  intros Hitems. unfold validate_config. simpl. rewrite Hitems.
  destruct (cfg_global config); [|done].
  destruct (cfg_profiles config); [|done].
  by rewrite !scan_services_bindings, enabled_bindings_drop_disabled.
Qed.

Lemma validation_ignores_disabled_witness :
  validate_config
    (set_services
       (drop_disabled
          [("a", mk_service true [mk_port "127.0.0.1" 8000 80;
                                  mk_port "127.0.0.1" 9000 90]);
           ("b", mk_service false [mk_port "127.0.0.1" 9000 81]);
           ("c", mk_service true [mk_port "127.0.0.1" 7000 70])])
       editor_registry)
  = validate_config editor_registry.
Proof. exact (validation_ignores_disabled editor_registry _ eq_refl). Defined.

Lemma filter_names_sublist {A} (f : string * A -> bool)
    (items : list (string * A)) :
  (List.filter f items).*1 `sublist_of` items.*1.
Proof.
  induction items as [|item rest IH]; simpl; [constructor|].
  destruct (f item); simpl; by constructor.
Qed.

Lemma selects_filtering config p name sc :
  p <> "" -> p <> "all" ->
  selects config (Some p) (name, sc) = true
  <-> is_enabled sc = true
      /\ (p ∈ default [] (profiles sc) \/ name ∈ profile_services config p).
Proof.
  intros Hp Hall. unfold selects, profile_filters. simpl.
  rewrite !bool_decide_eq_true_2 by done. simpl.
  rewrite andb_true_iff, orb_true_iff, !bool_decide_eq_true. done.
Qed.

(** X3. For a profile name other than the empty one and ["all"], the
    resolved list holds a name exactly when the service map has an enabled
    service of that name that lists the profile or that the profile's
    [included_services] names; the list keeps the order of the service map
    and gives no name more often than the map does. *)
Theorem resolved_exactly_enabled_members (config : Config)
    (items : list (string * Service)) (p : string) :
  cfg_services config = Some items ->
  p <> "" ->
  p <> "all" ->
  exists resolved,
    get_enabled_services config (Some p) = Some resolved
    /\ resolved `sublist_of` items.*1
    /\ forall name,
         name ∈ resolved
         <-> exists sc,
               (name, sc) ∈ items /\ is_enabled sc = true
               /\ (p ∈ default [] (profiles sc)
                   \/ name ∈ profile_services config p).
Proof.
  intros Hitems Hp Hall. eexists.
  split; [by apply get_enabled_services_filter|].
  split; [apply filter_names_sublist|].
  intros name. rewrite list_elem_of_fmap. split.
  - intros ([name' sc] & -> & Hin). exists sc. simpl.
    apply list_elem_of_In, filter_In in Hin as [Hin Hsel].
    apply selects_filtering in Hsel; [|done..].
    by rewrite list_elem_of_In.
  - intros (sc & Hin & Hon & Hsignal). exists (name, sc). split; [done|].
    apply list_elem_of_In, filter_In. split; [by apply list_elem_of_In|].
    by apply selects_filtering.
Qed.

Lemma resolved_exactly_enabled_members_witness :
  exists resolved,
    get_enabled_services gpu_registry (Some "gpu") = Some resolved
    /\ resolved `sublist_of` ["ollama-gpu"; "open-webui"]
    /\ forall name,
         name ∈ resolved
         <-> exists sc,
               (name, sc)
                 ∈ [("ollama-gpu",
                     {| enabled := Some true; category := None;
                        description := None; ports := None;
                        profiles := Some ["gpu"]; reverse_proxy := None |});
                    ("open-webui", mk_service true [])]
               /\ is_enabled sc = true
               /\ ("gpu" ∈ default [] (profiles sc)
                   \/ name ∈ profile_services gpu_registry "gpu").
Proof.
  refine (resolved_exactly_enabled_members gpu_registry _ "gpu" eq_refl _ _);
    discriminate.
Defined.

(** X4. A missing profile and the empty profile name resolve like ["all"]:
    every enabled service is returned, whatever the profiles say. *)
Theorem empty_profile_resolves_like_all (config : Config) :
  get_enabled_services config None = get_enabled_services config (Some "all")
  /\ get_enabled_services config (Some "")
     = get_enabled_services config (Some "all").
Proof.
  unfold get_enabled_services.
  destruct (cfg_services config) as [items|]; [|done]. simpl.
  rewrite !enabled_loop_filter. split; do 2 f_equal.
Qed.

(** ** The private overlay *)

Lemma dict_get_None_keys {V} (d : list (string * V)) k :
  Dict.get d k = None <-> k ∉ d.*1.
Proof.
  induction d as [|[k0 v0] d IH].
  - split; [intros _; apply not_elem_of_nil|done].
  - simpl Dict.get. rewrite fmap_cons, not_elem_of_cons. simpl fst.
    destruct (decide (k0 = k)) as [->|Hne].
    + split; [done|]. by intros [? _].
    + rewrite IH. split; [|by intros [_ ?]]. intros ?. split; [congruence|done].
Qed.

Lemma dict_set_fresh {V} (d : list (string * V)) k v :
  Dict.get d k = None -> Dict.set d k v = d ++ [(k, v)].
Proof.
  induction d as [|[k0 v0] d IH]; simpl; [done|].
  destruct (decide (k0 = k)); [done|]. intros H. by rewrite IH.
Qed.

Lemma dict_set_NoDup {V} (d : list (string * V)) k v :
  NoDup d.*1 -> NoDup (Dict.set d k v).*1.
Proof.
  intros Hd. destruct (Dict.get d k) as [v0|] eqn:Hget.
  - by rewrite dict_set_keys by eauto.
  - rewrite dict_set_fresh, fmap_app by done. simpl.
    apply NoDup_app. split; [done|]. split; [|apply NoDup_singleton].
    intros x Hx Hk. apply list_elem_of_singleton in Hk as ->.
    by apply dict_get_None_keys in Hget.
Qed.

Lemma dict_get_NoDup {V} (d : list (string * V)) k v :
  NoDup d.*1 -> (k, v) ∈ d -> Dict.get d k = Some v.
Proof.
  induction d as [|[k0 v0] d IH].
  - intros _ Hin. by apply elem_of_nil in Hin.
  - simpl Dict.get. rewrite fmap_cons. simpl fst.
    intros Hd Hin. apply NoDup_cons in Hd as [Hk0 Hd].
    apply elem_of_cons in Hin as [[= -> ->]|Hin].
    + by rewrite decide_True.
    + destruct (decide (k0 = k)) as [->|?]; [|by apply IH].
      destruct Hk0. by apply (list_elem_of_fmap_2 fst _ (k, v)).
Qed.

Lemma port_mappings_loop_private name ps acc :
  port_mappings_loop name "private" ps acc = acc ++ map private_binding ps.
Proof.
  revert acc. induction ps as [|pc ps IH]; intros acc; simpl.
  - by rewrite app_nil_r.
  - rewrite IH, <- app_assoc. done.
Qed.

(** One round of the loop over the resolved names, in ['private']. *)
Lemma override_loop_private_cons items name rest override :
  override_loop items "private" (name :: rest) override
  = match private_entry items name with
    | Some mappings =>
        override_loop items "private" rest (Dict.set override name mappings)
    | None => override_loop items "private" rest override
    end.
Proof.
  unfold private_entry, declared_ports. simpl.
  destruct (Dict.get items name) as [sc|]; [|done].
  destruct (ports_of sc) as [|pc ps]; [done|].
  rewrite port_mappings_loop_private. done.
Qed.

Lemma override_loop_private_get items services override name :
  Dict.get (override_loop items "private" services override) name
  = if bool_decide (name ∈ services)
    then match private_entry items name with
         | Some mappings => Some mappings
         | None => Dict.get override name
         end
    else Dict.get override name.
Proof.
  revert override. induction services as [|n0 rest IH]; intros override.
  - done.
  - rewrite override_loop_private_cons.
    destruct (decide (name = n0)) as [->|Hne].
    + rewrite (bool_decide_eq_true_2 (n0 ∈ n0 :: rest))
        by apply list_elem_of_here.
      destruct (private_entry items n0) as [mappings|] eqn:Hentry;
        rewrite IH, ?Hentry.
      * rewrite dict_get_set, decide_True by done. by case_bool_decide.
      * by case_bool_decide.
    + assert (bool_decide (name ∈ n0 :: rest) = bool_decide (name ∈ rest))
        as ->.
      { apply bool_decide_ext. rewrite elem_of_cons.
        split; [by intros [?|?]|by right]. }
      destruct (private_entry items n0) as [mappings|]; rewrite IH; [|done].
      by rewrite dict_get_set, decide_False.
Qed.

Lemma override_loop_NoDup items environment services override :
  NoDup override.*1 ->
  NoDup (override_loop items environment services override).*1.
Proof.
  revert override. induction services as [|name rest IH]; intros override Hd;
    [done|].
  simpl. destruct (Dict.get items name) as [sc|]; [|by apply IH].
  destruct (ports_of sc) as [|pc ps]; [by apply IH|].
  destruct (port_mappings_loop _ _ _ _); [by apply IH|].
  by apply IH, dict_set_NoDup.
Qed.

(** X5. In the environment ['private'] the overlay has an entry for a name
    exactly when the resolved list holds it and the registry gives it at
    least one port mapping; the entry lists all its mappings, in order, as
    [hostAddress:hostPort:containerPort/protocol]. A name that the registry
    does not know gets no entry, and a name given twice gets one. *)
Theorem private_overlay_lists_every_mapping (config : Config)
    (items : list (string * Service)) (services : list string) :
  cfg_services config = Some items ->
  exists override,
    override_services config services "private" = Some override
    /\ NoDup override.*1
    /\ forall name,
         Dict.get override name
         = if bool_decide (name ∈ services)
           then match declared_ports items name with
                | [] => None
                | ps => Some (map private_binding ps)
                end
           else None.
Proof.
  intros Hitems. unfold override_services. rewrite Hitems. simpl.
  eexists. split; [done|]. split.
  - apply override_loop_NoDup. constructor.
  - intros name. rewrite override_loop_private_get. unfold private_entry.
    case_bool_decide; [|done]. by destruct (declared_ports items name).
Qed.

Lemma private_overlay_lists_every_mapping_witness :
  exists override,
    override_services editor_registry ["a"; "ghost"; "a"; "c"] "private"
    = Some override
    /\ NoDup override.*1
    /\ Dict.get override "a"
       = Some ["127.0.0.1:8000:80/tcp"; "127.0.0.1:9000:90/tcp"]
    /\ Dict.get override "ghost" = None
    /\ Dict.get override "b" = None.
Proof.
  destruct (private_overlay_lists_every_mapping editor_registry _
              ["a"; "ghost"; "a"; "c"] eq_refl)
    as (override & Heq & Hnodup & Hget).
  exists override. split; [done|]. split; [done|].
  split; [|split]; rewrite Hget; vm_compute; reflexivity.
Defined.

Lemma override_loop_private_fresh items services override :
  NoDup services ->
  (forall n, n ∈ services -> Dict.get override n = None) ->
  override_loop items "private" services override
  = override ++ private_entries items services.
Proof.
  revert override. induction services as [|name rest IH];
    intros override Hnodup Hfresh.
  - simpl. by rewrite app_nil_r.
  - apply NoDup_cons in Hnodup as [Hname Hrest].
    rewrite override_loop_private_cons. unfold private_entries. simpl.
    destruct (private_entry items name) as [mappings|].
    + rewrite IH; [|done|].
      * rewrite dict_set_fresh by (apply Hfresh, list_elem_of_here).
        by rewrite <- app_assoc.
      * intros n Hn. rewrite dict_get_set.
        destruct (decide (name = n)) as [->|?]; [done|].
        by apply Hfresh, list_elem_of_further.
    + apply IH; [done|]. intros n Hn. by apply Hfresh, list_elem_of_further.
Qed.

Lemma concat_private_entries items services :
  concat (private_entries items services).*2
  = map private_binding (overlay_bindings items services).
Proof.
  induction services as [|name rest IH]; [done|].
  change (private_entries items (name :: rest))
    with (match private_entry items name with
          | Some mappings => [(name, mappings)]
          | None => []
          end ++ private_entries items rest).
  change (overlay_bindings items (name :: rest))
    with (declared_ports items name ++ overlay_bindings items rest).
  rewrite fmap_app, concat_app, IH, map_app. f_equal.
  unfold private_entry.
  destruct (declared_ports items name) as [|pc ps]; [done|].
  simpl. by rewrite app_nil_r.
Qed.

Lemma flat_map_sublist {A B} (f : A -> list B) (l1 l2 : list A) :
  l1 `sublist_of` l2 -> flat_map f l1 `sublist_of` flat_map f l2.
Proof.
  induction 1 as [|x l1 l2 _ IH|x l1 l2 _ IH]; simpl.
  - constructor.
  - by apply sublist_app.
  - by apply sublist_inserts_l.
Qed.

Lemma selected_sublist_enabled config profile items :
  List.filter (selects config profile) items `sublist_of` drop_disabled items.
Proof.
  unfold drop_disabled.
  induction items as [|[name sc] rest IH]; simpl; [constructor|].
  unfold selects at 1. simpl. destruct (is_enabled sc); simpl; [|done].
  destruct (_ || _); by constructor.
Qed.

Lemma enabled_bindings_ports items :
  (enabled_bindings items).*2
  = flat_map (fun item => ports_of item.2) (drop_disabled items).
Proof.
  unfold enabled_bindings, drop_disabled.
  induction items as [|[name sc] rest IH]; [done|]. simpl.
  rewrite fmap_app, IH. destruct (is_enabled sc); [|done]. simpl.
  f_equal. rewrite <- list_fmap_compose. apply list_fmap_id.
Qed.

Lemma overlay_bindings_of_items items (l : list (string * Service)) :
  NoDup items.*1 ->
  (forall item, item ∈ l -> item ∈ items) ->
  overlay_bindings items l.*1 = flat_map (fun item => ports_of item.2) l.
Proof.
  intros Hnodup. unfold overlay_bindings.
  induction l as [|[name sc] l IH]; intros Hl; [done|].
  rewrite fmap_cons. simpl. rewrite IH.
  - f_equal. unfold declared_ports.
    rewrite (dict_get_NoDup items name sc); [done..|].
    apply Hl, list_elem_of_here.
  - intros item Hin. by apply Hl, list_elem_of_further.
Qed.

(** X6. When the keys of the service map are pairwise different and
    validation passes, the private overlay generated for the list resolved
    for any profile prints the port mappings of the resolved services, and
    no two of the mappings it prints have the same [(host_ip, host_port)]
    pair. *)
Theorem validated_private_overlay_has_distinct_pairs (config : Config)
    (items : list (string * Service)) (profile : option string)
    (resolved : list string) :
  cfg_services config = Some items ->
  NoDup items.*1 ->
  validate_config config = ValidationPassed ->
  get_enabled_services config profile = Some resolved ->
  exists override,
    override_services config resolved "private" = Some override
    /\ concat override.*2
       = map private_binding (overlay_bindings items resolved)
    /\ NoDup (map host_pair (overlay_bindings items resolved)).
Proof.
  intros Hitems Hkeys Hvalid Hresolved.
  rewrite (get_enabled_services_filter _ _ _ Hitems) in Hresolved.
  injection Hresolved as <-.
  assert (NoDup (List.filter (selects config profile) items).*1) as Hnodup.
  { apply (sublist_NoDup _ items.*1); [done|apply filter_names_sublist]. }
  unfold override_services. rewrite Hitems. simpl.
  eexists. split; [done|].
  rewrite override_loop_private_fresh by done. simpl.
  split; [apply concat_private_entries|].
  rewrite overlay_bindings_of_items; [|done|].
  - apply validate_config_passed_iff in Hvalid as [_ Hvalid].
    rewrite Hitems in Hvalid. simpl in Hvalid.
    rewrite enabled_bindings_ports in Hvalid.
    eapply sublist_NoDup; [exact Hvalid|].
    apply (fmap_sublist host_pair), flat_map_sublist, selected_sublist_enabled.
  - intros item Hin. by apply list_elem_of_In, filter_In in Hin as [?%list_elem_of_In _].
Qed.

Lemma validated_private_overlay_has_distinct_pairs_witness :
  exists override,
    override_services proxied_registry ["n8n"; "my-app"; "redis"] "private"
    = Some override
    /\ concat override.*2
       = map private_binding
           [mk_port "127.0.0.1" 5678 5678; mk_port "127.0.0.1" 3000 8080;
            mk_port "127.0.0.1" 3001 8081; mk_port "127.0.0.1" 6379 6379]
    /\ NoDup (map host_pair
                [mk_port "127.0.0.1" 5678 5678; mk_port "127.0.0.1" 3000 8080;
                 mk_port "127.0.0.1" 3001 8081; mk_port "127.0.0.1" 6379 6379]).
Proof.
  refine (validated_private_overlay_has_distinct_pairs proxied_registry _
            (Some "all") ["n8n"; "my-app"; "redis"] eq_refl _ _ _).
  - apply (bool_decide_unpack (NoDup _)). vm_compute. exact I.
  - vm_compute. reflexivity.
  - vm_compute. reflexivity.
Defined.

(** ** The overlay document *)

Lemma join_nested (l r : list string) :
  l <> [] -> Py.join Py.nl (Py.join Py.nl l :: r) = Py.join Py.nl (l ++ r).
Proof.
  intros Hl. destruct r as [|y r].
  - by rewrite app_nil_r.
  - rewrite join_cons. by rewrite join_app.
Qed.

Lemma yaml_item_ports (name : string) (mappings : list string) :
  yaml_item 1 name (YDict [("ports", YList mappings)])
  = [("  " +:+ name +:+ ":");
     Py.join Py.nl
       ("    ports:" :: map (fun m => "      - " +:+ m) mappings)].
Proof.
  change (yaml_item 1 name (YDict [("ports", YList mappings)]))
    with [("  " +:+ name +:+ ":");
          Py.join Py.nl
            (("    ports:" :: map (fun m => "      - " +:+ m) mappings)
               ++ [])].
  by rewrite app_nil_r.
Qed.

Lemma join_cons_nonempty sep (x : string) (l : list string) :
  l <> [] -> Py.join sep (x :: l) = x +:+ sep +:+ Py.join sep l.
Proof. by destruct l. Qed.

(** Appending, for each entry, its head line and its lines already joined
    gives the text of appending the head line and the lines themselves. *)
Lemma join_flat_nested {A} (h : A -> string) (L : A -> list string)
    (es : list A) :
  (forall e, L e <> []) ->
  Py.join Py.nl (flat_map (fun e => [h e; Py.join Py.nl (L e)]) es)
  = Py.join Py.nl (flat_map (fun e => h e :: L e) es).
Proof.
  intros HL. induction es as [|e es IH]; [done|].
  change (flat_map (fun e => [h e; Py.join Py.nl (L e)]) (e :: es))
    with (h e :: Py.join Py.nl (L e)
            :: flat_map (fun e => [h e; Py.join Py.nl (L e)]) es).
  change (flat_map (fun e => h e :: L e) (e :: es))
    with (h e :: (L e ++ flat_map (fun e => h e :: L e) es)).
  rewrite join_cons, join_nested by done.
  rewrite (join_cons_nonempty _ (h e)).
  - do 2 f_equal. destruct es as [|e' es]; [done|].
    rewrite !(join_app _ (L e)); [by rewrite IH|done..].
  - specialize (HL e). by destruct (L e).
Qed.

Lemma yaml_entries_items (override : list (string * list string)) :
  flat_map (fun kv => yaml_item 1 kv.1 kv.2)
    (map (fun e => (e.1, YDict [("ports", YList e.2)])) override)
  = flat_map
      (fun e => [("  " +:+ e.1 +:+ ":");
                 Py.join Py.nl
                   ("    ports:" :: map (fun m => "      - " +:+ m) e.2)])
      override.
Proof.
  induction override as [|[name mappings] rest IH]; [done|].
  change (flat_map (fun kv => yaml_item 1 kv.1 kv.2)
            (map (fun e => (e.1, YDict [("ports", YList e.2)]))
               ((name, mappings) :: rest)))
    with (yaml_item 1 name (YDict [("ports", YList mappings)])
            ++ flat_map (fun kv => yaml_item 1 kv.1 kv.2)
                 (map (fun e => (e.1, YDict [("ports", YList e.2)])) rest)).
  by rewrite yaml_item_ports, IH.
Qed.

Lemma yaml_entries_flatten (override : list (string * list string)) :
  Py.join Py.nl
    (flat_map (fun kv => yaml_item 1 kv.1 kv.2)
       (map (fun e => (e.1, YDict [("ports", YList e.2)])) override))
  = Py.join Py.nl
      (flat_map (fun e => ("  " +:+ e.1 +:+ ":") :: "    ports:"
                            :: map (fun m => "      - " +:+ m) e.2) override).
Proof.
  rewrite yaml_entries_items.
  by apply (join_flat_nested
              (fun e => "  " +:+ e.1 +:+ ":")
              (fun e => "    ports:" :: map (fun m => "      - " +:+ m) e.2)).
Qed.

(** X7. The overlay document is the line [services:] followed, for every
    entry, by the service name indented by two spaces, the line [ports:]
    indented by four, and one line [- binding] indented by six for every
    mapping; lines are separated by line feeds and the last one is not
    ended. With no entry the document is [services:] and an empty line. *)
Theorem overlay_document_lines (override : list (string * list string)) :
  _dict_to_yaml (override_config override) 0
  = match override with
    | [] => "services:" +:+ Py.nl
    | _ => Py.join Py.nl (overlay_lines override)
    end.
Proof.
  unfold _dict_to_yaml, override_config, overlay_lines.
  change (Py.join Py.nl
            ["services:";
             Py.join Py.nl
               (flat_map (fun kv => yaml_item 1 kv.1 kv.2)
                  (map (fun e => (e.1, YDict [("ports", YList e.2)]))
                     override))]
          = match override with
            | [] => "services:" +:+ Py.nl
            | _ :: _ =>
                Py.join Py.nl
                  ("services:"
                     :: flat_map
                          (fun e => ("  " +:+ e.1 +:+ ":") :: "    ports:"
                                      :: map (fun m => "      - " +:+ m) e.2)
                          override)
            end).
  rewrite yaml_entries_flatten. destruct override as [|e rest]; [done|].
  reflexivity.
Qed.

(** ** The routing document, further *)

Lemma generate_caddyfile_lines upper config items services :
  cfg_services config = Some items ->
  generate_caddyfile upper config services
  = Some (Py.join Py.nl
            (caddy_header
               ++ flat_map (caddy_lines upper items) services
               ++ caddy_footer)).
Proof.
  intros Hitems. unfold generate_caddyfile. rewrite Hitems. simpl.
  by rewrite caddy_loop_lines, <- app_assoc.
Qed.

(** X8. Whatever the resolved list, the routing document begins with the
    global options block and an empty line, and ends with the directive
    that imports the add-on snippets, followed by a line feed. *)
Theorem caddyfile_header_and_import (upper : string -> string)
    (config : Config)
    (items : list (string * Service)) (services : list string) :
  cfg_services config = Some items ->
  exists body,
    generate_caddyfile upper config services
    = Some ("{" +:+ Py.nl +:+ "    email {$LETSENCRYPT_EMAIL}" +:+ Py.nl
              +:+ "}" +:+ Py.nl +:+ Py.nl
              +:+ body
              +:+ "import /etc/caddy/addons/*.conf" +:+ Py.nl).
Proof.
  intros Hitems. rewrite (generate_caddyfile_lines _ _ _ _ Hitems).
  destruct (flat_map (caddy_lines upper items) services)
    as [|l ls] eqn:Hlines.
  - exists "". reflexivity.
  - exists (Py.join Py.nl (l :: ls) +:+ Py.nl).
    rewrite join_app, (join_app _ (l :: ls)) by done.
    rewrite string_app_assoc. reflexivity.
Qed.

Lemma caddyfile_header_and_import_witness :
  exists body,
    generate_caddyfile Py.ascii_upper proxied_registry
      ["n8n"; "my-app"; "redis"]
    = Some ("{" +:+ Py.nl +:+ "    email {$LETSENCRYPT_EMAIL}" +:+ Py.nl
              +:+ "}" +:+ Py.nl +:+ Py.nl
              +:+ body
              +:+ "import /etc/caddy/addons/*.conf" +:+ Py.nl).
Proof.
  exact (caddyfile_header_and_import Py.ascii_upper proxied_registry _
           ["n8n"; "my-app"; "redis"] eq_refl).
Defined.

(** X9. A resolved name adds nothing to the routing document when the
    registry does not know it, when its service is not flagged
    [reverse_proxy], or when its service declares no port mapping: the
    document is the one generated without that name. *)
Theorem caddyfile_skips_unrouted (upper : string -> string)
    (config : Config)
    (items : list (string * Service)) (before after : list string)
    (name : string) :
  cfg_services config = Some items ->
  Dict.get items name = None
    \/ (exists sc, Dict.get items name = Some sc
          /\ (default false (reverse_proxy sc) = false \/ ports_of sc = [])) ->
  generate_caddyfile upper config (before ++ name :: after)
  = generate_caddyfile upper config (before ++ after).
Proof.
  intros Hitems Hskip.
  rewrite !(generate_caddyfile_lines _ _ _ _ Hitems), !flat_map_app. simpl.
  assert (caddy_lines upper items name = []) as ->; [|done].
  unfold caddy_lines. destruct Hskip as [->|(sc & -> & [->| ->])]; [done..|].
  by destruct (default false (reverse_proxy sc)).
Qed.

Lemma caddyfile_skips_unrouted_witness :
  generate_caddyfile Py.ascii_upper proxied_registry
    (["n8n"] ++ "redis" :: ["my-app"])
  = generate_caddyfile Py.ascii_upper proxied_registry
      (["n8n"] ++ ["my-app"]).
Proof.
  refine (caddyfile_skips_unrouted Py.ascii_upper proxied_registry _
            ["n8n"] ["my-app"] "redis" eq_refl _).
  right. eexists. split; [reflexivity|]. left. reflexivity.
Defined.

Lemma token_char_safe c : token_safe_char (token_char c) = true.
Proof. destruct c as [[] [] [] [] [] [] [] []]; vm_compute; reflexivity. Qed.

Lemma string_forall_app f s t :
  string_forall f (s +:+ t) = string_forall f s && string_forall f t.
Proof.
  induction s as [|c s IH]; [done|].
  rewrite string_app_cons. simpl. by rewrite IH, andb_assoc.
Qed.

Lemma string_map_token_safe s :
  string_forall token_safe_char (string_map token_char s) = true.
Proof.
  induction s as [|c s IH]; [done|]. simpl. by rewrite token_char_safe, IH.
Qed.

(** X10. For a service name of ASCII characters, on which [upper()] turns
    the letters [a] to [z] into capitals and keeps every other character,
    the hostname token, from the table or derived, is [$], a body, then
    [_HOSTNAME], and has no dash and no letter from [a] to [z]. *)
Theorem hostname_token_shape (upper : string -> string)
    (service_name : string) :
  string_forall is_ascii_char service_name = true ->
  (forall s, string_forall is_ascii_char s = true ->
             upper s = Py.ascii_upper s) ->
  exists body,
    _get_hostname_variable upper service_name
    = "$" +:+ body +:+ "_HOSTNAME"
    /\ string_forall token_safe_char
         (_get_hostname_variable upper service_name) = true.
Proof.
  intros Hascii Hupper.
  unfold _get_hostname_variable. rewrite (Hupper _ Hascii).
  rewrite upper_replace_dash.
  destruct (Dict.get hostname_map service_name) as [known|] eqn:Hknown.
  - assert (known ∈ ["$N8N_HOSTNAME"; "$WEBUI_HOSTNAME"; "$FLOWISE_HOSTNAME";
                     "$LANGFUSE_HOSTNAME"; "$NEO4J_HOSTNAME";
                     "$SEARXNG_HOSTNAME"; "$PORTAINER_HOSTNAME"]) as Hin.
    { apply dict_get_elem_of in Hknown.
      by apply (list_elem_of_fmap_2 snd) in Hknown. }
    simpl.
    repeat (apply elem_of_cons in Hin as [->|Hin];
            [first [ by exists "N8N" | by exists "WEBUI" | by exists "FLOWISE"
                   | by exists "LANGFUSE" | by exists "NEO4J"
                   | by exists "SEARXNG" | by exists "PORTAINER" ]|]).
    by apply elem_of_nil in Hin.
  - eexists. split; [reflexivity|].
    change (string_forall token_safe_char
              ("$" +:+ string_map token_char service_name +:+ "_HOSTNAME")
            = true).
    rewrite !string_forall_app, string_map_token_safe. reflexivity.
Qed.

Lemma hostname_token_shape_witness :
  exists body,
    _get_hostname_variable Py.ascii_upper "my-app"
    = "$" +:+ body +:+ "_HOSTNAME"
    /\ string_forall token_safe_char
         (_get_hostname_variable Py.ascii_upper "my-app") = true.
Proof.
  apply (hostname_token_shape Py.ascii_upper "my-app"); [reflexivity|].
  intros s _. reflexivity.
Defined.

(** ** The editor, further *)

Lemma host_port_at_Some config name idx port :
  host_port_at config name idx = Some port
  <-> exists items sc ps pc,
        cfg_services config = Some items /\ Dict.get items name = Some sc
        /\ ports sc = Some ps /\ ps !! idx = Some pc /\ host_port pc = port.
Proof.
  unfold host_port_at. split.
  - destruct (cfg_services config) as [items|]; [|done]. simpl.
    destruct (Dict.get items name) as [sc|] eqn:Hsc; [|done]. simpl.
    destruct (ports sc) as [ps|] eqn:Hps; [|done]. simpl.
    destruct (ps !! idx) as [pc|] eqn:Hpc; [|done]. simpl.
    intros [= <-]. by exists items, sc, ps, pc.
  - intros (items & sc & ps & pc & -> & Hsc & Hps & Hpc & <-). simpl.
    rewrite Hsc. simpl. rewrite Hps. simpl. by rewrite Hpc.
Qed.

Lemma edit_single_port_is_Some config items name sc ps idx pc new_ip new_port_str :
  cfg_services config = Some items ->
  Dict.get items name = Some sc ->
  ports sc = Some ps ->
  ps !! idx = Some pc ->
  exists config' answer,
    edit_single_port config name idx new_ip new_port_str
    = Some (config', answer)
    /\ exists pc',
         config' = store_port config name idx pc'
         /\ container_port pc' = container_port pc
         /\ protocol pc' = protocol pc.
Proof.
  intros Hitems Hsc Hps Hpc.
  rewrite (edit_single_port_eq config items name sc ps idx pc) by done.
  destruct (bool_decide (new_port_str = "")); [by eauto 10|].
  destruct (Py.int new_port_str) as [n|]; [|by eauto 10].
  destruct ((1 <=? n) && (n <=? 65535))%Z; [|by eauto 10].
  destruct (bool_decide (n <> host_port pc)); [|by eauto 10].
  destruct (conflict_loop _ _ _ _); by eauto 10.
Qed.

Lemma list_position_in_range (len : nat) (port_index : Z) :
  (- Z.of_nat len <= port_index < Z.of_nat len)%Z ->
  list_position len port_index
  = Some (Z.to_nat (port_index mod Z.of_nat len))
  /\ (Z.to_nat (port_index mod Z.of_nat len) < len)%nat.
Proof.
  intros Hrange. unfold list_position.
  destruct (0 <=? port_index)%Z eqn:Hsign.
  - apply Z.leb_le in Hsign.
    rewrite (proj2 (Z.ltb_lt _ _)) by lia.
    rewrite Z.mod_small by lia. split; [done|lia].
  - apply Z.leb_gt in Hsign.
    rewrite (proj2 (Z.leb_le _ _)) by lia.
    assert (port_index mod Z.of_nat len = Z.of_nat len + port_index)%Z
      as ->.
    { symmetry. apply (Z.mod_unique _ _ (-1)); lia. }
    split; [done|lia].
Qed.

Lemma list_position_out_of_range (len : nat) (port_index : Z) :
  ~ (- Z.of_nat len <= port_index < Z.of_nat len)%Z ->
  list_position len port_index = None.
Proof.
  intros Hout. unfold list_position.
  destruct (0 <=? port_index)%Z eqn:Hsign.
  - apply Z.leb_le in Hsign. by rewrite (proj2 (Z.ltb_ge _ _)) by lia.
  - apply Z.leb_gt in Hsign. by rewrite (proj2 (Z.leb_gt _ _)) by lia.
Qed.

(** X11. [edit_single_port] raises exactly when a key on the way to the port
    mappings of the service is missing (no service map, an unknown service,
    a service without a [ports] key), or the index is outside the range from
    minus the number of mappings to that number less one. With an index in
    this range it returns, whatever the two answers are, and it has edited
    the mapping at that place, a negative index counting from the end. *)
Theorem edit_raises_iff_no_binding (config : Config) (service_name : string)
    (port_index : Z) (new_ip new_port_str : string) :
  match ports_at config service_name with
  | None =>
      edit_single_port_at config service_name port_index new_ip new_port_str
      = None
  | Some ps =>
      if ((- Z.of_nat (length ps) <=? port_index)
          && (port_index <? Z.of_nat (length ps)))%Z
      then
        edit_single_port_at config service_name port_index new_ip
          new_port_str
        = edit_single_port config service_name
            (Z.to_nat (port_index mod Z.of_nat (length ps)))
            new_ip new_port_str
        /\ is_Some
             (edit_single_port_at config service_name port_index new_ip
                new_port_str)
      else
        edit_single_port_at config service_name port_index new_ip
          new_port_str
        = None
  end.
Proof.
  unfold ports_at, edit_single_port_at.
  destruct (cfg_services config) as [items|] eqn:Hitems; [|done]. simpl.
  destruct (Dict.get items service_name) as [sc|] eqn:Hsc; [|done]. simpl.
  destruct (ports sc) as [ps|] eqn:Hps; [|done]. simpl.
  destruct ((- Z.of_nat (length ps) <=? port_index)
            && (port_index <? Z.of_nat (length ps)))%Z eqn:Hrange.
  - apply andb_true_iff in Hrange as [Hlow Hhigh].
    apply Z.leb_le in Hlow. apply Z.ltb_lt in Hhigh.
    destruct (list_position_in_range (length ps) port_index)
      as [-> Hlt]; [done|]. simpl. split; [done|].
    destruct (lookup_lt_is_Some_2 ps _ Hlt) as [pc Hpc].
    destruct (edit_single_port_is_Some config items service_name sc ps _ pc
                new_ip new_port_str Hitems Hsc Hps Hpc)
      as (config' & answer & -> & _).
    by eexists.
  - rewrite list_position_out_of_range; [done|].
    apply andb_false_iff in Hrange as [Hlow|Hhigh].
    + apply Z.leb_gt in Hlow. lia.
    + apply Z.ltb_ge in Hhigh. lia.
Qed.

(** X12. Two empty answers leave the registry as it is. *)
Theorem edit_with_empty_answers_keeps_registry (config : Config)
    (service_name : string) (port_index : nat) (port : Z) :
  host_port_at config service_name port_index = Some port ->
  edit_single_port config service_name port_index "" ""
  = Some (config, PortKept).
Proof.
  intros Hat. apply host_port_at_Some in Hat
    as (items & sc & ps & pc & Hitems & Hsc & Hps & Hpc & _).
  rewrite (edit_single_port_eq config items service_name sc ps port_index pc)
    by done.
  simpl. unfold edited_ip. simpl. rewrite set_host_ip_id.
  by rewrite (store_port_id config items service_name sc ps port_index pc).
Qed.

Lemma edit_with_empty_answers_keeps_registry_witness :
  edit_single_port editor_registry "a" 1 "" "" = Some (editor_registry, PortKept).
Proof.
  exact (edit_with_empty_answers_keeps_registry editor_registry "a" 1 9000
           eq_refl).
Defined.

(** X13. An edit changes nothing but the host address and the host port of
    the binding it edits: the other sections, the order of the service map,
    the other services, the other fields of the service, its other port
    mappings, and the container port and protocol of the edited mapping are
    as before. *)
Theorem edit_changes_only_the_binding (config : Config)
    (items : list (string * Service)) (service_name : string)
    (port_index : nat) (new_ip new_port_str : string)
    (config' : Config) (answer : port_answer) :
  cfg_services config = Some items ->
  edit_single_port config service_name port_index new_ip new_port_str
  = Some (config', answer) ->
  cfg_global config' = cfg_global config
  /\ cfg_profiles config' = cfg_profiles config
  /\ exists items' sc ps pc pc',
       cfg_services config' = Some items'
       /\ items'.*1 = items.*1
       /\ (forall other, other <> service_name ->
             Dict.get items' other = Dict.get items other)
       /\ Dict.get items service_name = Some sc
       /\ ports sc = Some ps
       /\ ps !! port_index = Some pc
       /\ Dict.get items' service_name
          = Some (set_ports (<[port_index := pc']> ps) sc)
       /\ container_port pc' = container_port pc
       /\ protocol pc' = protocol pc.
Proof.
  intros Hitems Hedit.
  assert (is_Some (host_port_at config service_name port_index)) as [port Hat].
  { destruct (host_port_at config service_name port_index) eqn:Hat; [eauto|].
    unfold host_port_at, edit_single_port in *. rewrite Hitems in *.
    simpl in *.
    destruct (Dict.get items service_name) as [sc|]; [|done]. simpl in *.
    destruct (ports sc) as [ps|]; [|done]. simpl in *.
    by destruct (ps !! port_index) as [pc|]. }
  apply host_port_at_Some in Hat
    as (items0 & sc & ps & pc & Hitems0 & Hsc & Hps & Hpc & _).
  assert (items0 = items) as -> by congruence.
  destruct (edit_single_port_is_Some config items service_name sc ps
              port_index pc new_ip new_port_str Hitems Hsc Hps Hpc)
    as (c & a & Heq & pc' & -> & Hcp & Hproto).
  rewrite Heq in Hedit. injection Hedit as <- <-.
  rewrite (store_port_eq config items service_name sc ps) by done.
  split; [done|]. split; [done|].
  eexists _, sc, ps, pc, pc'. split; [done|].
  split; [apply dict_set_keys; eauto|].
  split; [intros other Hother; by rewrite dict_get_set, decide_False|].
  split; [done|]. split; [done|]. split; [done|].
  split; [by rewrite dict_get_set, decide_True|]. done.
Qed.

Lemma edit_changes_only_the_binding_witness :
  cfg_global
    (mk_config
       [("a", mk_service true [mk_port "0.0.0.0" 8000 80;
                               mk_port "127.0.0.1" 9000 90]);
        ("b", mk_service false [mk_port "127.0.0.1" 9000 81]);
        ("c", mk_service true [mk_port "127.0.0.1" 7000 70])])
  = cfg_global editor_registry.
Proof.
  refine (proj1 (edit_changes_only_the_binding editor_registry _ "a" 0
                   "0.0.0.0" "abc" _ PortNotNumeric eq_refl _)).
  vm_compute. reflexivity.
Defined.

(** X14. When the editor reports the host port as updated, the answer is a
    number from 1 to 65535, other than the port the binding had, that no
    other enabled service declares on the binding's host address; the
    registry holds it as the host port of the binding. *)
Theorem updated_port_was_checked (config : Config)
    (items : list (string * Service)) (service_name : string) (sc : Service)
    (ps : list PortMapping) (port_index : nat) (pc : PortMapping)
    (new_ip new_port_str : string) (config' : Config) :
  cfg_services config = Some items ->
  Dict.get items service_name = Some sc ->
  ports sc = Some ps ->
  ps !! port_index = Some pc ->
  edit_single_port config service_name port_index new_ip new_port_str
  = Some (config', PortUpdated) ->
  exists n,
    Py.int new_port_str = Some n
    /\ 1 <= n <= 65535
    /\ n <> host_port pc
    /\ ~ other_enabled_declares items service_name (edited_ip new_ip pc) n
    /\ host_port_at config' service_name port_index = Some n.
Proof.
  intros Hitems Hsc Hps Hpc.
  rewrite (edit_single_port_eq config items service_name sc ps port_index pc)
    by done.
  destruct (bool_decide (new_port_str = "")); [done|].
  destruct (Py.int new_port_str) as [n|]; [|done].
  destruct ((1 <=? n) && (n <=? 65535))%Z eqn:Hrange; [|done].
  case_bool_decide as Hne; [|done].
  destruct (conflict_loop items service_name (edited_ip new_ip pc) n)
    eqn:Hloop; [done|].
  intros [= <-]. exists n. split; [done|].
  apply andb_true_iff in Hrange as [H1 H2].
  apply Z.leb_le in H1, H2. split; [lia|]. split; [done|]. split.
  - intros Htaken. apply conflict_loop_true in Htaken. congruence.
  - rewrite (store_port_eq config items service_name sc ps) by done.
    unfold host_port_at. simpl. rewrite dict_get_set, decide_True by done.
    simpl. by rewrite list_lookup_insert_eq by (by eapply lookup_lt_Some).
Qed.

Lemma updated_port_was_checked_witness :
  exists n,
    Py.int "9000" = Some n
    /\ 1 <= n <= 65535
    /\ n <> 8000
    /\ ~ other_enabled_declares
           [("a", mk_service true [mk_port "127.0.0.1" 8000 80;
                                   mk_port "127.0.0.1" 9000 90]);
            ("b", mk_service false [mk_port "127.0.0.1" 9000 81]);
            ("c", mk_service true [mk_port "127.0.0.1" 7000 70])]
           "a" "127.0.0.1" n
    /\ host_port_at
         (mk_config
            [("a", mk_service true [mk_port "127.0.0.1" 9000 80;
                                    mk_port "127.0.0.1" 9000 90]);
             ("b", mk_service false [mk_port "127.0.0.1" 9000 81]);
             ("c", mk_service true [mk_port "127.0.0.1" 7000 70])])
         "a" 0
       = Some n.
Proof.
  refine (updated_port_was_checked editor_registry _ "a" _ _ 0
            (mk_port "127.0.0.1" 8000 80) "" "9000" _
            eq_refl eq_refl eq_refl eq_refl _).
  vm_compute. reflexivity.
Defined.

(** ** Toggling, validation and resolution *)

(** Where [d[k] = v'] writes when [k] is a key. *)
Lemma dict_set_split {V} (d : list (string * V)) k v :
  Dict.get d k = Some v ->
  exists l1 l2,
    d = l1 ++ (k, v) :: l2 /\ (k ∉ l1.*1)
    /\ forall v', Dict.set d k v' = l1 ++ (k, v') :: l2.
Proof.
  induction d as [|[k0 v0] d IH]; [done|]. simpl Dict.get.
  destruct (decide (k0 = k)) as [->|Hne].
  - intros [= ->]. exists [], d. split; [done|].
    split; [apply not_elem_of_nil|]. intros v'. simpl. by rewrite decide_True.
  - intros Hget. destruct (IH Hget) as (l1 & l2 & -> & Hk & Hset).
    exists ((k0, v0) :: l1), l2. split; [done|]. split.
    + rewrite fmap_cons, not_elem_of_cons. done.
    + intros v'. simpl. by rewrite decide_False, Hset.
Qed.

Lemma enabled_bindings_app l1 l2 :
  enabled_bindings (l1 ++ l2) = enabled_bindings l1 ++ enabled_bindings l2.
Proof. unfold enabled_bindings. apply flat_map_app. Qed.

Lemma resolve_set_services config items' profile :
  get_enabled_services (set_services items' config) profile
  = Some (List.filter (selects config profile) items').*1.
Proof.
  by rewrite (get_enabled_services_filter _ _ items').
Qed.

Lemma validate_set_services config items items' :
  cfg_services config = Some items ->
  enabled_bindings items' = enabled_bindings items ->
  validate_config (set_services items' config) = validate_config config.
Proof.
  intros Hitems Hsame. unfold validate_config. simpl. rewrite Hitems.
  destruct (cfg_global config); [|done].
  destruct (cfg_profiles config); [|done].
  by rewrite !scan_services_bindings, Hsame.
Qed.

(** X15. Two toggles of the same name in a row are not seen by validation
    nor by resolution: both return what they returned before the first
    toggle, also for a service that was stored without the [enabled] flag. *)
Theorem toggle_twice_is_not_observed (config : Config)
    (items : list (string * Service)) (service_name : string)
    (config2 : Config) :
  cfg_services config = Some items ->
  toggle_twice config service_name = Some config2 ->
  validate_config config2 = validate_config config
  /\ forall profile,
       get_enabled_services config2 profile
       = get_enabled_services config profile.
Proof.
  intros Hitems Htwice.
  destruct (Dict.get items service_name) as [sc|] eqn:Hsc.
  - rewrite (toggle_twice_eq _ _ _ _ Hitems Hsc) in Htwice.
    injection Htwice as <-.
    destruct (dict_set_split items service_name sc Hsc)
      as (l1 & l2 & -> & _ & Hset).
    rewrite Hset. split.
    + apply (validate_set_services _ _ _ Hitems).
      rewrite !enabled_bindings_app. by f_equal.
    + intros profile.
      rewrite resolve_set_services, (get_enabled_services_filter _ _ _ Hitems).
      f_equal. rewrite !List.filter_app, !fmap_app. f_equal. simpl.
      replace (selects config profile
                 (service_name, set_enabled (is_enabled sc) sc))
        with (selects config profile (service_name, sc)); [|done].
      by destruct (selects config profile (service_name, sc)).
  - unfold toggle_twice, toggle_service in Htwice.
    rewrite Hitems in Htwice. simpl in Htwice. rewrite Hsc in Htwice.
    simpl in Htwice. rewrite Hitems in Htwice. simpl in Htwice.
    rewrite Hsc in Htwice. by injection Htwice as <-.
Qed.

Lemma toggle_twice_is_not_observed_witness :
  validate_config
    (mk_config [("a", {| enabled := Some false; category := None;
                         description := None; ports := None;
                         profiles := None; reverse_proxy := None |})])
  = validate_config unflagged_registry
  /\ forall profile,
       get_enabled_services
         (mk_config [("a", {| enabled := Some false; category := None;
                              description := None; ports := None;
                              profiles := None; reverse_proxy := None |})])
         profile
       = get_enabled_services unflagged_registry profile.
Proof.
  refine (toggle_twice_is_not_observed unflagged_registry _ "a" _ eq_refl _).
  vm_compute. reflexivity.
Defined.

Lemma without_absent name (l : list string) :
  name ∉ l -> without name l = l.
Proof.
  unfold without. induction l as [|n l IH]; [done|].
  rewrite not_elem_of_cons. intros [Hne Hl]. simpl.
  rewrite bool_decide_eq_true_2 by done. by rewrite IH.
Qed.

Lemma selected_names_absent {A} (f : string * A -> bool)
    (l : list (string * A)) name :
  name ∉ l.*1 -> name ∉ (List.filter f l).*1.
Proof.
  intros Hout Hin. apply Hout.
  eapply elem_of_sublist; [exact Hin|apply filter_names_sublist].
Qed.

(** X16. When the keys of the service map are pairwise different, toggling
    an enabled service takes its name, and no other, out of the list
    resolved for every profile. *)
Theorem disabling_removes_from_every_profile (config : Config)
    (items : list (string * Service)) (service_name : string) (sc : Service)
    (config' : Config) (profile : option string) :
  cfg_services config = Some items ->
  NoDup items.*1 ->
  Dict.get items service_name = Some sc ->
  is_enabled sc = true ->
  toggle_service config service_name = Some config' ->
  get_enabled_services config' profile
  = without service_name <$> get_enabled_services config profile.
Proof.
  intros Hitems Hkeys Hsc Hon Htoggle.
  rewrite (toggle_service_eq _ _ _ _ Hitems Hsc) in Htoggle.
  injection Htoggle as <-.
  rewrite resolve_set_services, (get_enabled_services_filter _ _ _ Hitems).
  simpl. f_equal.
  destruct (dict_set_split items service_name sc Hsc)
    as (l1 & l2 & -> & Hl1 & Hset).
  rewrite Hset, !List.filter_app, !fmap_app.
  assert (service_name ∉ l2.*1) as Hl2.
  { rewrite fmap_app, fmap_cons in Hkeys. simpl in Hkeys.
    apply NoDup_app in Hkeys as (_ & _ & Hkeys).
    by apply NoDup_cons in Hkeys as [? _]. }
  assert (forall a b, without service_name (a ++ b)
                      = without service_name a ++ without service_name b)
    as Happ by (intros; apply List.filter_app).
  rewrite Happ, (without_absent _ (List.filter _ l1).*1)
    by (by apply selected_names_absent).
  f_equal. cbn [List.filter].
  assert (selects config profile
            (service_name, set_enabled (negb (is_enabled sc)) sc) = false)
    as ->.
  { unfold selects. simpl. rewrite Hon. done. }
  assert (without service_name (List.filter (selects config profile) l2).*1
          = (List.filter (selects config profile) l2).*1) as Hrest.
  { by apply without_absent, selected_names_absent. }
  destruct (selects config profile (service_name, sc)); [|by rewrite Hrest].
  rewrite fmap_cons. unfold without in *. simpl.
  rewrite bool_decide_eq_false_2 by (intros Hne; by apply Hne).
  by rewrite Hrest.
Qed.

Lemma disabling_removes_from_every_profile_witness :
  get_enabled_services
    (mk_config
       [("a", mk_service false [mk_port "127.0.0.1" 8000 80;
                                mk_port "127.0.0.1" 9000 90]);
        ("b", mk_service false [mk_port "127.0.0.1" 9000 81]);
        ("c", mk_service true [mk_port "127.0.0.1" 7000 70])])
    (Some "all")
  = without "a" <$> get_enabled_services editor_registry (Some "all").
Proof.
  refine (disabling_removes_from_every_profile editor_registry _ "a" _ _
            (Some "all") eq_refl _ eq_refl eq_refl _).
  - apply (bool_decide_unpack (NoDup _)). vm_compute. exact I.
  - vm_compute. reflexivity.
Defined.

(** ** Substitution, further *)

Lemma substitute_recursive_map value obj :
  substitute_recursive (JString value) obj
  = Some (json_map_strings (Py.replace placeholder value) obj).
Proof.
  induction obj as [| | | | |elements IH|members IH] using json_nested_ind;
    try done.
  - rewrite substitute_recursive_array. simpl json_map_strings.
    apply fmap_Some. eexists. split; [|done].
    apply mapM_Some_2. induction IH as [|x l Hx _ IHl]; constructor; done.
  - rewrite substitute_recursive_object. simpl json_map_strings.
    apply fmap_Some. eexists. split; [|done].
    apply mapM_Some_2. induction IH as [|[k v] l Hx _ IHl]; constructor;
      [|done].
    unfold substitute_member. simpl in *. by rewrite Hx.
Qed.

Lemma json_strings_map f j :
  json_strings (json_map_strings f j) = map f (json_strings j).
Proof.
  induction j as [| | | | |elements IH|members IH] using json_nested_ind;
    try done.
  - simpl. induction IH as [|x l Hx _ IHl]; [done|].
    simpl. by rewrite map_app, Hx, IHl.
  - simpl. induction IH as [|[k v] l Hx _ IHl]; [done|].
    simpl in *. by rewrite map_app, Hx, IHl.
Qed.

Lemma json_map_strings_id f j :
  (forall s, s ∈ json_strings j -> f s = s) -> json_map_strings f j = j.
Proof.
  induction j as [| | | |s|elements IH|members IH] using json_nested_ind;
    intros Hf; try done.
  - simpl. f_equal. apply Hf. apply list_elem_of_here.
  - simpl in *. f_equal.
    induction IH as [|x l Hx _ IHl]; [done|]. simpl in *.
    rewrite Hx, IHl; [done|..]; intros s Hs; apply Hf, elem_of_app; auto.
  - simpl in *. f_equal.
    induction IH as [|[k v] l Hx _ IHl]; [done|]. simpl in *.
    rewrite Hx, IHl; [done|..]; intros s Hs; apply Hf, elem_of_app; auto.
Qed.

(** X17. With a string for default host address, the pass returns the
    registry with every string value replaced by [str.replace] of the
    placeholder and nothing else touched: the keys, the numbers, booleans
    and nulls, and the number and order of members and elements stay. *)
Theorem substitution_rewrites_string_values_only (config : json)
    (value : string) :
  resolved_default_host_ip config = Some (JString value) ->
  _substitute_variables config
  = Some (json_map_strings (Py.replace placeholder value) config).
Proof.
  intros Hdefault. unfold _substitute_variables. rewrite Hdefault. simpl.
  apply substitute_recursive_map.
Qed.

Lemma substitution_rewrites_string_values_only_witness :
  _substitute_variables lan_registry
  = Some (json_map_strings (Py.replace placeholder "192.168.1.10")
            lan_registry).
Proof.
  exact (substitution_rewrites_string_values_only lan_registry
           "192.168.1.10" eq_refl).
Defined.

(** X18. After the pass with a settled default host address (not empty, no
    [$], first character not in the placeholder), no string value of the
    registry contains the placeholder any more. *)
Theorem substitution_leaves_no_placeholder (config : json) (value : string)
    (once : json) (s : string) :
  resolved_default_host_ip config = Some (JString value) ->
  settled_default value = true ->
  _substitute_variables config = Some once ->
  s ∈ json_strings once ->
  Py.occurs_in placeholder s = false.
Proof.
  intros Hdefault Hsettled Honce Hs.
  unfold _substitute_variables in Honce. rewrite Hdefault in Honce.
  simpl in Honce. rewrite substitute_recursive_map in Honce.
  injection Honce as <-. rewrite json_strings_map in Hs.
  apply list_elem_of_fmap in Hs as (s0 & -> & _).
  destruct value as [|n new']; [done|].
  apply andb_true_iff in Hsettled as [Hdollar Hfirst].
  apply negb_true_iff in Hdollar, Hfirst.
  change (Py.has_char n placeholder)
    with (bool_decide ("$"%char = n) || Py.has_char n "{default_host_ip}")
    in Hfirst.
  apply orb_false_iff in Hfirst as [_ Hrest].
  by apply (replace_from_no_occurrence "$" "{default_host_ip}" n new').
Qed.

Lemma substitution_leaves_no_placeholder_witness :
  Py.occurs_in placeholder "n8n on 192.168.1.10:5678" = false.
Proof.
  refine (substitution_leaves_no_placeholder lan_registry "192.168.1.10"
            _ _ eq_refl eq_refl substitute_lan_registry _).
  simpl. do 2 apply list_elem_of_further. apply list_elem_of_here.
Defined.

(** X19. A registry none of whose string values contains the placeholder is
    returned unchanged by the pass, whatever string the default host
    address is. *)
Theorem substitution_without_placeholder_is_identity (config : json)
    (value : string) :
  resolved_default_host_ip config = Some (JString value) ->
  (forall s, s ∈ json_strings config -> Py.occurs_in placeholder s = false) ->
  _substitute_variables config = Some config.
Proof.
  intros Hdefault Hfree. unfold _substitute_variables.
  rewrite Hdefault. simpl. rewrite substitute_recursive_map. f_equal.
  apply json_map_strings_id. intros s Hs.
  by apply replace_from_without_occurrence, Hfree.
Qed.

Lemma substitution_without_placeholder_is_identity_witness :
  _substitute_variables plain_registry = Some plain_registry.
Proof.
  refine (substitution_without_placeholder_is_identity plain_registry ""
            eq_refl _).
  intros s Hs. simpl in Hs.
  apply elem_of_cons in Hs as [->|Hs]; [reflexivity|].
  apply list_elem_of_singleton in Hs as ->. reflexivity.
Defined.

Lemma substitute_recursive_not_string d obj :
  (forall value, d <> JString value) ->
  substitute_recursive d obj
  = match json_strings obj with [] => Some obj | _ => None end.
Proof.
  intros Hd.
  induction obj as [| | | |s|elements IH|members IH] using json_nested_ind;
    try done.
  - simpl. destruct d; try done. by destruct (Hd s0).
  - rewrite substitute_recursive_array. simpl json_strings.
    induction IH as [|x l Hx _ IHl]; [done|].
    simpl. rewrite Hx. destruct (json_strings x); simpl; [|done].
    destruct (mapM _ l) as [l'|]; simpl in *.
    + destruct (flat_map json_strings l); [|done]. by injection IHl as ->.
    + by destruct (flat_map json_strings l).
  - rewrite substitute_recursive_object. simpl json_strings.
    induction IH as [|[k v] l Hx _ IHl]; [done|].
    simpl in *.
    change (substitute_member d (k, v))
      with (substitute_recursive d v ≫= fun value => Some (k, value)).
    rewrite Hx. destruct (json_strings v); simpl; [|done].
    destruct (mapM _ l) as [l'|]; simpl in *.
    + destruct (flat_map _ l); [|done]. by injection IHl as ->.
    + by destruct (flat_map _ l).
Qed.

(** X20. When the default host address of the registry is not a string, the
    pass raises as soon as the registry holds one string value, and returns
    the registry unchanged when it holds none. *)
Theorem substitution_with_non_string_default (config d : json) :
  resolved_default_host_ip config = Some d ->
  (forall value, d <> JString value) ->
  _substitute_variables config
  = match json_strings config with [] => Some config | _ => None end.
Proof.
  intros Hdefault Hd. unfold _substitute_variables. rewrite Hdefault. simpl.
  by apply substitute_recursive_not_string.
Qed.

Lemma substitution_with_non_string_default_witness :
  _substitute_variables numeric_default_registry
  = Some numeric_default_registry.
Proof.
  refine (substitution_with_non_string_default numeric_default_registry
            (JInt 8080) eq_refl _).
  discriminate.
Defined.

(** ** The editor and validation *)

Lemma insert_elem_of {A} (l : list A) (i : nat) (x y : A) :
  y ∈ <[i := x]> l -> y = x \/ y ∈ l.
Proof.
  intros Hy. apply list_elem_of_lookup in Hy as [j Hj].
  apply list_lookup_insert_Some in Hj as [(_ & -> & _)|[_ Hj]]; [by left|].
  right. by eapply list_elem_of_lookup_2.
Qed.

Lemma NoDup_insert_fresh {A} (l : list A) (i : nat) (x : A) :
  NoDup l ->
  (forall j, j <> i -> l !! j <> Some x) ->
  NoDup (<[i := x]> l).
Proof.
  rewrite !NoDup_alt. intros Hl Hfresh j k y Hj Hk.
  apply list_lookup_insert_Some in Hj as [(Hij & Hxy & _)|[Hji Hj]];
    apply list_lookup_insert_Some in Hk as [(Hik & Hxy' & _)|[Hki Hk]].
  - congruence.
  - subst. destruct (Hfresh k); [congruence|done].
  - subst. destruct (Hfresh j); [congruence|done].
  - by apply (Hl j k y).
Qed.

Lemma edit_updated_inv config items name sc ps idx pc new_ip new_port_str
    config' :
  cfg_services config = Some items ->
  Dict.get items name = Some sc ->
  ports sc = Some ps ->
  ps !! idx = Some pc ->
  edit_single_port config name idx new_ip new_port_str
  = Some (config', PortUpdated) ->
  exists n,
    Py.int new_port_str = Some n
    /\ 1 <= n <= 65535
    /\ n <> host_port pc
    /\ ~ other_enabled_declares items name (edited_ip new_ip pc) n
    /\ config'
       = store_port config name idx
           (set_host_port n (set_host_ip (edited_ip new_ip pc) pc)).
Proof.
  intros Hitems Hsc Hps Hpc.
  rewrite (edit_single_port_eq config items name sc ps idx pc) by done.
  destruct (bool_decide (new_port_str = "")); [done|].
  destruct (Py.int new_port_str) as [n|]; [|done].
  destruct ((1 <=? n) && (n <=? 65535))%Z eqn:Hrange; [|done].
  case_bool_decide as Hne; [|done].
  destruct (conflict_loop items name (edited_ip new_ip pc) n)
    eqn:Hloop; [done|].
  intros [= <-]. exists n. split; [done|].
  apply andb_true_iff in Hrange as [H1 H2].
  apply Z.leb_le in H1, H2. split; [lia|]. split; [done|]. split; [|done].
  intros Htaken. apply conflict_loop_true in Htaken. congruence.
Qed.

(** The pairs of the enabled bindings of the services of [l], when none of
    them is called [name], are not declared by an enabled service other
    than [name] only if they are not the pair asked about. *)
Lemma pair_of_other_service items l name ip n :
  (forall item, item ∈ l -> item ∈ items) ->
  name ∉ l.*1 ->
  ~ other_enabled_declares items name ip n ->
  (ip, n) ∉ map host_pair (enabled_bindings l).*2.
Proof.
  intros Hl Hname Hfree Hin.
  apply list_elem_of_fmap in Hin as (p & Hp & Hin).
  apply list_elem_of_fmap in Hin as ([a p'] & -> & Hin). simpl in Hp.
  apply elem_of_enabled_bindings in Hin as (sc & Hsc & Hon & Hport).
  apply Hfree. exists a, sc, p'. split; [by apply Hl|]. split.
  - intros ->. apply Hname. by apply (list_elem_of_fmap_2 fst _ (name, sc)).
  - unfold host_pair in Hp. injection Hp as -> ->. done.
Qed.

(** X21. When the keys of the service map are pairwise different and the
    registry passes validation, it still passes after an edit that the
    editor reports as updated, provided the edited service does not itself
    declare the new [(host_ip, host_port)] pair in another of its mappings
    (the one collision the editor does not look for). *)
Theorem accepted_port_keeps_registry_valid (config : Config)
    (items : list (string * Service)) (service_name : string) (sc : Service)
    (ps : list PortMapping) (port_index : nat) (pc : PortMapping)
    (new_ip new_port_str : string) (config' : Config) :
  cfg_services config = Some items ->
  NoDup items.*1 ->
  Dict.get items service_name = Some sc ->
  ports sc = Some ps ->
  ps !! port_index = Some pc ->
  validate_config config = ValidationPassed ->
  edit_single_port config service_name port_index new_ip new_port_str
  = Some (config', PortUpdated) ->
  (forall n (j : nat) q,
     Py.int new_port_str = Some n -> j <> port_index -> ps !! j = Some q ->
     host_pair q <> (edited_ip new_ip pc, n)) ->
  validate_config config' = ValidationPassed.
Proof.
  intros Hitems Hkeys Hsc Hps Hpc Hvalid Hedit Hown.
  destruct (edit_updated_inv _ _ _ _ _ _ _ _ _ _ Hitems Hsc Hps Hpc Hedit)
    as (n & Hint & _ & _ & Hfree & ->).
  specialize (Hown n). set (ip := edited_ip new_ip pc) in *.
  rewrite (store_port_eq config items service_name sc ps) by done.
  apply validate_config_passed_iff in Hvalid as [Hsec Hnodup].
  rewrite Hitems in Hnodup. simpl in Hnodup.
  apply validate_config_passed_iff. split.
  { destruct Hsec as (? & ? & ?). unfold has_sections. simpl. eauto. }
  simpl.
  destruct (dict_set_split items service_name sc Hsc)
    as (l1 & l2 & -> & Hl1 & Hset).
  rewrite Hset. clear Hset.
  assert (service_name ∉ l2.*1) as Hl2.
  { rewrite fmap_app, fmap_cons in Hkeys. simpl in Hkeys.
    apply NoDup_app in Hkeys as (_ & _ & Hkeys).
    by apply NoDup_cons in Hkeys as [? _]. }
  assert ((ip, n) ∉ map host_pair (enabled_bindings l1).*2) as Hnew1.
  { apply (pair_of_other_service (l1 ++ (service_name, sc) :: l2) l1
             service_name); [|done..].
    intros item Hin. apply elem_of_app. by left. }
  assert ((ip, n) ∉ map host_pair (enabled_bindings l2).*2) as Hnew2.
  { apply (pair_of_other_service (l1 ++ (service_name, sc) :: l2) l2
             service_name); [|done..].
    intros item Hin. apply elem_of_app. right. by apply list_elem_of_further. }
  rewrite !enabled_bindings_app in *.
  change (enabled_bindings ((service_name, sc) :: l2))
    with ((if is_enabled sc
           then map (pair service_name) (ports_of sc) else [])
            ++ enabled_bindings l2) in Hnodup.
  change (enabled_bindings
            ((service_name,
              set_ports
                (<[port_index:=set_host_port n (set_host_ip ip pc)]> ps) sc)
               :: l2))
    with ((if is_enabled sc
           then map (pair service_name)
                  (<[port_index:=set_host_port n (set_host_ip ip pc)]> ps)
           else [])
            ++ enabled_bindings l2).
  destruct (is_enabled sc); [|done].
  unfold ports_of in Hnodup. rewrite Hps in Hnodup. simpl in Hnodup.
  assert (forall l : list PortMapping, (map (pair service_name) l).*2 = l)
    as Hsnd.
  { intros l. rewrite <- list_fmap_compose. apply list_fmap_id. }
  rewrite ?fmap_app, ?map_app, Hsnd in Hnodup.
  rewrite ?fmap_app, ?map_app, Hsnd.
  change (map host_pair (<[port_index:=set_host_port n (set_host_ip ip pc)]> ps))
    with (host_pair <$> <[port_index:=set_host_port n (set_host_ip ip pc)]> ps).
  rewrite list_fmap_insert.
  change (host_pair (set_host_port n (set_host_ip ip pc))) with (ip, n).
  apply NoDup_app in Hnodup as (Hd1 & Hsep1 & Hnodup).
  apply NoDup_app in Hnodup as (Hdm & Hsep2 & Hd2).
  apply NoDup_app. split; [done|]. split.
  - intros x Hx Hin. apply elem_of_app in Hin as [Hin|Hin].
    + apply insert_elem_of in Hin as [->|Hin]; [done|].
      apply (Hsep1 x Hx), elem_of_app. by left.
    + apply (Hsep1 x Hx), elem_of_app. by right.
  - apply NoDup_app. split; [|split; [|done]].
    + apply NoDup_insert_fresh; [done|].
      intros j Hj Hlook. change (map host_pair ps) with (host_pair <$> ps) in Hlook.
      rewrite list_lookup_fmap in Hlook.
      destruct (ps !! j) as [q|] eqn:Hq; [|done].
      simpl in Hlook. apply (Hown j q Hint Hj Hq). congruence.
    + intros x Hx. apply insert_elem_of in Hx as [->|Hx]; [done|].
      by apply Hsep2.
Qed.

Lemma accepted_port_keeps_registry_valid_witness :
  validate_config
    (mk_config
       [("a", mk_service true [mk_port "127.0.0.1" 8000 80;
                               mk_port "127.0.0.1" 9000 90]);
        ("b", mk_service false [mk_port "127.0.0.1" 9000 81]);
        ("c", mk_service true [mk_port "10.0.0.1" 9000 70])])
  = ValidationPassed.
Proof.
  refine (accepted_port_keeps_registry_valid editor_registry _ "c" _ _ 0
            (mk_port "127.0.0.1" 7000 70) "10.0.0.1" "9000" _
            eq_refl _ eq_refl eq_refl eq_refl _ _ _).
  - apply (bool_decide_unpack (NoDup _)). vm_compute. exact I.
  - vm_compute. reflexivity.
  - vm_compute. reflexivity.
  - intros n [|j] q _ Hj Hq; [done|]. discriminate Hq.
Defined.

(** ** The menus of the editor *)

Lemma flat_map_Permutation {A B} (f : A -> list B) (l1 l2 : list A) :
  l1 ≡ₚ l2 -> flat_map f l1 ≡ₚ flat_map f l2.
Proof.
  induction 1 as [|x l1 l2 _ IH|x y l|l1 l2 l3 _ IH1 _ IH2]; simpl.
  - done.
  - by rewrite IH.
  - rewrite !app_assoc. by rewrite (Permutation_app_comm (f y) (f x)).
  - by rewrite IH1.
Qed.

Lemma insert_sorted_Permutation {V} (e : string * V) l :
  insert_sorted e l ≡ₚ e :: l.
Proof.
  induction l as [|e' l IH]; simpl; [done|].
  destruct (String.leb e.1 e'.1); [done|]. rewrite IH. apply perm_swap.
Qed.

Lemma sorted_items_Permutation {V} (l : list (string * V)) :
  sorted_items l ≡ₚ l.
Proof.
  induction l as [|e l IH]; simpl; [done|].
  by rewrite insert_sorted_Permutation, IH.
Qed.

Lemma group_step_Permutation
    (categories : list (string * list (string * Service))) category x :
  flat_map snd
    (Dict.set
       match Dict.get categories category with
       | None => Dict.set categories category []
       | Some _ => categories
       end
       category
       (default []
          (Dict.get
             match Dict.get categories category with
             | None => Dict.set categories category []
             | Some _ => categories
             end category) ++ [x]))
  ≡ₚ flat_map snd categories ++ [x].
Proof.
  destruct (Dict.get categories category) as [l|] eqn:Hget.
  - rewrite Hget. simpl.
    destruct (dict_set_split _ _ _ Hget) as (l1 & l2 & -> & _ & Hset).
    rewrite Hset, !flat_map_app. simpl. rewrite <- !app_assoc.
    apply Permutation_app_head, Permutation_app_head, Permutation_app_comm.
  - rewrite dict_get_set, decide_True by done. simpl.
    rewrite dict_set_set, dict_set_fresh by done.
    rewrite flat_map_app. simpl. done.
Qed.

Lemma group_loop_Permutation items categories :
  flat_map snd (group_loop items categories)
  ≡ₚ flat_map snd categories ++ items.
Proof.
  revert categories. induction items as [|[name sc] rest IH];
    intros categories.
  - simpl. by rewrite app_nil_r.
  - simpl group_loop. rewrite IH, group_step_Permutation.
    by rewrite <- app_assoc.
Qed.

Lemma number_services_spec service_list service_index m :
  number_services service_list service_index m
  = (service_index + Z.of_nat (length service_list),
     m ++ zip ((fun k => service_index + Z.of_nat k)
                 <$> seq 0 (length service_list))
              service_list.*1).
Proof.
  revert service_index m.
  induction service_list as [|[name sc] rest IH]; intros service_index m.
  - simpl. by rewrite Z.add_0_r, app_nil_r.
  - simpl number_services. rewrite IH. f_equal; [simpl length; lia|].
    rewrite <- app_assoc. f_equal. simpl. rewrite Z.add_0_r. f_equal.
    rewrite <- seq_shift, <- !list_fmap_compose. f_equal.
    apply list_fmap_ext. intros _ k _. simpl. lia.
Qed.

Lemma number_categories_spec categories service_index m :
  number_categories categories service_index m
  = m ++ zip ((fun k => service_index + Z.of_nat k)
                <$> seq 0 (length (flat_map snd categories)))
             (flat_map snd categories).*1.
Proof.
  revert service_index m.
  induction categories as [|[category service_list] rest IH];
    intros service_index m.
  - simpl. by rewrite app_nil_r.
  - simpl number_categories. rewrite number_services_spec, IH.
    rewrite <- app_assoc. f_equal. simpl flat_map.
    rewrite length_app, seq_app, !fmap_app.
    rewrite zip_with_app by (by rewrite !length_fmap, length_seq).
    f_equal. f_equal. simpl.
    pose proof (fmap_add_seq (length service_list) 0) as Hseq.
    rewrite Nat.add_0_r in Hseq. rewrite <- Hseq.
    rewrite <- !list_fmap_compose. apply list_fmap_ext. intros _ k _.
    simpl. lia.
Qed.

Lemma service_index_map_spec items :
  service_index_map items
  = zip ((fun k => Z.of_nat k) <$> seq 1 (length items))
        (flat_map snd (sorted_items (group_loop items []))).*1.
Proof.
  unfold service_index_map. rewrite number_categories_spec. simpl.
  assert (length (flat_map snd (sorted_items (group_loop items [])))
          = length items) as ->.
  { apply Permutation_length.
    rewrite (flat_map_Permutation _ _ _ (sorted_items_Permutation _)).
    by rewrite group_loop_Permutation. }
  f_equal. rewrite <- seq_shift, <- list_fmap_compose.
  apply list_fmap_ext. intros _ k _. simpl. lia.
Qed.

Lemma index_get_Some m choice_num name :
  index_get m choice_num = Some name -> (choice_num, name) ∈ m.
Proof.
  induction m as [|[k n] m IH]; simpl; [done|].
  case_bool_decide as Hk.
  - intros [= ->]. subst k. apply elem_of_cons. by left.
  - intros Hget. apply elem_of_cons. right. by apply IH.
Qed.

Lemma index_get_None m choice_num :
  index_get m choice_num = None <-> choice_num ∉ m.*1.
Proof.
  induction m as [|[k n] m IH]; simpl.
  - split; [intros _; apply not_elem_of_nil|done].
  - case_bool_decide as Hk.
    + split; [done|]. intros Hnot. exfalso. apply Hnot.
      apply elem_of_cons. by left.
    + rewrite IH, not_elem_of_cons. split; [by split; [congruence|]|by intros [_ ?]].
Qed.

Lemma service_index_map_numbers items :
  (service_index_map items).*1 = Z.of_nat <$> seq 1 (length items).
Proof.
  rewrite service_index_map_spec. apply fst_zip.
  rewrite !length_fmap, length_seq.
  apply Nat.eq_le_incl, eq_sym, Permutation_length.
  rewrite (flat_map_Permutation _ _ _ (sorted_items_Permutation _)).
  by rewrite group_loop_Permutation.
Qed.

Lemma service_index_map_names items :
  (service_index_map items).*2 ≡ₚ items.*1.
Proof.
  assert (flat_map snd (sorted_items (group_loop items [])) ≡ₚ items)
    as Hperm.
  { rewrite (flat_map_Permutation _ _ _ (sorted_items_Permutation _)).
    by rewrite group_loop_Permutation. }
  rewrite service_index_map_spec, snd_zip.
  - by rewrite Hperm.
  - rewrite !length_fmap, length_seq. apply Nat.eq_le_incl.
    by apply Permutation_length.
Qed.

Lemma elem_of_numbers (k : Z) (n : nat) :
  k ∈ Z.of_nat <$> seq 1 n <-> 1 <= k <= Z.of_nat n.
Proof.
  rewrite list_elem_of_fmap. split.
  - intros (i & -> & Hi). apply elem_of_seq in Hi. lia.
  - intros Hk. exists (Z.to_nat k). split; [lia|]. apply elem_of_seq. lia.
Qed.

Lemma read_choice_chosen items choice name :
  read_choice items choice = MenuChosen name ->
  exists choice_num,
    Py.int choice = Some choice_num
    /\ 1 <= choice_num <= Z.of_nat (length items)
    /\ name ∈ items.*1.
Proof.
  unfold read_choice. destruct (Py.int choice) as [k|]; [|done].
  case_bool_decide; [done|].
  destruct (index_get (service_index_map items) k) as [n|] eqn:Hget; [|done].
  intros [= ->]. apply index_get_Some in Hget. exists k. split; [done|].
  split.
  - apply elem_of_numbers. rewrite <- service_index_map_numbers.
    apply list_elem_of_fmap. by exists (k, name).
  - rewrite <- service_index_map_names. apply list_elem_of_fmap.
    by exists (k, name).
Qed.

Lemma read_choice_in_range items choice choice_num :
  Py.int choice = Some choice_num ->
  1 <= choice_num <= Z.of_nat (length items) ->
  exists name, read_choice items choice = MenuChosen name.
Proof.
  intros Hint Hrange. unfold read_choice. rewrite Hint.
  rewrite bool_decide_false by lia.
  destruct (index_get (service_index_map items) choice_num) as [n|] eqn:Hget;
    [by eexists|].
  apply index_get_None in Hget. exfalso. apply Hget.
  rewrite service_index_map_numbers. by apply elem_of_numbers.
Qed.

(** X22. [handle_toggle_service] does not raise on a registry with a service
    map. An answer that is a number from 1 to the number of services flips
    the flag of one service of the registry; after any other answer the
    registry is as before. *)
Theorem handle_toggle_flips_a_listed_service (config : Config)
    (items : list (string * Service)) (choice : string) :
  cfg_services config = Some items ->
  exists config' answer,
    handle_toggle_service config choice = Some (config', answer)
    /\ (forall choice_num,
          Py.int choice = Some choice_num ->
          1 <= choice_num <= Z.of_nat (length items) ->
          exists service_name, answer = MenuChosen service_name)
    /\ match answer with
       | MenuChosen service_name =>
           exists choice_num service_config,
             Py.int choice = Some choice_num
             /\ 1 <= choice_num <= Z.of_nat (length items)
             /\ Dict.get items service_name = Some service_config
             /\ config'
                = set_services
                    (Dict.set items service_name
                       (set_enabled (negb (is_enabled service_config))
                          service_config))
                    config
       | _ => config' = config
       end.
Proof.
  intros Hitems. unfold handle_toggle_service. rewrite Hitems. simpl.
  destruct (read_choice items choice) as [| | |name] eqn:Hread.
  - exists config, MenuNotANumber. split; [done|]. split; [|done].
    intros k Hint Hk.
    destruct (read_choice_in_range items choice k Hint Hk) as [n Hn].
    congruence.
  - exists config, MenuCancelled. split; [done|]. split; [|done].
    intros k Hint Hk.
    destruct (read_choice_in_range items choice k Hint Hk) as [n Hn].
    congruence.
  - exists config, MenuInvalidNumber. split; [done|]. split; [|done].
    intros k Hint Hk.
    destruct (read_choice_in_range items choice k Hint Hk) as [n Hn].
    congruence.
  - destruct (read_choice_chosen items choice name Hread)
      as (k & Hint & Hk & Hname).
    destruct (Dict.get items name) as [sc|] eqn:Hsc.
    + rewrite (toggle_service_eq config items name sc Hitems Hsc). simpl.
      eexists _, (MenuChosen name). split; [done|]. split; [by eauto|].
      by exists k, sc.
    + by apply dict_get_None_keys in Hsc.
Qed.

Lemma handle_toggle_flips_a_listed_service_witness :
  exists config' answer,
    handle_toggle_service editor_registry "2" = Some (config', answer)
    /\ (forall choice_num,
          Py.int "2" = Some choice_num ->
          1 <= choice_num <= Z.of_nat (length
            [("a", mk_service true [mk_port "127.0.0.1" 8000 80;
                                    mk_port "127.0.0.1" 9000 90]);
             ("b", mk_service false [mk_port "127.0.0.1" 9000 81]);
             ("c", mk_service true [mk_port "127.0.0.1" 7000 70])]) ->
          exists service_name, answer = MenuChosen service_name)
    /\ match answer with
       | MenuChosen service_name =>
           exists choice_num service_config,
             Py.int "2" = Some choice_num
             /\ 1 <= choice_num <= Z.of_nat (length
                  [("a", mk_service true [mk_port "127.0.0.1" 8000 80;
                                          mk_port "127.0.0.1" 9000 90]);
                   ("b", mk_service false [mk_port "127.0.0.1" 9000 81]);
                   ("c", mk_service true [mk_port "127.0.0.1" 7000 70])])
             /\ Dict.get
                  [("a", mk_service true [mk_port "127.0.0.1" 8000 80;
                                          mk_port "127.0.0.1" 9000 90]);
                   ("b", mk_service false [mk_port "127.0.0.1" 9000 81]);
                   ("c", mk_service true [mk_port "127.0.0.1" 7000 70])]
                  service_name = Some service_config
             /\ config'
                = set_services
                    (Dict.set
                       [("a", mk_service true [mk_port "127.0.0.1" 8000 80;
                                               mk_port "127.0.0.1" 9000 90]);
                        ("b", mk_service false [mk_port "127.0.0.1" 9000 81]);
                        ("c", mk_service true [mk_port "127.0.0.1" 7000 70])]
                       service_name
                       (set_enabled (negb (is_enabled service_config))
                          service_config))
                    editor_registry
       | _ => config' = editor_registry
       end.
Proof.
  exact (handle_toggle_flips_a_listed_service editor_registry _ "2" eq_refl).
Defined.

Lemma edit_service_ports_spec (config : Config)
    (items : list (string * Service)) (service_name : string)
    (choice new_ip new_port_str : string) :
  cfg_services config = Some items ->
  exists config' answer,
    edit_service_ports config service_name choice new_ip new_port_str
    = Some (config', answer)
    /\ (answer = PortsServiceNotFound -> Dict.get items service_name = None)
    /\ match answer with
       | PortsEdited port_answer =>
           exists choice_num service_config ps port_config,
             Py.int choice = Some choice_num
             /\ Dict.get items service_name = Some service_config
             /\ ports service_config = Some ps
             /\ 1 <= choice_num <= Z.of_nat (length ps)
             /\ ps !! Z.to_nat (choice_num - 1) = Some port_config
             /\ edit_single_port config service_name
                  (Z.to_nat (choice_num - 1)) new_ip new_port_str
                = Some (config', port_answer)
       | _ => config' = config
       end.
Proof.
  intros Hitems. unfold edit_service_ports. rewrite Hitems. simpl.
  destruct (Dict.get items service_name) as [sc|] eqn:Hsc;
    [|by exists config, PortsServiceNotFound].
  unfold ports_of. destruct (ports sc) as [ps|] eqn:Hps;
    [|by exists config, PortsNothingToEdit].
  simpl. destruct ps as [|p ps'] eqn:Hpseq;
    [by exists config, PortsNothingToEdit|].
  rewrite <- Hpseq. assert (ports sc = Some ps) as Hps' by by subst.
  clear Hps.
  destruct (Py.int choice) as [k|] eqn:Hint;
    [|by exists config, PortsNotANumber].
  case_bool_decide as Hk0; [by exists config, PortsBack|].
  destruct ((1 <=? k) && (k <=? Z.of_nat (length ps)))%Z eqn:Hrange;
    [|by exists config, PortsInvalidChoice].
  apply andb_true_iff in Hrange as [H1 H2].
  apply Z.leb_le in H1. apply Z.leb_le in H2.
  destruct (lookup_lt_is_Some_2 ps (Z.to_nat (k - 1))) as [pc Hpc]; [lia|].
  destruct (edit_single_port_is_Some config items service_name sc ps
              (Z.to_nat (k - 1)) pc new_ip new_port_str Hitems Hsc Hps' Hpc)
    as (config' & answer & Hedit & _).
  rewrite Hedit. simpl. exists config', (PortsEdited answer).
  split; [done|]. split; [done|]. by exists k, sc, ps, pc.
Qed.

(** X23. [edit_service_ports] does not raise on a registry with a service
    map: it calls [edit_single_port] only for a port mapping the service
    has, so the lookup that opens [edit_single_port] succeeds; whenever it
    does not call it, the registry is as before. *)
Theorem edit_service_ports_reaches_existing_binding (config : Config)
    (items : list (string * Service)) (service_name : string)
    (choice new_ip new_port_str : string) :
  cfg_services config = Some items ->
  exists config' answer,
    edit_service_ports config service_name choice new_ip new_port_str
    = Some (config', answer)
    /\ match answer with
       | PortsEdited port_answer =>
           exists choice_num service_config ps port_config,
             Py.int choice = Some choice_num
             /\ Dict.get items service_name = Some service_config
             /\ ports service_config = Some ps
             /\ 1 <= choice_num <= Z.of_nat (length ps)
             /\ ps !! Z.to_nat (choice_num - 1) = Some port_config
             /\ edit_single_port config service_name
                  (Z.to_nat (choice_num - 1)) new_ip new_port_str
                = Some (config', port_answer)
       | _ => config' = config
       end.
Proof.
  intros Hitems.
  destruct (edit_service_ports_spec config items service_name choice new_ip
              new_port_str Hitems) as (config' & answer & Hedit & _ & Hspec).
  by exists config', answer.
Qed.

Lemma edit_service_ports_reaches_existing_binding_witness :
  exists config' answer,
    edit_service_ports editor_registry "a" "2" "" "9100"
    = Some (config', answer)
    /\ match answer with
       | PortsEdited port_answer =>
           exists choice_num service_config ps port_config,
             Py.int "2" = Some choice_num
             /\ Dict.get
                  [("a", mk_service true [mk_port "127.0.0.1" 8000 80;
                                          mk_port "127.0.0.1" 9000 90]);
                   ("b", mk_service false [mk_port "127.0.0.1" 9000 81]);
                   ("c", mk_service true [mk_port "127.0.0.1" 7000 70])]
                  "a" = Some service_config
             /\ ports service_config = Some ps
             /\ 1 <= choice_num <= Z.of_nat (length ps)
             /\ ps !! Z.to_nat (choice_num - 1) = Some port_config
             /\ edit_single_port editor_registry "a"
                  (Z.to_nat (choice_num - 1)) "" "9100"
                = Some (config', port_answer)
       | _ => config' = editor_registry
       end.
Proof.
  exact (edit_service_ports_reaches_existing_binding editor_registry _ "a"
           "2" "" "9100" eq_refl).
Defined.

(** X24. [handle_edit_ports] does not raise on a registry with a service
    map, and the service it passes on is one of the registry, so
    [edit_service_ports] never answers that the service was not found. An
    answer that is not the number of a listed service leaves the registry
    as it is. *)
Theorem handle_edit_ports_finds_the_service (config : Config)
    (items : list (string * Service))
    (choice port_choice new_ip new_port_str : string) :
  cfg_services config = Some items ->
  exists config' answer ports_answer,
    handle_edit_ports config choice port_choice new_ip new_port_str
    = Some (config', answer, ports_answer)
    /\ ports_answer <> Some PortsServiceNotFound
    /\ match answer with
       | MenuChosen service_name =>
           service_name ∈ items.*1
           /\ exists edited,
                edit_service_ports config service_name port_choice new_ip
                  new_port_str = Some (config', edited)
                /\ ports_answer = Some edited
       | _ => config' = config /\ ports_answer = None
       end.
Proof.
  intros Hitems. unfold handle_edit_ports. rewrite Hitems. simpl.
  destruct (read_choice items choice) as [| | |name] eqn:Hread;
    [by eexists _, _, _..|].
  destruct (read_choice_chosen items choice name Hread)
    as (k & Hint & Hk & Hname).
  destruct (edit_service_ports_spec config items name port_choice new_ip
              new_port_str Hitems)
    as (config' & edited & Hedit & Hfound & _).
  rewrite Hedit. simpl. exists config', (MenuChosen name), (Some edited).
  split; [done|]. split.
  - intros [= ->]. by apply dict_get_None_keys in Hfound.
  - split; [done|]. by exists edited.
Qed.

Lemma handle_edit_ports_finds_the_service_witness :
  exists config' answer ports_answer,
    handle_edit_ports editor_registry "1" "2" "" "9100"
    = Some (config', answer, ports_answer)
    /\ ports_answer <> Some PortsServiceNotFound
    /\ match answer with
       | MenuChosen service_name =>
           service_name
             ∈ [("a", mk_service true [mk_port "127.0.0.1" 8000 80;
                                       mk_port "127.0.0.1" 9000 90]);
                ("b", mk_service false [mk_port "127.0.0.1" 9000 81]);
                ("c", mk_service true [mk_port "127.0.0.1" 7000 70])].*1
           /\ exists edited,
                edit_service_ports editor_registry service_name "2" ""
                  "9100" = Some (config', edited)
                /\ ports_answer = Some edited
       | _ => config' = editor_registry /\ ports_answer = None
       end.
Proof.
  exact (handle_edit_ports_finds_the_service editor_registry _ "1" "2" ""
           "9100" eq_refl).
Defined.

(** ** The order of the menu *)

Lemma ascii_compare_refl a : Ascii.compare a a = Eq.
Proof. unfold Ascii.compare. apply N.compare_refl. Qed.

Lemma ascii_compare_trans a b c :
  Ascii.compare a b = Lt -> Ascii.compare b c = Lt -> Ascii.compare a c = Lt.
Proof. unfold Ascii.compare. rewrite !N.compare_lt_iff. lia. Qed.

Lemma string_compare_refl s : String.compare s s = Eq.
Proof.
  induction s as [|a s IH]; simpl; [done|]. by rewrite ascii_compare_refl.
Qed.

Lemma string_compare_trans s1 s2 s3 :
  String.compare s1 s2 = Lt -> String.compare s2 s3 = Lt ->
  String.compare s1 s3 = Lt.
Proof.
  revert s2 s3. induction s1 as [|a s1 IH]; intros [|b s2] [|c s3];
    simpl; try done.
  destruct (Ascii.compare a b) eqn:Hab; try done;
    destruct (Ascii.compare b c) eqn:Hbc; try done.
  - apply Ascii.compare_eq_iff in Hab as ->.
    apply Ascii.compare_eq_iff in Hbc as ->.
    rewrite ascii_compare_refl. apply IH.
  - apply Ascii.compare_eq_iff in Hab as ->. by rewrite Hbc.
  - apply Ascii.compare_eq_iff in Hbc as <-. by rewrite Hab.
  - by rewrite (ascii_compare_trans a b c).
Qed.

Lemma string_leb_refl s : String.leb s s = true.
Proof. unfold String.leb. by rewrite string_compare_refl. Qed.

Lemma string_leb_trans s1 s2 s3 :
  String.leb s1 s2 = true -> String.leb s2 s3 = true ->
  String.leb s1 s3 = true.
Proof.
  unfold String.leb.
  destruct (String.compare s1 s2) eqn:H12; try done;
    destruct (String.compare s2 s3) eqn:H23; try done; intros _ _.
  - apply String.compare_eq_iff in H12 as ->. by rewrite H23.
  - apply String.compare_eq_iff in H12 as ->. by rewrite H23.
  - apply String.compare_eq_iff in H23 as <-. by rewrite H12.
  - by rewrite (string_compare_trans s1 s2 s3).
Qed.

Lemma insert_sorted_StronglySorted {V} (e : string * V) l :
  StronglySorted (fun a b => String.leb a.1 b.1 = true) l ->
  StronglySorted (fun a b => String.leb a.1 b.1 = true) (insert_sorted e l).
Proof.
  induction l as [|e' l IH]; intros Hl; simpl.
  - apply SSorted_cons; [apply SSorted_nil|apply List.Forall_nil].
  - apply StronglySorted_cons in Hl as [Hle Hl].
    destruct (String.leb e.1 e'.1) eqn:Hee.
    + apply StronglySorted_cons. split.
      * apply Forall_cons. split; [done|].
        eapply Forall_impl; [exact Hle|]. intros x Hx. simpl in *.
        by apply (string_leb_trans _ e'.1).
      * by apply StronglySorted_cons.
    + apply StronglySorted_cons. split; [|by apply IH].
      rewrite insert_sorted_Permutation. apply Forall_cons. split; [|done].
      destruct (String.leb_total e.1 e'.1); [congruence|done].
Qed.

Lemma sorted_items_StronglySorted {V} (l : list (string * V)) :
  StronglySorted (fun a b => String.leb a.1 b.1 = true) (sorted_items l).
Proof.
  induction l as [|e l IH]; simpl; [apply SSorted_nil|].
  by apply insert_sorted_StronglySorted.
Qed.

Lemma group_loop_cons item rest categories :
  group_loop (item :: rest) categories
  = group_loop rest (group_add categories item).
Proof.
  destruct item as [name sc]. simpl group_loop. f_equal.
  unfold group_add, category_of. simpl snd.
  destruct (Dict.get categories (default "other" (category sc))) eqn:Hget.
  - by rewrite Hget.
  - rewrite dict_get_set, decide_True by done. by rewrite dict_set_set.
Qed.

Lemma group_add_get categories item c :
  default [] (Dict.get (group_add categories item) c)
  = default [] (Dict.get categories c)
    ++ (if in_category c item then [item] else []).
Proof.
  unfold group_add, in_category. rewrite dict_get_set.
  destruct (decide (category_of item = c)) as [->|Hne].
  - by rewrite bool_decide_true.
  - rewrite bool_decide_false by done. by rewrite app_nil_r.
Qed.

Lemma group_loop_get items categories c :
  default [] (Dict.get (group_loop items categories) c)
  = default [] (Dict.get categories c) ++ List.filter (in_category c) items.
Proof.
  revert categories. induction items as [|item rest IH]; intros categories.
  - simpl. by rewrite app_nil_r.
  - rewrite group_loop_cons, IH, group_add_get. simpl List.filter.
    rewrite <- app_assoc. by destruct (in_category c item).
Qed.

Lemma group_loop_NoDup items categories :
  NoDup categories.*1 -> NoDup (group_loop items categories).*1.
Proof.
  revert categories. induction items as [|item rest IH]; intros categories.
  - done.
  - rewrite group_loop_cons. intros Hd. apply IH. by apply dict_set_NoDup.
Qed.

Lemma sorted_groups items :
  let groups := sorted_items (group_loop items []) in
  NoDup groups.*1
  /\ forall c, default [] (Dict.get groups c)
               = List.filter (in_category c) items.
Proof.
  intros groups.
  assert (NoDup (group_loop items []).*1) as Hd
    by (apply group_loop_NoDup; apply NoDup_nil_2).
  assert (NoDup groups.*1) as Hd'.
  { unfold groups. by rewrite sorted_items_Permutation. }
  split; [done|]. intros c.
  change (List.filter (in_category c) items)
    with (default [] (Dict.get [] c) ++ List.filter (in_category c) items).
  rewrite <- (group_loop_get items [] c).
  destruct (Dict.get (group_loop items []) c) as [l|] eqn:Hget.
  - apply dict_get_elem_of in Hget.
    rewrite (dict_get_NoDup groups c l); [done..|].
    unfold groups. by rewrite sorted_items_Permutation.
  - destruct (Dict.get groups c) as [l|] eqn:Hget'; [|done].
    apply dict_get_elem_of in Hget'. unfold groups in Hget'.
    rewrite sorted_items_Permutation in Hget'.
    by rewrite (dict_get_NoDup _ c l) in Hget.
Qed.

Lemma filter_filter_category c c' (items : list (string * Service)) :
  List.filter (in_category c) (List.filter (in_category c') items)
  = if decide (c' = c) then List.filter (in_category c') items else [].
Proof.
  induction items as [|item rest IH]; simpl; [by destruct (decide _)|].
  destruct (in_category c' item) eqn:Hc'; [|done].
  simpl. rewrite IH. unfold in_category in *.
  apply bool_decide_eq_true in Hc'.
  destruct (decide (c' = c)) as [<-|Hne].
  - by rewrite bool_decide_true.
  - rewrite bool_decide_false; [done|congruence].
Qed.

Lemma filter_flat_groups (items : list (string * Service))
    (groups : list (string * list (string * Service))) c :
  NoDup groups.*1 ->
  (forall c' l, (c', l) ∈ groups -> l = List.filter (in_category c') items) ->
  List.filter (in_category c) (flat_map snd groups)
  = default [] (Dict.get groups c).
Proof.
  induction groups as [|[c' l] groups IH]; intros Hd Hgroups; [done|].
  rewrite fmap_cons in Hd. apply NoDup_cons in Hd as [Hc' Hd].
  simpl flat_map. rewrite List.filter_app. simpl Dict.get.
  rewrite (Hgroups c' l) by (apply elem_of_cons; by left).
  rewrite filter_filter_category.
  assert (forall c'' l', (c'', l') ∈ groups ->
            l' = List.filter (in_category c'') items) as Hrest.
  { intros c'' l' Hin. apply Hgroups. apply elem_of_cons. by right. }
  rewrite (IH Hd Hrest).
  destruct (decide (c' = c)) as [->|Hne]; [|done].
  simpl in Hc'. apply dict_get_None_keys in Hc'. rewrite Hc'. simpl.
  by rewrite app_nil_r.
Qed.

Lemma filter_category_StronglySorted c (items : list (string * Service)) :
  StronglySorted category_before (List.filter (in_category c) items).
Proof.
  induction items as [|item rest IH]; simpl; [apply SSorted_nil|].
  destruct (in_category c item) eqn:Hitem; [|done].
  apply StronglySorted_cons. split; [|done].
  apply Forall_forall. intros x Hx. unfold category_before.
  apply list_elem_of_In, filter_In in Hx as [_ Hx].
  unfold in_category in *. apply bool_decide_eq_true in Hx, Hitem.
  rewrite Hx, Hitem. apply string_leb_refl.
Qed.

Lemma flat_groups_StronglySorted (items : list (string * Service))
    (groups : list (string * list (string * Service))) :
  StronglySorted (fun a b => String.leb a.1 b.1 = true) groups ->
  (forall c l, (c, l) ∈ groups -> l = List.filter (in_category c) items) ->
  StronglySorted category_before (flat_map snd groups).
Proof.
  assert (forall c (x : string * Service),
            x ∈ List.filter (in_category c) items -> category_of x = c)
    as Hcat.
  { intros c x Hx. apply list_elem_of_In, filter_In in Hx as [_ Hx].
    unfold in_category in Hx. by apply bool_decide_eq_true in Hx. }
  induction groups as [|[c l] groups IH]; intros Hs Hgroups;
    [apply SSorted_nil|].
  apply StronglySorted_cons in Hs as [Hle Hs]. simpl flat_map.
  assert (l = List.filter (in_category c) items) as Hl
    by (apply Hgroups, elem_of_cons; by left).
  apply StronglySorted_app. split; [|split].
  - intros x1 x2 Hx1 Hx2. apply list_elem_of_In, in_flat_map in Hx2
      as ([c2 l2] & Hg & Hx2). apply list_elem_of_In in Hg, Hx2.
    rewrite Forall_forall in Hle. specialize (Hle _ Hg). simpl in *.
    rewrite Hl in Hx1. apply Hcat in Hx1.
    rewrite (Hgroups c2 l2) in Hx2 by (apply elem_of_cons; by right).
    apply Hcat in Hx2. unfold category_before. by rewrite Hx1, Hx2.
  - rewrite Hl. apply filter_category_StronglySorted.
  - apply IH; [done|]. intros c' l' Hin. apply Hgroups, elem_of_cons.
    by right.
Qed.

(** X25. The list of the services numbers every service of the registry
    exactly once, by category: the numbers 1, 2, ... up to the number of
    services go to the services in an order that rearranges the service
    map, in which the categories ascend (a service without a category
    counts as [other]), and in which the services of one category keep the
    order they have in the registry. *)
Theorem menu_numbers_services_by_category (items : list (string * Service)) :
  service_index_map items
  = zip (Z.of_nat <$> seq 1 (length items)) (menu_order items).*1
  /\ menu_order items ≡ₚ items
  /\ StronglySorted category_before (menu_order items)
  /\ forall c,
       List.filter (in_category c) (menu_order items)
       = List.filter (in_category c) items.
Proof.
  destruct (sorted_groups items) as [Hd Hget].
  assert (forall c l,
            (c, l) ∈ sorted_items (group_loop items []) ->
            l = List.filter (in_category c) items) as Hgroups.
  { intros c l Hin. rewrite <- Hget.
    by rewrite (dict_get_NoDup _ c l). }
  split; [apply service_index_map_spec|]. split; [|split].
  - unfold menu_order.
    rewrite (flat_map_Permutation _ _ _ (sorted_items_Permutation _)).
    by rewrite group_loop_Permutation.
  - apply (flat_groups_StronglySorted items);
      [apply sorted_items_StronglySorted|done].
  - intros c. unfold menu_order.
    rewrite (filter_flat_groups items) by done. apply Hget.
Qed.

(** ** Starting the containers *)

Lemma bind_fst {A B} (m : script A) (f : A -> script B) :
  (m ≫= f).1
  = m.1 ++ match m.2 with Returns a => (f a).1 | _ => [] end.
Proof.
  unfold mbind, script_bind. destruct m as [t [a|code|]]; simpl;
    by rewrite ?app_nil_r.
Qed.

Lemma bind_snd {A B} (m : script A) (f : A -> script B) :
  (m ≫= f).2
  = match m.2 with
    | Returns a => (f a).2
    | Exits code => Exits code
    | Raises => Raises
    end.
Proof. unfold mbind, script_bind. by destruct m as [t [a|code|]]. Qed.

Lemma bind_Returns {A B} (m : script A) (f : A -> script B) b :
  (m ≫= f).2 = Returns b ->
  exists a, m.2 = Returns a /\ (f a).2 = Returns b
            /\ (m ≫= f).1 = m.1 ++ (f a).1.
Proof.
  rewrite bind_snd, bind_fst. destruct (m.2) as [a|code|]; [|done..].
  intros Hf. by exists a.
Qed.

Lemma bind_no_exit {A B} (m : script A) (f : A -> script B) :
  (forall code, m.2 <> Exits code) ->
  (forall a code, (f a).2 <> Exits code) ->
  forall code, (m ≫= f).2 <> Exits code.
Proof.
  intros Hm Hf code. rewrite bind_snd.
  destruct (m.2) as [a|code'|] eqn:Hm2; [apply Hf| |done].
  by destruct (Hm code').
Qed.

Lemma perform_no_exit w a code : (perform w a).2 <> Exits code.
Proof. unfold perform. simpl. by destruct (succeeds w a). Qed.

Lemma clone_supabase_repo_no_exit w code :
  (clone_supabase_repo w).2 <> Exits code.
Proof.
  unfold clone_supabase_repo, run_command.
  destruct (negb (path_exists w "supabase"));
    repeat (apply bind_no_exit; [intros ?; apply perform_no_exit|intros _]);
    intros ?; apply perform_no_exit.
Qed.

Lemma generate_searxng_secret_key_returns w :
  (generate_searxng_secret_key w).2 = Returns tt.
Proof.
  unfold generate_searxng_secret_key, try_except, perform.
  destruct (negb (path_exists w _)); [done|].
  destruct (negb (path_exists w _)).
  - rewrite bind_snd. simpl.
    destruct (succeeds w (CopyFile _ _)); simpl; [|done].
    rewrite bind_snd. simpl.
    destruct (bool_decide (platform_system w = "Windows")); simpl.
    + by destruct (succeeds w _).
    + rewrite bind_snd. simpl.
      destruct (succeeds w (CheckOutput _)); simpl; [|done].
      by destruct (succeeds w _).
  - rewrite bind_snd. simpl. rewrite bind_snd. simpl.
    destruct (bool_decide (platform_system w = "Windows")); simpl.
    + by destruct (succeeds w _).
    + rewrite bind_snd. simpl.
      destruct (succeeds w (CheckOutput _)); simpl; [|done].
      by destruct (succeeds w _).
Qed.

Lemma generate_searxng_secret_key_actions w a :
  a ∈ (generate_searxng_secret_key w).1 -> a ∈ searxng_actions w.
Proof.
  unfold generate_searxng_secret_key, try_except, perform, searxng_actions.
  unfold mbind, script_bind, mret, script_ret.
  destruct (negb (path_exists w (path_join w ["searxng"; "settings-base.yml"])));
    [by intros ?%elem_of_nil|].
  destruct (negb (path_exists w (path_join w ["searxng"; "settings.yml"])));
    destruct (bool_decide (platform_system w = "Windows"));
    simpl;
    repeat match goal with
           | |- context [succeeds w ?x] => destruct (succeeds w x); simpl
           end;
    intros Ha; repeat (apply elem_of_cons in Ha as [->|Ha]);
    try (by apply elem_of_nil in Ha);
    repeat first [by apply list_elem_of_here | apply list_elem_of_further].
Qed.

Lemma resolved_has_services config profile names :
  get_enabled_services config profile = Some names ->
  exists items, cfg_services config = Some items.
Proof.
  unfold get_enabled_services.
  destruct (cfg_services config) as [items|]; [by eauto|done].
Qed.

Lemma validated_has_services config :
  validate_config config = ValidationPassed ->
  exists items, cfg_services config = Some items.
Proof.
  unfold validate_config. destruct (cfg_global config); [|done].
  destruct (cfg_services config) as [items|]; [by eauto|done].
Qed.

Lemma write_override_file_eq w config items services environment :
  cfg_services config = Some items ->
  exists content,
    generate_override_file config services environment
    = Some ("docker-compose.override." +:+ environment +:+ ".generated.yml",
            content)
    /\ write_override_file w config services environment
       = ([WriteFile
             ("docker-compose.override." +:+ environment +:+ ".generated.yml")
             content],
          if succeeds w
               (WriteFile
                  ("docker-compose.override." +:+ environment
                     +:+ ".generated.yml") content)
          then Returns
                 ("docker-compose.override." +:+ environment
                    +:+ ".generated.yml")
          else Raises).
Proof.
  intros Hitems. unfold write_override_file, generate_override_file,
    override_services. rewrite Hitems. simpl. eexists. split; [done|].
  unfold perform, mbind, script_bind, mret, script_ret. simpl.
  by destruct (succeeds w _).
Qed.

Lemma write_caddyfile_eq w config items services :
  cfg_services config = Some items ->
  exists content,
    generate_caddyfile (str_upper w) config services = Some content
    /\ write_caddyfile w config services
       = perform w (WriteFile "Caddyfile.generated" content).
Proof.
  intros Hitems. unfold write_caddyfile, generate_caddyfile.
  rewrite Hitems. simpl. by eexists.
Qed.

(** X26. [main] writes a file or runs a command exactly when it is asked
    neither to list the services nor for a dry run, the registry passes the
    validation, and the profile resolves to at least one service. *)
Theorem main_acts_iff_something_to_start (w : World) (args : Args)
    (config : Config) :
  (main w args config).1 <> []
  <-> args_list_services args = false
      /\ args_dry_run args = false
      /\ validate_config config = ValidationPassed
      /\ exists names,
           get_enabled_services config (Some (args_profile args))
           = Some names
           /\ names <> [].
Proof.
  unfold main. split.
  - destruct (args_list_services args); [by destruct (cfg_services config)|].
    destruct (validate_config config) eqn:Hvalid; simpl; [|done..].
    destruct (get_enabled_services config (Some (args_profile args)))
      as [[|name names]|]; [done| |done].
    destruct (args_dry_run args); [done|]. intros _.
    repeat split; [done..|]. by eexists.
  - intros (Hlist & Hdry & Hvalid & names & Hres & Hnames).
    destruct (validated_has_services config Hvalid) as [items Hitems].
    rewrite Hlist, Hvalid, Hres, Hdry. simpl.
    destruct names as [|name names]; [done|].
    destruct (write_override_file_eq w config items (name :: names)
                (args_environment args) Hitems) as (content & _ & ->).
    by rewrite bind_fst.
Qed.

Lemma write_override_file_no_exit w config services environment code :
  (write_override_file w config services environment).2 <> Exits code.
Proof.
  unfold write_override_file.
  destruct (generate_override_file config services environment)
    as [[file content]|]; [|done].
  apply bind_no_exit; [intros ?; apply perform_no_exit|done].
Qed.

Lemma write_caddyfile_no_exit w config services code :
  (write_caddyfile w config services).2 <> Exits code.
Proof.
  unfold write_caddyfile.
  destruct (generate_caddyfile _ config services);
    [apply perform_no_exit|done].
Qed.

(** X27. Once the arguments are parsed and the [ServiceManager] is built,
    [main] ends with [sys.exit] exactly when it is not asked to list the
    services and either the validation fails or the profile resolves to no
    service; the exit status is then 1. (The exits that come before, of the
    parser on a bad argument and of [main] on a missing configuration file,
    are not part of [main] as it is modelled here.) *)
Theorem main_exit_status (w : World) (args : Args) (config : Config)
    (code : Z) :
  (main w args config).2 = Exits code
  <-> code = 1
      /\ args_list_services args = false
      /\ (validation_result (validate_config config) = false
          \/ get_enabled_services config (Some (args_profile args))
             = Some []).
Proof.
  unfold main. split.
  - destruct (args_list_services args); [by destruct (cfg_services config)|].
    destruct (validation_result (validate_config config)); simpl;
      [|intros [= <-]; by eauto].
    destruct (get_enabled_services config (Some (args_profile args)))
      as [[|name names]|]; [intros [= <-]; by eauto| |done].
    destruct (args_dry_run args); [done|]. intros Hexit. exfalso.
    revert Hexit. apply bind_no_exit;
      [intros ?; apply write_override_file_no_exit|intros override_file].
    apply bind_no_exit; [intros ?; apply write_caddyfile_no_exit|intros _].
    apply bind_no_exit; [|intros _].
    { destruct (_ && _); [|done].
      apply bind_no_exit; [intros ?; apply clone_supabase_repo_no_exit|].
      intros _ ?. apply perform_no_exit. }
    apply bind_no_exit; [|intros _].
    { intros ?. destruct (bool_decide _); [|done].
      by rewrite generate_searxng_secret_key_returns. }
    apply bind_no_exit; [intros ?; apply perform_no_exit|intros _].
    apply bind_no_exit; [|intros _ ?; apply perform_no_exit].
    destruct (_ && _); [|done].
    apply bind_no_exit; [intros ?; apply perform_no_exit|done].
  - intros (-> & -> & Hwhy).
    destruct (validation_result (validate_config config)); simpl; [|done].
    destruct Hwhy as [?| ->]; done.
Qed.

Lemma starts_containers_last a :
  starts_containers a -> exists cmd, a = Run cmd /\ last cmd = Some "-d".
Proof.
  intros (cmd & -> & k & ->). exists (k ++ ["up"; "-d"]). split; [done|].
  change (k ++ ["up"; "-d"]) with (k ++ ["up"] ++ ["-d"]).
  by rewrite app_assoc, last_snoc.
Qed.

Lemma stop_command_last project_name profile :
  last (stop_command project_name profile) = Some "down".
Proof.
  unfold stop_command.
  change ["-f"; "docker-compose.yml"; "down"]
    with (["-f"; "docker-compose.yml"] ++ ["down"]).
  by rewrite app_assoc, last_snoc.
Qed.

Lemma stopped_first_no_up w stop trace :
  Forall (fun a => ~ starts_containers a) trace ->
  stopped_first w stop trace.
Proof.
  intros Hno pre a post -> Hup. rewrite Forall_forall in Hno.
  destruct (Hno a); [|done]. apply elem_of_app. right. apply list_elem_of_here.
Qed.

Lemma stopped_first_app w stop t1 t2 :
  Forall (fun a => ~ starts_containers a) t1 ->
  stopped_first w stop t2 ->
  stopped_first w stop (t1 ++ t2).
Proof.
  induction t1 as [|x t1 IH]; intros Hno Ht2; [done|].
  apply Forall_cons in Hno as [Hx Hno]. intros pre a post Heq Hup.
  destruct pre as [|y pre]; simpl in Heq.
  - injection Heq as -> _. done.
  - injection Heq as -> Heq.
    destruct (IH Hno Ht2 pre a post Heq Hup) as [Hin Hok].
    split; [by apply list_elem_of_further|done].
Qed.

Lemma stopped_first_bind {A B} w stop (m : script A) (f : A -> script B) :
  Forall (fun a => ~ starts_containers a) m.1 ->
  (forall a, stopped_first w stop (f a).1) ->
  stopped_first w stop (m ≫= f).1.
Proof.
  intros Hm Hf. rewrite bind_fst. apply stopped_first_app; [done|].
  destruct (m.2); [apply Hf|by apply stopped_first_no_up..].
Qed.

Lemma stopped_first_stop {B} w stop (f : unit -> script B) :
  ~ starts_containers stop ->
  stopped_first w stop (perform w stop ≫= f).1.
Proof.
  intros Hstop. rewrite bind_fst. unfold perform. simpl.
  intros pre a post Heq Hup. destruct pre as [|y pre]; simpl in Heq.
  - injection Heq as -> _. done.
  - injection Heq as -> Heq. split; [apply list_elem_of_here|].
    destruct (succeeds w y); [done|]. by destruct pre.
Qed.

Lemma clone_supabase_repo_no_up w :
  Forall (fun a => ~ starts_containers a) (clone_supabase_repo w).1.
Proof.
  assert (forall a, a ∈ (clone_supabase_repo w).1 ->
            a ∈ [Run ["git"; "clone"; "--filter=blob:none"; "--no-checkout";
                      "https://github.com/supabase/supabase.git"];
                 Chdir "supabase";
                 Run ["git"; "sparse-checkout"; "init"; "--cone"];
                 Run ["git"; "sparse-checkout"; "set"; "docker"];
                 Run ["git"; "checkout"; "master"];
                 Chdir "..";
                 Run ["git"; "pull"]]) as Hsub.
  { intros a. unfold clone_supabase_repo, run_command, perform.
    unfold mbind, script_bind. destruct (negb (path_exists w "supabase"));
      simpl;
      repeat match goal with
             | |- context [succeeds w ?x] => destruct (succeeds w x); simpl
             end;
      intros Ha; repeat (apply elem_of_cons in Ha as [->|Ha]);
      try (by apply elem_of_nil in Ha);
      repeat first [by apply list_elem_of_here | apply list_elem_of_further]. }
  apply Forall_forall. intros a Ha%Hsub Hup.
  apply starts_containers_last in Hup as (cmd & -> & Hlast).
  repeat (apply elem_of_cons in Ha as [Ha|Ha]);
    try (by apply elem_of_nil in Ha); try done;
    injection Ha as ->; done.
Qed.

Lemma generate_searxng_secret_key_no_up w :
  Forall (fun a => ~ starts_containers a) (generate_searxng_secret_key w).1.
Proof.
  apply Forall_forall.
  intros a Ha%generate_searxng_secret_key_actions Hup.
  apply starts_containers_last in Hup as (cmd & -> & Hlast).
  unfold searxng_actions in Ha.
  repeat (apply elem_of_cons in Ha as [Ha|Ha]);
    try (by apply elem_of_nil in Ha); try done;
    injection Ha as ->; try done.
  unfold sed_cmd, path_join, Py.join in Hlast.
  destruct (bool_decide (platform_system w = "Darwin")); simpl in Hlast;
    by injection Hlast.
Qed.

Lemma main_stopped_first w args config :
  stopped_first w
    (Run (stop_command (project_name_of config) (Some (args_profile args))))
    (main w args config).1.
Proof.
  assert (forall path content, ~ starts_containers (WriteFile path content))
    as Hwrite by (by intros path content (cmd & [=] & _)).
  unfold main.
  destruct (args_list_services args);
    [destruct (cfg_services config);
       by apply stopped_first_no_up, Forall_nil|].
  destruct (negb _); [by apply stopped_first_no_up, Forall_nil|].
  destruct (get_enabled_services config (Some (args_profile args)))
    as [[|name names]|]; [by apply stopped_first_no_up, Forall_nil| |
                          by apply stopped_first_no_up, Forall_nil].
  destruct (args_dry_run args); [by apply stopped_first_no_up, Forall_nil|].
  apply stopped_first_bind; [|intros override_file].
  { unfold write_override_file. destruct (generate_override_file _ _ _)
      as [[file content]|]; [|by apply Forall_nil].
    rewrite bind_fst. simpl. destruct (succeeds w _); simpl;
      by repeat (apply Forall_cons; split; [apply Hwrite|]). }
  apply stopped_first_bind; [|intros _].
  { unfold write_caddyfile. destruct (generate_caddyfile _ _ _);
      [|by apply Forall_nil].
    simpl. by apply Forall_cons; split; [apply Hwrite|]. }
  apply stopped_first_bind; [|intros _].
  { destruct (_ && _); [|by apply Forall_nil]. rewrite bind_fst.
    apply Forall_app. split; [apply clone_supabase_repo_no_up|].
    destruct ((clone_supabase_repo w).2); [|by apply Forall_nil..].
    simpl. apply Forall_cons. split; [|done].
    by intros (cmd & [=] & _). }
  apply stopped_first_bind; [|intros _].
  { destruct (bool_decide _); [|by apply Forall_nil].
    apply generate_searxng_secret_key_no_up. }
  apply stopped_first_stop. intros Hup.
  apply starts_containers_last in Hup as (cmd & [= <-] & Hlast).
  by rewrite stop_command_last in Hlast.
Qed.

(** X28. [main] brings no containers up before it has taken the existing
    ones down: a compose command ending in [up -d] comes after the
    [down] command for the project and the profile, and that command
    succeeded. *)
Theorem containers_stopped_before_started (w : World) (args : Args)
    (config : Config) (pre post : list action) (cmd : list string) :
  (main w args config).1 = pre ++ Run cmd :: post ->
  ["up"; "-d"] `suffix_of` cmd ->
  Run (stop_command (project_name_of config) (Some (args_profile args)))
    ∈ pre
  /\ succeeds w
       (Run (stop_command (project_name_of config)
               (Some (args_profile args)))) = true.
Proof.
  intros Htrace Hup.
  apply (main_stopped_first w args config pre (Run cmd) post Htrace).
  by exists cmd.
Qed.

Lemma containers_stopped_before_started_witness :
  Run (stop_command (project_name_of cpu_registry)
         (Some (args_profile cpu_args)))
    ∈ take 9 (main quiet_world cpu_args cpu_registry).1
  /\ succeeds quiet_world
       (Run (stop_command (project_name_of cpu_registry)
               (Some (args_profile cpu_args)))) = true.
Proof.
  apply (containers_stopped_before_started quiet_world cpu_args cpu_registry
           (take 9 (main quiet_world cpu_args cpu_registry).1)
           (drop 10 (main quiet_world cpu_args cpu_registry).1)
           (supabase_command "localai" (Some "private"))).
  - vm_compute. reflexivity.
  - exists ["docker"; "compose"; "-p"; "localai"; "-f";
            "supabase/docker/docker-compose.yml"]. reflexivity.
Defined.

Lemma succeeded_but_bind {A B} w caught (m : script A) (f : A -> script B) :
  (forall a, m.2 = Returns a -> succeeded_but w caught m.1) ->
  (forall a b, (f a).2 = Returns b -> succeeded_but w caught (f a).1) ->
  forall b, (m ≫= f).2 = Returns b -> succeeded_but w caught (m ≫= f).1.
Proof.
  intros Hm Hf b Hb.
  apply bind_Returns in Hb as (a & Hma & Hfa & ->).
  intros x [Hx|Hx]%elem_of_app; [by apply (Hm a)|by apply (Hf a b)].
Qed.

Lemma succeeded_but_perform w caught a (x : unit) :
  (perform w a).2 = Returns x -> succeeded_but w caught (perform w a).1.
Proof.
  unfold perform. simpl. destruct (succeeds w a) eqn:Ha; [|done].
  intros _ a' ->%list_elem_of_singleton. by left.
Qed.

Lemma succeeded_but_nil w caught : succeeded_but w caught [].
Proof. by intros a ?%elem_of_nil. Qed.

Lemma clone_supabase_repo_succeeded w caught (x : unit) :
  (clone_supabase_repo w).2 = Returns x ->
  succeeded_but w caught (clone_supabase_repo w).1.
Proof.
  unfold clone_supabase_repo, run_command.
  destruct (negb (path_exists w "supabase"));
    repeat (apply succeeded_but_bind;
            [intros ?; apply succeeded_but_perform|intros _ ?]);
    apply succeeded_but_perform.
Qed.

Lemma main_succeeded w args config (x : unit) :
  (main w args config).2 = Returns x ->
  succeeded_but w (searxng_actions w) (main w args config).1.
Proof.
  unfold main.
  destruct (args_list_services args);
    [destruct (cfg_services config); intros _; apply succeeded_but_nil|].
  destruct (negb _); [intros _; apply succeeded_but_nil|].
  destruct (get_enabled_services config (Some (args_profile args)))
    as [[|name names]|]; [intros _; apply succeeded_but_nil| |
                          intros _; apply succeeded_but_nil].
  destruct (args_dry_run args); [intros _; apply succeeded_but_nil|].
  apply succeeded_but_bind; [intros override_file|intros override_file ?].
  { unfold write_override_file. destruct (generate_override_file _ _ _)
      as [[file content]|]; [|done].
    apply succeeded_but_bind; [intros ?; apply succeeded_but_perform|].
    intros _ ? _. apply succeeded_but_nil. }
  apply succeeded_but_bind; [intros ?|intros _ ?].
  { unfold write_caddyfile. destruct (generate_caddyfile _ _ _); [|done].
    apply succeeded_but_perform. }
  apply succeeded_but_bind; [intros ?|intros _ ?].
  { destruct (_ && _); [|intros _; apply succeeded_but_nil].
    apply succeeded_but_bind;
      [intros ?; apply clone_supabase_repo_succeeded|].
    intros _ ?. apply succeeded_but_perform. }
  apply succeeded_but_bind; [intros ?|intros _ ?].
  { destruct (bool_decide _); [|intros _; apply succeeded_but_nil].
    intros _ act Hact%generate_searxng_secret_key_actions. right. by left. }
  apply succeeded_but_bind;
    [intros ?; apply succeeded_but_perform|intros _ ?].
  apply succeeded_but_bind; [intros ?|intros _ ?].
  { destruct (_ && _); [|intros _; apply succeeded_but_nil].
    apply succeeded_but_bind;
      [intros ?; apply succeeded_but_perform|].
    intros _ ? _ act ->%list_elem_of_singleton. right. right. by eexists. }
  apply succeeded_but_perform.
Qed.

(** X29. [main] does not go on after a failure: when it returns, every
    action it has attempted has succeeded, apart from the actions of the
    SearXNG key generation, whose failures are caught there. *)
Theorem main_returns_only_after_success (w : World) (args : Args)
    (config : Config) :
  (main w args config).2 = Returns tt ->
  forall a, a ∈ (main w args config).1 ->
    succeeds w a = true
    \/ a ∈ searxng_actions w
    \/ exists seconds, a = Sleep seconds.
Proof. apply main_succeeded. Qed.

Lemma main_returns_only_after_success_witness :
  succeeds world_without_openssl (CheckOutput openssl_cmd) = true
  \/ CheckOutput openssl_cmd ∈ searxng_actions world_without_openssl
  \/ exists seconds, CheckOutput openssl_cmd = Sleep seconds.
Proof.
  apply (main_returns_only_after_success world_without_openssl cpu_args
           cpu_registry eq_refl (CheckOutput openssl_cmd)).
  vm_compute. do 6 apply list_elem_of_further. apply list_elem_of_here.
Defined.

Lemma bind_Returns_last {A B} (m : script A) (f : A -> script B) b x :
  (m ≫= f).2 = Returns b ->
  (forall a, m.2 = Returns a -> (f a).2 = Returns b ->
             exists pre, (f a).1 = pre ++ [x]) ->
  exists pre, (m ≫= f).1 = pre ++ [x].
Proof.
  intros Hb Hf. apply bind_Returns in Hb as (a & Hma & Hfa & ->).
  destruct (Hf a Hma Hfa) as [pre ->]. exists (m.1 ++ pre).
  by rewrite app_assoc.
Qed.

(** X30. When [main], asked neither to list the services nor for a dry run,
    returns, the last thing it did is the compose command that brings the
    services of the project up, with the profile, the environment and the
    name of the overlay it has written for the environment. *)
Theorem main_ends_with_local_ai_up (w : World) (args : Args)
    (config : Config) :
  args_list_services args = false ->
  args_dry_run args = false ->
  (main w args config).2 = Returns tt ->
  exists pre,
    (main w args config).1
    = pre ++ [Run (local_ai_command w (project_name_of config)
                     (Some (args_profile args))
                     (Some (args_environment args))
                     (Some ("docker-compose.override."
                              +:+ args_environment args
                              +:+ ".generated.yml")))].
Proof.
  unfold main. intros -> ->.
  destruct (negb _); [done|].
  destruct (get_enabled_services config (Some (args_profile args)))
    as [[|name names]|] eqn:Hres; [done| |done].
  destruct (resolved_has_services _ _ _ Hres) as [items Hitems].
  destruct (write_override_file_eq w config items (name :: names)
              (args_environment args) Hitems) as (content & _ & Hwrite).
  intros Hreturns. eapply bind_Returns_last; [exact Hreturns|].
  intros override_file Hfile. rewrite Hwrite in Hfile. simpl in Hfile.
  destruct (succeeds w _); [|done]. injection Hfile as <-.
  intros Hrest. eapply bind_Returns_last; [exact Hrest|].
  clear Hrest. intros _ _ Hrest.
  eapply bind_Returns_last; [exact Hrest|].
  clear Hrest. intros _ _ Hrest.
  eapply bind_Returns_last; [exact Hrest|].
  clear Hrest. intros _ _ Hrest.
  eapply bind_Returns_last; [exact Hrest|].
  clear Hrest. intros _ _ Hrest.
  eapply bind_Returns_last; [exact Hrest|].
  clear Hrest. intros _ _ Hrest.
  by exists [].
Qed.

Lemma main_ends_with_local_ai_up_witness :
  exists pre,
    (main quiet_world cpu_args cpu_registry).1
    = pre ++ [Run (local_ai_command quiet_world
                     (project_name_of cpu_registry)
                     (Some (args_profile cpu_args))
                     (Some (args_environment cpu_args))
                     (Some ("docker-compose.override."
                              +:+ args_environment cpu_args
                              +:+ ".generated.yml")))].
Proof.
  exact (main_ends_with_local_ai_up quiet_world cpu_args cpu_registry
           eq_refl eq_refl eq_refl).
Defined.
